(** * Time zone converter: the share-link codec, the zone list and the
      time arithmetic of [src/components/TimeZoneConverter.js]

    The component is a React function component.  Its state cells
    ([useState]) become the fields of a record, every event handler becomes
    a function from the state the handler closed over to an outcome, and
    the browser functions the handlers call ([btoa], [atob],
    [JSON.stringify], [JSON.parse], [Date], [URLSearchParams]) are modelled
    from their standards.  Where a standard leaves the answer to the engine
    or defines it through IEEE-754 rounding, the answer is a field of the
    [Host] record, over which every theorem quantifies. *)

From Stdlib Require Import String Ascii ZArith QArith List Bool Lia Permutation.
Import ListNotations.
Local Open Scope Z_scope.
Set Warnings "-register-all".

(** ** JavaScript strings and exceptions *)

(** A JavaScript string is a sequence of UTF-16 code units. *)
Definition jsstring := list Z.

(** The code unit of an ASCII character; the quotation mark is written by
    its decimal code, [ch "034"]. *)
Definition ch (a : ascii) : Z := Z.of_N (N_of_ascii a).

Definition str (s : string) : jsstring := map ch (list_ascii_of_string s).
Arguments str s%_string.

Fixpoint jsstring_eqb (a b : jsstring) : bool :=
  match a, b with
  | [], [] => true
  | x :: a', y :: b' => (x =? y) && jsstring_eqb a' b'
  | _, _ => false
  end.

(** The exceptions the modelled code can raise. *)
Inductive exn : Type :=
| InvalidCharacterError          (* DOMException of [btoa] / [atob] *)
| SyntaxError                    (* [JSON.parse] *)
| TypeError                      (* property read on [null] / [undefined], ToPrimitive *)
| RangeError                     (* [toISOString] of an invalid date *)
| Error (msg : jsstring).        (* [throw new Error(msg)] *)

Inductive result (A : Type) : Type :=
| Ok (a : A)
| Throw (e : exn).
Arguments Ok {A} a.
Arguments Throw {A} e.

Definition bind {A B} (r : result A) (k : A -> result B) : result B :=
  match r with
  | Ok a => k a
  | Throw e => Throw e
  end.

Notation "x <- r ;; k" := (bind r (fun x => k))
  (at level 61, r at next level, right associativity).

Module Base64.

(** *** [btoa]: RFC 4648 base64 with padding *)

Definition alphabet (i : Z) : Z :=
  if i <? 26 then ch "A" + i
  else if i <? 52 then ch "a" + (i - 26)
  else if i <? 62 then ch "0" + (i - 52)
  else if i =? 62 then ch "+"
  else ch "/".

Definition sextet0 (a : Z) : Z := Z.shiftr a 2.
Definition sextet1 (a b : Z) : Z := Z.lor (Z.shiftl (Z.land a 3) 4) (Z.shiftr b 4).
Definition sextet2 (b c : Z) : Z := Z.lor (Z.shiftl (Z.land b 15) 2) (Z.shiftr c 6).
Definition sextet3 (c : Z) : Z := Z.land c 63.

Fixpoint encode (bytes : list Z) : jsstring :=
  match bytes with
  | a :: b :: c :: rest =>
      alphabet (sextet0 a) :: alphabet (sextet1 a b)
        :: alphabet (sextet2 b c) :: alphabet (sextet3 c) :: encode rest
  | [a; b] =>
      [alphabet (sextet0 a); alphabet (sextet1 a b); alphabet (sextet2 b 0); ch "="]
  | [a] => [alphabet (sextet0 a); alphabet (sextet1 a 0); ch "="; ch "="]
  | [] => []
  end.

Definition latin1 (c : Z) : bool := (0 <=? c) && (c <=? 255).

(** [btoa(s)] throws when [s] has a code unit above U+00FF. *)
Definition btoa (s : jsstring) : result jsstring :=
  if forallb latin1 s then Ok (encode s) else Throw InvalidCharacterError.

(** *** [atob]: the WHATWG forgiving-base64 decode *)

Definition ascii_whitespace (c : Z) : bool :=
  (c =? 9) || (c =? 10) || (c =? 12) || (c =? 13) || (c =? 32).

Definition index (c : Z) : option Z :=
  if (ch "A" <=? c) && (c <=? ch "Z") then Some (c - ch "A")
  else if (ch "a" <=? c) && (c <=? ch "z") then Some (c - ch "a" + 26)
  else if (ch "0" <=? c) && (c <=? ch "9") then Some (c - ch "0" + 52)
  else if c =? ch "+" then Some 62
  else if c =? ch "/" then Some 63
  else None.

(** Step 2 of the algorithm, applied when the length is a multiple of four:
    one or two trailing [=] are removed. *)
Fixpoint remove_padding (data : jsstring) : jsstring :=
  match data with
  | [] => []
  | c :: rest =>
      match rest with
      | [] => if c =? ch "=" then [] else [c]
      | [d] => if (c =? ch "=") && (d =? ch "=") then [] else c :: remove_padding rest
      | _ => c :: remove_padding rest
      end
  end.

Fixpoint indices (data : jsstring) : option (list Z) :=
  match data with
  | [] => Some []
  | c :: rest =>
      match index c, indices rest with
      | Some i, Some l => Some (i :: l)
      | _, _ => None
      end
  end.

Definition byte0 (s0 s1 : Z) : Z := Z.lor (Z.shiftl s0 2) (Z.shiftr s1 4).
Definition byte1 (s1 s2 : Z) : Z := Z.lor (Z.shiftl (Z.land s1 15) 4) (Z.shiftr s2 2).
Definition byte2 (s2 s3 : Z) : Z := Z.lor (Z.shiftl (Z.land s2 3) 6) s3.

(** 24-bit groups give three bytes; a rest of 18 bits gives two and a rest
    of 12 bits one, the spare bits being dropped. *)
Fixpoint bytes_of (l : list Z) : list Z :=
  match l with
  | s0 :: s1 :: s2 :: s3 :: rest =>
      byte0 s0 s1 :: byte1 s1 s2 :: byte2 s2 s3 :: bytes_of rest
  | [s0; s1; s2] => [byte0 s0 s1; byte1 s1 s2]
  | [s0; s1] => [byte0 s0 s1]
  | _ => []
  end.

Definition atob (data : jsstring) : result jsstring :=
  let data := filter (fun c => negb (ascii_whitespace c)) data in
  let data :=
    if Z.of_nat (length data) mod 4 =? 0 then remove_padding data else data in
  if Z.of_nat (length data) mod 4 =? 1 then Throw InvalidCharacterError
  else match indices data with
       | Some l => Ok (bytes_of l)
       | None => Throw InvalidCharacterError
       end.

End Base64.

(** ** JavaScript values as [JSON.parse] builds them *)

(** A JSON number literal [-? int frac? exp?] is kept as the exact decimal
    [(-1)^negative * mantissa * 10^exponent]; the Number it denotes is the
    double nearest to it. *)
Record number : Type := mkNumber { negative : bool; mantissa : Z; exponent : Z }.

Inductive value : Type :=
| VUndefined
| VNull
| VBool (b : bool)
| VNum (n : number)
| VStr (s : jsstring)
| VArr (elems : list value)
| VObj (props : list (jsstring * value)).

(** The nearest double of a positive decimal is zero exactly when the
    decimal is at most 2^-1075, half the least subnormal. *)
Definition number_is_zero (n : number) : bool :=
  if mantissa n =? 0 then true
  else if 0 <=? exponent n then false
  else mantissa n * 2 ^ 1075 <=? 10 ^ (- exponent n).

(** ToBoolean *)
Definition truthy (v : value) : bool :=
  match v with
  | VUndefined | VNull => false
  | VBool b => b
  | VNum n => negb (number_is_zero n)
  | VStr s => match s with [] => false | _ => true end
  | VArr _ | VObj _ => true
  end.

Definition isArray (v : value) : bool :=
  match v with VArr _ => true | _ => false end.

(** [v === s] for a string [s]. *)
Definition strict_eq_string (v : value) (s : jsstring) : bool :=
  match v with VStr t => jsstring_eqb t s | _ => false end.

(** [arr.includes(s)] for a string [s]. *)
Definition includes (arr : list value) (s : jsstring) : bool :=
  existsb (fun v => strict_eq_string v s) arr.

Definition lookup (k : jsstring) (props : list (jsstring * value)) : value :=
  match find (fun p => jsstring_eqb (fst p) k) props with
  | Some p => snd p
  | None => VUndefined
  end.

(** [v.k] for a property name that no built-in prototype defines ([time]
    and [timezones] are the two the component reads): the own property of
    an object, [undefined] on any other value, a TypeError on [null] and
    [undefined]. *)
Definition get_prop (v : value) (k : jsstring) : result value :=
  match v with
  | VUndefined | VNull => Throw TypeError
  | VObj props => Ok (lookup k props)
  | _ => Ok VUndefined
  end.

Module JSON.

(** *** [JSON.parse] *)

Definition is_ws (c : Z) : bool :=
  (c =? 9) || (c =? 10) || (c =? 13) || (c =? 32).

Fixpoint skip_ws (s : jsstring) : jsstring :=
  match s with
  | c :: r => if is_ws c then skip_ws r else s
  | [] => []
  end.

Definition digit (c : Z) : option Z :=
  if (ch "0" <=? c) && (c <=? ch "9") then Some (c - ch "0") else None.

Definition hex_digit (c : Z) : option Z :=
  if (ch "0" <=? c) && (c <=? ch "9") then Some (c - ch "0")
  else if (ch "a" <=? c) && (c <=? ch "f") then Some (c - ch "a" + 10)
  else if (ch "A" <=? c) && (c <=? ch "F") then Some (c - ch "A" + 10)
  else None.

Definition hex4 (a b c d : Z) : option Z :=
  match hex_digit a, hex_digit b, hex_digit c, hex_digit d with
  | Some x, Some y, Some z, Some w => Some (((x * 16 + y) * 16 + z) * 16 + w)
  | _, _, _, _ => None
  end.

Definition unescape (e : Z) : option Z :=
  if e =? ch "034" then Some (ch "034")
  else if e =? ch "\" then Some (ch "\")
  else if e =? ch "/" then Some (ch "/")
  else if e =? ch "b" then Some 8
  else if e =? ch "f" then Some 12
  else if e =? ch "n" then Some 10
  else if e =? ch "r" then Some 13
  else if e =? ch "t" then Some 9
  else None.

(** The characters of a string literal after its opening quote, up to and
    including the closing quote. *)
Fixpoint parse_string (s : jsstring) : option (jsstring * jsstring) :=
  match s with
  | [] => None
  | c :: r =>
      if c =? ch "034" then Some ([], r)
      else if c =? ch "\" then
        match r with
        | [] => None
        | e :: r1 =>
            if e =? ch "u" then
              match r1 with
              | x :: y :: z :: w :: r2 =>
                  match hex4 x y z w, parse_string r2 with
                  | Some u, Some (t, rest) => Some (u :: t, rest)
                  | _, _ => None
                  end
              | _ => None
              end
            else
              match unescape e, parse_string r1 with
              | Some u, Some (t, rest) => Some (u :: t, rest)
              | _, _ => None
              end
        end
      else if c <? 32 then None
      else
        match parse_string r with
        | Some (t, rest) => Some (c :: t, rest)
        | None => None
        end
  end.

(** Reads a run of decimal digits: the value accumulated, the number of
    digits read, the rest. *)
Fixpoint digits_acc (acc n : Z) (s : jsstring) : Z * Z * jsstring :=
  match s with
  | c :: r =>
      match digit c with
      | Some d => digits_acc (acc * 10 + d) (n + 1) r
      | None => (acc, n, s)
      end
  | [] => (acc, n, [])
  end.

Definition parse_int (s : jsstring) : option (Z * jsstring) :=
  match s with
  | c :: r =>
      if c =? ch "0" then Some (0, r)
      else match digit c with
           | Some _ => let '(m, _, rest) := digits_acc 0 0 s in Some (m, rest)
           | None => None
           end
  | [] => None
  end.

Definition parse_frac (m : Z) (s : jsstring) : option (Z * Z * jsstring) :=
  match s with
  | c :: r =>
      if c =? ch "." then
        let '(m', n, rest) := digits_acc m 0 r in
        if n =? 0 then None else Some (m', - n, rest)
      else Some (m, 0, s)
  | [] => Some (m, 0, [])
  end.

Definition parse_exp (s : jsstring) : option (Z * jsstring) :=
  match s with
  | c :: r =>
      if (c =? ch "e") || (c =? ch "E") then
        let '(sign, r1) :=
          match r with
          | d :: r' =>
              if d =? ch "-" then (-1, r')
              else if d =? ch "+" then (1, r') else (1, r)
          | [] => (1, r)
          end in
        let '(e, n, rest) := digits_acc 0 0 r1 in
        if n =? 0 then None else Some (sign * e, rest)
      else Some (0, s)
  | [] => Some (0, [])
  end.

Definition parse_number (s : jsstring) : option (number * jsstring) :=
  let '(sgn, s1) :=
    match s with
    | c :: r => if c =? ch "-" then (true, r) else (false, s)
    | [] => (false, s)
    end in
  match parse_int s1 with
  | None => None
  | Some (m, s2) =>
      match parse_frac m s2 with
      | None => None
      | Some (m', e1, s3) =>
          match parse_exp s3 with
          | None => None
          | Some (e2, s4) => Some (mkNumber sgn m' (e1 + e2), s4)
          end
      end
  end.

(** Canonical array-index keys are enumerated first, in ascending order. *)
Definition array_index (k : jsstring) : option Z :=
  match k with
  | [] => None
  | c :: r =>
      let '(m, n, rest) := digits_acc 0 0 k in
      match rest with
      | [] => if ((c =? ch "0") && negb (n =? 1)) || (4294967294 <? m)
              then None else Some m
      | _ => None
      end
  end.

Definition index_after (i : Z) (k : jsstring) : bool :=
  match array_index k with
  | Some j => i <? j
  | None => true
  end.

Fixpoint insert_index (i : Z) (k : jsstring) (v : value)
    (props : list (jsstring * value)) : list (jsstring * value) :=
  match props with
  | [] => [(k, v)]
  | p :: rest =>
      if index_after i (fst p) then (k, v) :: props
      else p :: insert_index i k v rest
  end.

Fixpoint replace_prop (k : jsstring) (v : value)
    (props : list (jsstring * value)) : option (list (jsstring * value)) :=
  match props with
  | [] => None
  | p :: rest =>
      if jsstring_eqb (fst p) k then Some ((k, v) :: rest)
      else match replace_prop k v rest with
           | Some rest' => Some (p :: rest')
           | None => None
           end
  end.

(** CreateDataProperty on the object under construction: a repeated key
    overwrites in place, a new one takes its place in the key order. *)
Definition set_prop (k : jsstring) (v : value)
    (props : list (jsstring * value)) : list (jsstring * value) :=
  match replace_prop k v props with
  | Some props' => props'
  | None =>
      match array_index k with
      | Some i => insert_index i k v props
      | None => props ++ [(k, v)]
      end
  end.

Definition starts_with (p s : jsstring) : option jsstring :=
  if jsstring_eqb (firstn (length p) s) p then Some (skipn (length p) s) else None.

(** Recursive descent over the ECMA-404 grammar.  [fuel] bounds the
    nesting of calls; [parse] below supplies more than any text needs.
    [parse_value] expects no leading white space; [parse_elements] and
    [parse_members] are entered after the opening bracket and the check for
    an empty body. *)
Fixpoint parse_value (fuel : nat) (s : jsstring) {struct fuel}
    : option (value * jsstring) :=
  match fuel with
  | O => None
  | S fuel' =>
      match s with
      | [] => None
      | c :: r =>
          if c =? ch "034" then
            match parse_string r with
            | Some (t, rest) => Some (VStr t, rest)
            | None => None
            end
          else if c =? ch "[" then
            match skip_ws r with
            | d :: r' =>
                if d =? ch "]" then Some (VArr [], r')
                else match parse_elements fuel' (d :: r') with
                     | Some (l, rest) => Some (VArr l, rest)
                     | None => None
                     end
            | [] => None
            end
          else if c =? ch "{" then
            match skip_ws r with
            | d :: r' =>
                if d =? ch "}" then Some (VObj [], r')
                else match parse_members fuel' [] (d :: r') with
                     | Some (ps, rest) => Some (VObj ps, rest)
                     | None => None
                     end
            | [] => None
            end
          else if c =? ch "t" then
            match starts_with (str "true") s with
            | Some rest => Some (VBool true, rest)
            | None => None
            end
          else if c =? ch "f" then
            match starts_with (str "false") s with
            | Some rest => Some (VBool false, rest)
            | None => None
            end
          else if c =? ch "n" then
            match starts_with (str "null") s with
            | Some rest => Some (VNull, rest)
            | None => None
            end
          else
            match parse_number s with
            | Some (n, rest) => Some (VNum n, rest)
            | None => None
            end
      end
  end

with parse_elements (fuel : nat) (s : jsstring) {struct fuel}
    : option (list value * jsstring) :=
  match fuel with
  | O => None
  | S fuel' =>
      match parse_value fuel' s with
      | None => None
      | Some (v, r) =>
          match skip_ws r with
          | c :: r' =>
              if c =? ch "," then
                match parse_elements fuel' (skip_ws r') with
                | Some (l, rest) => Some (v :: l, rest)
                | None => None
                end
              else if c =? ch "]" then Some ([v], r')
              else None
          | [] => None
          end
      end
  end

with parse_members (fuel : nat) (acc : list (jsstring * value)) (s : jsstring)
    {struct fuel} : option (list (jsstring * value) * jsstring) :=
  match fuel with
  | O => None
  | S fuel' =>
      match s with
      | [] => None
      | q :: r0 =>
          if negb (q =? ch "034") then None
          else
            match parse_string r0 with
            | None => None
            | Some (k, r1) =>
                match skip_ws r1 with
                | c :: r2 =>
                    if negb (c =? ch ":") then None
                    else
                      match parse_value fuel' (skip_ws r2) with
                      | None => None
                      | Some (v, r3) =>
                          let acc' := set_prop k v acc in
                          match skip_ws r3 with
                          | d :: r4 =>
                              if d =? ch "," then parse_members fuel' acc' (skip_ws r4)
                              else if d =? ch "}" then Some (acc', r4)
                              else None
                          | [] => None
                          end
                      end
                | [] => None
                end
            end
      end
  end.

Definition parse (text : jsstring) : result value :=
  match parse_value (2 * length text + 2) (skip_ws text) with
  | Some (v, rest) =>
      match skip_ws rest with
      | [] => Ok v
      | _ => Throw SyntaxError
      end
  | None => Throw SyntaxError
  end.

(** *** [JSON.stringify] *)

Definition hex_char (d : Z) : Z :=
  if d <? 10 then ch "0" + d else ch "a" + (d - 10).

Definition unicode_escape (c : Z) : jsstring :=
  [ch "\"; ch "u"; hex_char (c / 4096 mod 16); hex_char (c / 256 mod 16);
   hex_char (c / 16 mod 16); hex_char (c mod 16)].

Definition high_surrogate (c : Z) : bool := (55296 <=? c) && (c <=? 56319).
Definition low_surrogate (c : Z) : bool := (56320 <=? c) && (c <=? 57343).

Definition escape_unit (c : Z) : jsstring :=
  if c =? 8 then str "\b"
  else if c =? 9 then str "\t"
  else if c =? 10 then str "\n"
  else if c =? 12 then str "\f"
  else if c =? 13 then str "\r"
  else if c =? ch "034" then [ch "\"; ch "034"]
  else if c =? ch "\" then str "\\"
  else if (c <? 32) || high_surrogate c || low_surrogate c then unicode_escape c
  else [c].

(** QuoteJSONString without the enclosing quotes: a surrogate pair is kept,
    a lone surrogate is escaped. *)
Fixpoint quote_body (s : jsstring) : jsstring :=
  match s with
  | [] => []
  | c :: r =>
      if high_surrogate c then
        match r with
        | d :: r' =>
            if low_surrogate d then c :: d :: quote_body r'
            else unicode_escape c ++ quote_body r
        | [] => unicode_escape c
        end
      else escape_unit c ++ quote_body r
  end.

Definition quote (s : jsstring) : jsstring := ch "034" :: quote_body s ++ [ch "034"].

Fixpoint join_comma (l : list jsstring) : jsstring :=
  match l with
  | [] => []
  | [x] => x
  | x :: rest => x ++ ch "," :: join_comma rest
  end.

Section Stringify.

(** The text of a Number (the shortest decimal that reads back as the same
    double) is left to the host. *)
Variable numberToString : number -> jsstring.

(** SerializeJSONProperty with no replacer and no indentation; [None]
    stands for [undefined]. *)
Fixpoint serialize (v : value) : option jsstring :=
  match v with
  | VUndefined => None
  | VNull => Some (str "null")
  | VBool true => Some (str "true")
  | VBool false => Some (str "false")
  | VNum n => Some (numberToString n)
  | VStr s => Some (quote s)
  | VArr elems =>
      Some (ch "[" ::
            join_comma (map (fun e => match serialize e with
                                      | Some t => t
                                      | None => str "null"
                                      end) elems) ++ [ch "]"])
  | VObj props =>
      Some (ch "{" ::
            join_comma (flat_map (fun p => match serialize (snd p) with
                                           | Some t => [quote (fst p) ++ ch ":" :: t]
                                           | None => []
                                           end) props) ++ [ch "}"])
  end.

End Stringify.

End JSON.

(** ** The host environment *)

(** What the standards leave to the engine, or define through IEEE-754
    rounding, is supplied by the host. *)
Record Host : Type := mkHost {
  (** [getTimezoneOffset()] of a date, in minutes, by its time value *)
  timezoneOffset : Z -> Z;
  (** [Date.parse] on a string other than a date-time of the [toISOString]
      format with every field in its calendar range *)
  parseOther : jsstring -> option Z;
  (** the time value of [new Date(v)] for a number that is not an integer *)
  dateOfOther : value -> option Z;
  (** the JSON text of a Number: Number::toString, [null] when it is not
      finite *)
  numberToString : number -> jsstring;
  (** UTF-8 decoding of a byte sequence that is not all ASCII *)
  utf8Decode : list Z -> jsstring
}.

(** ** ToString and ToPrimitive of a value [JSON.parse] built *)

Module Conversion.

(** The decimal of a number literal is at least [2^1024 - 2^970], the
    least real whose nearest double is an infinity. *)
Definition number_is_infinite (n : number) : bool :=
  if 0 <=? exponent n
  then (2 ^ 1024 - 2 ^ 970) <=? mantissa n * 10 ^ exponent n
  else (2 ^ 1024 - 2 ^ 970) * 10 ^ (- exponent n) <=? mantissa n.

(** Number::toString: the host's text of a finite Number. *)
Definition number_string (host : Host) (n : number) : jsstring :=
  if number_is_infinite n
  then (if negative n then str "-Infinity" else str "Infinity")
  else numberToString host n.

Definition has_own (k : jsstring) (props : list (jsstring * value)) : bool :=
  existsb (fun p => jsstring_eqb (fst p) k) props.

(** ToString.  An object built by [JSON.parse] has [Object.prototype] for
    its prototype and no function among its own properties: its
    [toString] is the inherited one, which gives [[object Object]], unless
    an own property of that name hides it, and then no method is left to
    call and a TypeError is thrown ([valueOf], own or inherited, gives no
    primitive).  An array is joined by [Array.prototype.join]: its
    elements in order, [null] as the empty string, with commas between. *)
Fixpoint to_string (host : Host) (v : value) : result jsstring :=
  match v with
  | VUndefined => Ok (str "undefined")
  | VNull => Ok (str "null")
  | VBool true => Ok (str "true")
  | VBool false => Ok (str "false")
  | VNum n => Ok (number_string host n)
  | VStr s => Ok s
  | VArr elems =>
      (fix join (l : list value) : result jsstring :=
         match l with
         | [] => Ok []
         | e :: rest =>
             s <- match e with
                  | VUndefined | VNull => Ok []
                  | _ => to_string host e
                  end ;;
             match rest with
             | [] => Ok s
             | _ :: _ => r <- join rest ;; Ok (s ++ ch "," :: r)
             end
         end) elems
  | VObj props =>
      if has_own (str "toString") props then Throw TypeError
      else Ok (str "[object Object]")
  end.

(** ToPrimitive with no hint.  On an object or an array [valueOf] is tried
    first and gives the object itself, so that the primitive is the string
    of [toString]; any other value is primitive. *)
Definition to_primitive (host : Host) (v : value) : result value :=
  match v with
  | VArr _ | VObj _ => s <- to_string host v ;; Ok (VStr s)
  | _ => Ok v
  end.

(** No [toString] can be called on the value: it is an object with an own
    property of that name, or an array that holds such a value. *)
Fixpoint unconvertible (v : value) : bool :=
  match v with
  | VObj props => has_own (str "toString") props
  | VArr elems => existsb unconvertible elems
  | _ => false
  end.

End Conversion.

Module Date.

(** *** Time values (ECMA-262, 21.4.1) *)

(** A date holds a time value in milliseconds since the epoch, or NaN
    ([None]), the Invalid Date. *)
Definition t : Type := option Z.

Definition msPerDay : Z := 86400000.
Definition maxTime : Z := 8640000000000000.

Definition TimeClip (time : Z) : t :=
  if Z.abs time <=? maxTime then Some time else None.

Definition Day (tv : Z) : Z := tv / msPerDay.
Definition TimeWithinDay (tv : Z) : Z := tv mod msPerDay.

Definition DayFromYear (y : Z) : Z :=
  365 * (y - 1970) + (y - 1969) / 4 - (y - 1901) / 100 + (y - 1601) / 400.

Definition leap (y : Z) : bool :=
  (y mod 4 =? 0) && (negb (y mod 100 =? 0) || (y mod 400 =? 0)).

Definition DaysInYear (y : Z) : Z := if leap y then 366 else 365.

(** The largest year whose first day is not after [d]: an estimate from the
    mean year length, off by one at most, then corrected. *)
Definition YearFromDay (d : Z) : Z :=
  let y := 1970 + (400 * d) / 146097 in
  if d <? DayFromYear y then y - 1
  else if DayFromYear (y + 1) <=? d then y + 1
  else y.

Definition YearFromTime (tv : Z) : Z := YearFromDay (Day tv).
Definition InLeapYear (tv : Z) : bool := leap (YearFromTime tv).
Definition DayWithinYear (tv : Z) : Z := Day tv - DayFromYear (YearFromTime tv).

(** The day of the year on which month [m] (0 to 11) starts. *)
Definition month_start (l : bool) (m : Z) : Z :=
  let k := if l then 1 else 0 in
  if m =? 0 then 0
  else if m =? 1 then 31
  else if m =? 2 then 59 + k
  else if m =? 3 then 90 + k
  else if m =? 4 then 120 + k
  else if m =? 5 then 151 + k
  else if m =? 6 then 181 + k
  else if m =? 7 then 212 + k
  else if m =? 8 then 243 + k
  else if m =? 9 then 273 + k
  else if m =? 10 then 304 + k
  else if m =? 11 then 334 + k
  else 365 + k.

Definition MonthFromDay (l : bool) (diy : Z) : Z :=
  let k := if l then 1 else 0 in
  if diy <? 31 then 0
  else if diy <? 59 + k then 1
  else if diy <? 90 + k then 2
  else if diy <? 120 + k then 3
  else if diy <? 151 + k then 4
  else if diy <? 181 + k then 5
  else if diy <? 212 + k then 6
  else if diy <? 243 + k then 7
  else if diy <? 273 + k then 8
  else if diy <? 304 + k then 9
  else if diy <? 334 + k then 10
  else 11.

Definition MonthFromTime (tv : Z) : Z :=
  MonthFromDay (InLeapYear tv) (DayWithinYear tv).

Definition DateFromTime (tv : Z) : Z :=
  DayWithinYear tv - month_start (InLeapYear tv) (MonthFromTime tv) + 1.

Definition HourFromTime (tv : Z) : Z := (tv / 3600000) mod 24.
Definition MinFromTime (tv : Z) : Z := (tv / 60000) mod 60.
Definition SecFromTime (tv : Z) : Z := (tv / 1000) mod 60.
Definition msFromTime (tv : Z) : Z := tv mod 1000.

Definition days_in_month (y m : Z) : Z :=
  month_start (leap y) (m + 1) - month_start (leap y) m.

(** MakeDay and MakeTime for a month in 0..11 *)
Definition MakeDay (y m d : Z) : Z :=
  DayFromYear y + month_start (leap y) m + d - 1.

Definition MakeTime (h mi s ms : Z) : Z :=
  h * 3600000 + mi * 60000 + s * 1000 + ms.

Definition MakeDate (day time : Z) : Z := day * msPerDay + time.

(** LocalTime(t), by which the host prints a date in its own zone;
    [getTimezoneOffset()] is [(t - LocalTime(t)) / 60000]. *)
Definition LocalTime (offsetMinutes : Z -> Z) (tv : Z) : Z :=
  tv - offsetMinutes tv * 60000.

(** *** [Date.prototype.toISOString] *)

Definition dig (n : Z) : Z := ch "0" + n mod 10.

Definition pad2 (n : Z) : jsstring := [dig (n / 10); dig n].
Definition pad3 (n : Z) : jsstring := [dig (n / 100); dig (n / 10); dig n].
Definition pad4 (n : Z) : jsstring :=
  [dig (n / 1000); dig (n / 100); dig (n / 10); dig n].
Definition pad6 (n : Z) : jsstring :=
  [dig (n / 100000); dig (n / 10000); dig (n / 1000); dig (n / 100);
   dig (n / 10); dig n].

(** Years 0 to 9999 take four digits, the others a sign and six. *)
Definition year_string (y : Z) : jsstring :=
  if (0 <=? y) && (y <=? 9999) then pad4 y
  else (if y <? 0 then ch "-" else ch "+") :: pad6 (Z.abs y).

Definition iso_string (tv : Z) : jsstring :=
  year_string (YearFromTime tv) ++ ch "-" :: pad2 (MonthFromTime tv + 1)
    ++ ch "-" :: pad2 (DateFromTime tv)
    ++ ch "T" :: pad2 (HourFromTime tv)
    ++ ch ":" :: pad2 (MinFromTime tv)
    ++ ch ":" :: pad2 (SecFromTime tv)
    ++ ch "." :: pad3 (msFromTime tv) ++ [ch "Z"].

Definition toISOString (d : t) : result jsstring :=
  match d with
  | Some tv => Ok (iso_string tv)
  | None => Throw RangeError
  end.

(** *** [Date.parse] and [new Date(value)] *)

Definition num2 (a b : Z) : option Z :=
  match JSON.digit a, JSON.digit b with
  | Some x, Some y => Some (x * 10 + y)
  | _, _ => None
  end.

Definition num3 (a b c : Z) : option Z :=
  match num2 a b, JSON.digit c with
  | Some x, Some y => Some (x * 10 + y)
  | _, _ => None
  end.

Definition num4 (a b c d : Z) : option Z :=
  match num2 a b, num2 c d with
  | Some x, Some y => Some (x * 100 + y)
  | _, _ => None
  end.

Definition num6 (a b c d e f : Z) : option Z :=
  match num3 a b c, num3 d e f with
  | Some x, Some y => Some (x * 1000 + y)
  | _, _ => None
  end.

(** The year of a date-time string and what follows it: four digits, or a
    sign and six digits (the expanded years; [-000000] is not one). *)
Definition parse_year (s : jsstring) : option (Z * jsstring) :=
  match s with
  | c :: r =>
      if (c =? ch "+") || (c =? ch "-") then
        match r with
        | a :: b :: c' :: d :: e :: f :: rest =>
            match num6 a b c' d e f with
            | Some y =>
                if c =? ch "+" then Some (y, rest)
                else if y =? 0 then None else Some (- y, rest)
            | None => None
            end
        | _ => None
        end
      else
        match s with
        | a :: b :: c' :: d :: rest =>
            match num4 a b c' d with
            | Some y => Some (y, rest)
            | None => None
            end
        | _ => None
        end
  | [] => None
  end.

(** The rest of the format, [-MM-DDTHH:mm:ss.sssZ], as month, day, hour,
    minute, second and millisecond. *)
Definition parse_rest (s : jsstring) : option (Z * Z * Z * Z * Z * Z) :=
  match s with
  | [p1; M1; M2; p2; D1; D2; p3; h1; h2; p4; m1; m2; p5; s1; s2; p6; f1; f2; f3; p7] =>
      if (p1 =? ch "-") && (p2 =? ch "-") && (p3 =? ch "T") && (p4 =? ch ":")
         && (p5 =? ch ":") && (p6 =? ch ".") && (p7 =? ch "Z") then
        match num2 M1 M2, num2 D1 D2, num2 h1 h2, num2 m1 m2, num2 s1 s2,
              num3 f1 f2 f3 with
        | Some mo, Some d, Some h, Some mi, Some sec, Some ms =>
            Some (mo, d, h, mi, sec, ms)
        | _, _, _, _, _, _ => None
        end
      else None
  | _ => None
  end.

(** The strings of the [toISOString] format with every field in its
    calendar range, on which all engines agree.  [None]: not such a
    string. *)
Definition parse_iso (s : jsstring) : option t :=
  match parse_year s with
  | None => None
  | Some (y, rest) =>
      match parse_rest rest with
      | None => None
      | Some (mo, d, h, mi, sec, ms) =>
          if (1 <=? mo) && (mo <=? 12) && (1 <=? d)
             && (d <=? days_in_month y (mo - 1))
             && (h <=? 23) && (mi <=? 59) && (sec <=? 59)
          then Some (TimeClip (MakeDate (MakeDay y (mo - 1) d) (MakeTime h mi sec ms)))
          else None
      end
  end.

Definition parse (host : Host) (s : jsstring) : t :=
  match parse_iso s with
  | Some d => d
  | None => parseOther host s
  end.

(** The integer a number literal denotes, when it denotes one. *)
Definition integer_of (n : number) : option Z :=
  let sign := if negative n then -1 else 1 in
  if 0 <=? exponent n then Some (sign * (mantissa n * 10 ^ exponent n))
  else if mantissa n mod 10 ^ (- exponent n) =? 0
       then Some (sign * (mantissa n / 10 ^ (- exponent n)))
       else None.

(** The time value of a primitive: a string is parsed, any other
    primitive is taken as a Number.  An integer within the range of time
    values is a double, so that no rounding takes place; beyond the range
    the date is invalid. *)
Definition of_primitive (host : Host) (v : value) : t :=
  match v with
  | VStr s => parse host s
  | VNum n =>
      match integer_of n with
      | Some x => TimeClip x
      | None => dateOfOther host v
      end
  | VBool b => Some (if b then 1 else 0)
  | VNull => Some 0
  | _ => None
  end.

(** [new Date(v)] with one argument: the date of [ToPrimitive(v)], which
    throws a TypeError when [v] is an object that cannot be converted. *)
Definition of_value (host : Host) (v : value) : result t :=
  p <- Conversion.to_primitive host v ;;
  Ok (of_primitive host p).

End Date.

(** ** [URLSearchParams]: the application/x-www-form-urlencoded parser

    The string parsed is [window.location.search], which is ASCII: its
    code units are the bytes the parser works on. *)

Module URLSearchParams.

Fixpoint split_on (sep : Z) (s : jsstring) : list jsstring :=
  match s with
  | [] => [[]]
  | c :: r =>
      if c =? sep then [] :: split_on sep r
      else match split_on sep r with
           | piece :: pieces => (c :: piece) :: pieces
           | [] => [[c]]
           end
  end.

(** Name and value of a sequence: split at its first [=]. *)
Fixpoint name_value (s : jsstring) : jsstring * jsstring :=
  match s with
  | [] => ([], [])
  | c :: r =>
      if c =? ch "=" then ([], r)
      else let '(n, v) := name_value r in (c :: n, v)
  end.

Definition plus_to_space (c : Z) : Z := if c =? ch "+" then 32 else c.

Fixpoint percent_decode (s : jsstring) : list Z :=
  match s with
  | [] => []
  | c :: r =>
      if c =? ch "%" then
        match r with
        | x :: y :: r' =>
            match JSON.hex_digit x, JSON.hex_digit y with
            | Some a, Some b => (a * 16 + b) :: percent_decode r'
            | _, _ => c :: percent_decode r
            end
        | _ => c :: percent_decode r
        end
      else c :: percent_decode r
  end.

Definition decode (host : Host) (s : jsstring) : jsstring :=
  let bytes := percent_decode (map plus_to_space s) in
  if forallb (fun b => (0 <=? b) && (b <? 128)) bytes then bytes
  else utf8Decode host bytes.

Definition parse (host : Host) (init : jsstring) : list (jsstring * jsstring) :=
  let input :=
    match init with
    | c :: r => if c =? ch "?" then r else init
    | [] => []
    end in
  map (fun piece => let '(n, v) := name_value piece in (decode host n, decode host v))
      (filter (fun piece => match piece with [] => false | _ => true end)
              (split_on (ch "&") input)).

(** [new URLSearchParams(init).get(name)]; [None] is [null]. *)
Definition get (host : Host) (init name : jsstring) : option jsstring :=
  match find (fun p => jsstring_eqb (fst p) name) (parse host init) with
  | Some p => Some (snd p)
  | None => None
  end.

End URLSearchParams.

(** ** Numbers that hold integers *)

(** The Numbers [parseInt] returns and the slider holds: NaN, a double
    whose value is an integer, or an infinity.  The sign of a zero is not
    kept: the component multiplies the Number, adds it to a time value,
    compares it with 0 and prints it, and none of these tells [-0] from
    [0]. *)
Inductive integral : Type :=
| NaN
| Finite (z : Z)
| Infinite (negative : bool).

(** The double nearest to an integer, ties to the even significand: exact
    below [2^53]; above, the integer is cut to 53 significant bits, and
    what reaches [2^1024] is an infinity. *)
Definition round_double (m : Z) : integral :=
  let a := Z.abs m in
  if a <? 2 ^ 53 then Finite m
  else
    let ulp := 2 ^ (Z.log2 a - 52) in
    let q := a / ulp in
    let r := a mod ulp in
    let q' := if (2 * r <? ulp) || ((2 * r =? ulp) && Z.even q) then q else q + 1 in
    if 2 ^ 1024 <=? q' * ulp then Infinite (m <? 0)
    else Finite (Z.sgn m * (q' * ulp)).

(** ** [parseInt] with no radix argument *)

Module ParseInt.

Definition white_space (c : Z) : bool :=
  ((9 <=? c) && (c <=? 13)) || (c =? 32) || (c =? 160) || (c =? 5760)
  || ((8192 <=? c) && (c <=? 8202)) || (c =? 8232) || (c =? 8233)
  || (c =? 8239) || (c =? 8287) || (c =? 12288) || (c =? 65279).

Fixpoint trim_start (s : jsstring) : jsstring :=
  match s with
  | c :: r => if white_space c then trim_start r else s
  | [] => []
  end.

Definition digit_in (radix c : Z) : option Z :=
  match JSON.hex_digit c with
  | Some d => if d <? radix then Some d else None
  | None => None
  end.

Fixpoint digits (radix acc n : Z) (s : jsstring) : Z * Z :=
  match s with
  | c :: r =>
      match digit_in radix c with
      | Some d => digits radix (acc * radix + d) (n + 1) r
      | None => (acc, n)
      end
  | [] => (acc, n)
  end.

(** The Number of the longest digit prefix, NaN when there is no digit:
    the double nearest to the integer the digits denote.  (The integer is
    taken exactly; the standard also lets an engine read the decimal digits
    after the twentieth as zeros.) *)
Definition parseInt (s : jsstring) : integral :=
  let s := trim_start s in
  let '(sign, s) :=
    match s with
    | c :: r => if c =? ch "-" then (-1, r) else if c =? ch "+" then (1, r) else (1, s)
    | [] => (1, s)
    end in
  let '(radix, s) :=
    match s with
    | z :: x :: r =>
        if (z =? ch "0") && ((x =? ch "x") || (x =? ch "X")) then (16, r) else (10, s)
    | _ => (10, s)
    end in
  let '(m, n) := digits radix 0 0 s in
  if n =? 0 then NaN else round_double (sign * m).

End ParseInt.

(** ** The component *)

Module TimeZoneConverter.

Record timezone : Type := mkTimezone { id : jsstring; name : jsstring; offset : Q }.

Definition timezones : list timezone :=
  [ mkTimezone (str "UTC") (str "Universal Time Coordinated") 0;
    mkTimezone (str "IST") (str "India Standard Time") (11 # 2);
    mkTimezone (str "EST") (str "Eastern Standard Time") (-5 # 1);
    mkTimezone (str "PST") (str "Pacific Standard Time") (-8 # 1) ].

(** What the cell [selectedTime] holds: a Date, or the [null] the date
    picker passes to [onChange] when its field is cleared. *)
Inductive selected : Type :=
| IsDate (d : Date.t)
| IsNull.

(** A method call on the cell, [selectedTime.getTime()] or
    [selectedTime.toISOString()], throws a TypeError on [null]. *)
Definition receiver (s : selected) : result Date.t :=
  match s with
  | IsDate d => Ok d
  | IsNull => Throw TypeError
  end.

(** The [useState] cells.  An element of [availableTimezones] is a catalog
    entry or [undefined] ([None]). *)
Record state : Type := mkState {
  selectedTime : selected;
  activeTimezones : list value;
  availableTimezones : list (option timezone);
  isDarkMode : bool;
  shareableLink : jsstring;
  isLoading : bool;
  error : jsstring;
  isCopied : bool;
  sliderValue : integral
}.

Definition setSelectedTime (d : selected) (st : state) : state :=
  mkState d (activeTimezones st) (availableTimezones st) (isDarkMode st)
          (shareableLink st) (isLoading st) (error st) (isCopied st) (sliderValue st).

Definition setActiveTimezones (l : list value) (st : state) : state :=
  mkState (selectedTime st) l (availableTimezones st) (isDarkMode st)
          (shareableLink st) (isLoading st) (error st) (isCopied st) (sliderValue st).

Definition setAvailableTimezones (l : list (option timezone)) (st : state) : state :=
  mkState (selectedTime st) (activeTimezones st) l (isDarkMode st)
          (shareableLink st) (isLoading st) (error st) (isCopied st) (sliderValue st).

Definition setIsDarkMode (b : bool) (st : state) : state :=
  mkState (selectedTime st) (activeTimezones st) (availableTimezones st) b
          (shareableLink st) (isLoading st) (error st) (isCopied st) (sliderValue st).

Definition setShareableLink (l : jsstring) (st : state) : state :=
  mkState (selectedTime st) (activeTimezones st) (availableTimezones st) (isDarkMode st)
          l (isLoading st) (error st) (isCopied st) (sliderValue st).

Definition setIsLoading (b : bool) (st : state) : state :=
  mkState (selectedTime st) (activeTimezones st) (availableTimezones st) (isDarkMode st)
          (shareableLink st) b (error st) (isCopied st) (sliderValue st).

Definition setError (e : jsstring) (st : state) : state :=
  mkState (selectedTime st) (activeTimezones st) (availableTimezones st) (isDarkMode st)
          (shareableLink st) (isLoading st) e (isCopied st) (sliderValue st).

Definition setSliderValue (v : integral) (st : state) : state :=
  mkState (selectedTime st) (activeTimezones st) (availableTimezones st) (isDarkMode st)
          (shareableLink st) (isLoading st) (error st) (isCopied st) v.

(** The state of the first render; [now] is the time value of
    [new Date()]. *)
Definition initial_state (now : Z) : state :=
  let active := [VStr (str "UTC"); VStr (str "IST")] in
  mkState (IsDate (Some now)) active
          (map Some (filter (fun tz => negb (includes active (id tz))) timezones))
          false [] true [] false (Finite 0).

(** What a handler leaves behind: the state with the updates it made, and
    the exception when one escaped it. *)
Inductive outcome : Type :=
| Done (st : state)
| Threw (e : exn) (st : state).

Definition state_of (o : outcome) : state :=
  match o with Done st | Threw _ st => st end.

(** *** The effect: reading the shared state from the URL *)

Definition invalid_state_format : exn := Error (str "Invalid state format").

Definition advisory : jsstring :=
  str "Failed to load shared configuration. Using default settings.".

(** The [try] block up to its first state update: the decoded instant and
    zone order, or the exception thrown.  [new Date(decodedState.time)] is
    evaluated before [setSelectedTime] is called, so that no cell is
    updated when it throws. *)
Definition decode (host : Host) (encodedState : jsstring)
    : result (Date.t * list value) :=
  text <- Base64.atob encodedState ;;
  decodedState <- JSON.parse text ;;
  time <- get_prop decodedState (str "time") ;;
  if negb (truthy time) then Throw invalid_state_format
  else
    zones <- get_prop decodedState (str "timezones") ;;
    match zones with
    | VArr l =>
        date <- Date.of_value host time ;;
        Ok (date, l)
    | _ => Throw invalid_state_format
    end.

(** The body of [useEffect]; [search] is [window.location.search]. *)
Definition useEffect_body (host : Host) (search : jsstring) (st : state) : state :=
  let st := setIsLoading true st in
  let st :=
    match URLSearchParams.get host search (str "state") with
    | Some (c :: r) =>
        match decode host (c :: r) with
        | Ok (time, zones) =>
            setAvailableTimezones
              (map Some (filter (fun tz => negb (includes zones (id tz))) timezones))
              (setActiveTimezones zones (setSelectedTime (IsDate time) st))
        | Throw _ => setError advisory st
        end
    | Some [] | None => st
    end in
  setIsLoading false st.

(** *** The handlers *)

(** [newTime] is what the date picker passes: a Date, or [null]. *)
Definition handleTimeChange (newTime : selected) (st : state) : outcome :=
  Done (setSliderValue (Finite 0) (setSelectedTime newTime st)).

(** [new Date(date.getTime() + value * 60000)].  With NaN or an infinity
    in the sum the date is invalid.  For a time value [t] and a finite
    [value], the product and the sum are exact doubles whenever the sum is
    within the range of time values, [t] being within it; when the sum is
    beyond the range, so is the double computed for it. *)
Definition date_of_sum (date : Date.t) (value : integral) : Date.t :=
  match date, value with
  | Some t, Finite v => Date.TimeClip (t + v * 60000)
  | _, _ => None
  end.

(** The slider value is set before [selectedTime.getTime()] is called. *)
Definition handleSliderChange (event_target_value : jsstring) (st : state) : outcome :=
  let value := ParseInt.parseInt event_target_value in
  let st1 := setSliderValue value st in
  match receiver (selectedTime st) with
  | Ok date => Done (setSelectedTime (IsDate (date_of_sum date value)) st1)
  | Throw e => Threw e st1
  end.

(** [arr.filter(tz => tz.id !== tzId)]: reading [id] throws on
    [undefined]. *)
Fixpoint filter_other (tzId : jsstring) (arr : list (option timezone))
    : result (list (option timezone)) :=
  match arr with
  | [] => Ok []
  | None :: _ => Throw TypeError
  | Some tz :: rest =>
      rest' <- filter_other tzId rest ;;
      Ok (if jsstring_eqb (id tz) tzId then rest' else Some tz :: rest')
  end.

Definition addTimezone (event_target_value : jsstring) (st : state) : outcome :=
  let tzId := event_target_value in
  match tzId with
  | [] => Done st
  | _ =>
      let st1 := setActiveTimezones (activeTimezones st ++ [VStr tzId]) st in
      match filter_other tzId (availableTimezones st) with
      | Ok l => Done (setAvailableTimezones l st1)
      | Throw e => Threw e st1
      end
  end.

Definition removeTimezone (tzId : jsstring) (st : state) : outcome :=
  let st1 :=
    setActiveTimezones
      (filter (fun v => negb (strict_eq_string v tzId)) (activeTimezones st)) st in
  Done (setAvailableTimezones
          (availableTimezones st ++ [find (fun tz => jsstring_eqb (id tz) tzId) timezones])
          st1).

(** [items.splice(start, 1)]: the array without the element at [start] and
    the element removed, [undefined] when there is none. *)
Definition splice_out (start : nat) (items : list value) : list value * value :=
  (firstn start items ++ skipn (S start) items, nth start items VUndefined).

(** [items.splice(start, 0, item)]; a [start] beyond the end appends. *)
Definition splice_in (start : nat) (item : value) (items : list value) : list value :=
  firstn start items ++ item :: skipn start items.

Definition move (source destination : nat) (items : list value) : list value :=
  let '(items, reorderedItem) := splice_out source items in
  splice_in destination reorderedItem items.

(** [result.destination] is [null] ([None]) for a drop outside the list. *)
Record drop_result : Type := mkDrop { source_index : nat; destination : option nat }.

Definition onDragEnd (result : drop_result) (st : state) : outcome :=
  match destination result with
  | None => Done st
  | Some d => Done (setActiveTimezones (move (source_index result) d (activeTimezones st)) st)
  end.

Definition reverseOrder (st : state) : outcome :=
  Done (setActiveTimezones (rev (activeTimezones st)) st).

Definition toggleDarkMode (st : state) : outcome :=
  Done (setIsDarkMode (negb (isDarkMode st)) st).

(** ToIntegerOrInfinity of a rational: truncation towards zero. *)
Definition truncate (q : Q) : Z := Z.quot (Qnum q) (Zpos (Qden q)).

(** [date] is a Date (the call on [null] is in [rows]).  The arithmetic is
    on rationals: with a catalog offset every value is an integer below
    2^53 in magnitude, hence a double. *)
Definition getTimeInTimezone (host : Host) (date : Date.t) (tzOffset : Q) : Date.t :=
  match date with
  | None => None
  | Some tv =>
      let utc := tv + timezoneOffset host tv * 60000 in
      Date.TimeClip (truncate (inject_Z utc + 3600000 * tzOffset))
  end.

(** The token of the link: [btoa(JSON.stringify({time, timezones}))].
    ([copyToClipboard], a promise and a timer around [isCopied], has no
    part in what follows and is left out.) *)
Definition encode (host : Host) (st : state) : result jsstring :=
  date <- receiver (selectedTime st) ;;
  time <- Date.toISOString date ;;
  let state := VObj [(str "time", VStr time);
                     (str "timezones", VArr (activeTimezones st))] in
  match JSON.serialize (numberToString host) state with
  | Some text => Base64.btoa text
  | None => Throw TypeError
  end.

Definition generateShareableLink (host : Host) (origin pathname : jsstring)
    (st : state) : outcome :=
  match encode host st with
  | Ok encodedState =>
      Done (setShareableLink (origin ++ pathname ++ str "?state=" ++ encodedState) st)
  | Throw e => Threw e st
  end.

(** The rows of the list as the render computes them, [date] being the
    cell [selectedTime]: the catalog entry of each active id and its time.
    Reading [offset] of an id the catalog does not have throws, and so
    does [date.getTime()] in [getTimeInTimezone] when the cell holds
    [null]. *)
Fixpoint rows (host : Host) (date : selected) (active : list value)
    : result (list (timezone * Date.t)) :=
  match active with
  | [] => Ok []
  | tzId :: rest =>
      match find (fun tz => strict_eq_string tzId (id tz)) timezones with
      | None => Throw TypeError
      | Some tz =>
          d <- receiver date ;;
          rest' <- rows host date rest ;;
          Ok ((tz, getTimeInTimezone host d (offset tz)) :: rest')
      end
  end.

End TimeZoneConverter.

(** ** The transitions of the zone list and their invariant *)

Module Transitions.
Import TimeZoneConverter.

Inductive event : Type :=
| Add (tzId : jsstring)
| Remove (tzId : jsstring)
| Drag (result : drop_result)
| Reverse.

Definition handle (e : event) (st : state) : outcome :=
  match e with
  | Add tzId => addTimezone tzId st
  | Remove tzId => removeTimezone tzId st
  | Drag result => onDragEnd result st
  | Reverse => reverseOrder st
  end.

Definition catalog_id (s : jsstring) : Prop :=
  exists tz, In tz timezones /\ id tz = s.

(** The preconditions of the transitions: the id added is a catalog id
    that is not active, the id removed is active, the indices of a move
    are positions of the list. *)
Definition precondition (e : event) (st : state) : Prop :=
  match e with
  | Add tzId => catalog_id tzId /\ ~ In (VStr tzId) (activeTimezones st)
  | Remove tzId => In (VStr tzId) (activeTimezones st)
  | Drag result =>
      (source_index result < length (activeTimezones st))%nat
      /\ match destination result with
         | Some d => (d < length (activeTimezones st))%nat
         | None => True
         end
  | Reverse => True
  end.

Definition inactive (active : list value) (tz : timezone) : bool :=
  negb (includes active (id tz)).

(** The catalog entries whose id is not active, in catalog order. *)
Definition complement (active : list value) : list (option timezone) :=
  map Some (filter (inactive active) timezones).

Record invariant (st : state) : Prop := mkInvariant {
  active_nodup : NoDup (activeTimezones st);
  active_in_catalog :
    forall v, In v (activeTimezones st) -> exists tz, In tz timezones /\ v = VStr (id tz);
  available_complement :
    Permutation (availableTimezones st) (complement (activeTimezones st))
}.

Inductive reachable (now : Z) : state -> Prop :=
| reach_initial : reachable now (initial_state now)
| reach_step (st st' : state) (e : event) :
    reachable now st -> precondition e st -> handle e st = Done st' ->
    reachable now st'.

End Transitions.

(** ** The hours of a zone; hosts and inputs of the examples *)

Module Fixtures.
Import TimeZoneConverter.

(** The zone's hours in milliseconds. *)
Definition hours_ms (tzOffset : Q) : Z := truncate (3600000 * tzOffset).

(** A host at a fixed offset, whose [Date.parse] knows no other format. *)
Definition host_at (minutes : Z) : Host :=
  mkHost (fun _ => minutes) (fun _ => None) (fun _ => None) (fun _ => []) (fun b => b).

Definition IST : timezone := mkTimezone (str "IST") (str "India Standard Time") (11 # 2).

Definition plain_host : Host := host_at 0.

(** A JSON text, written with ['] for the quotation mark. *)
Definition json_text (s : string) : jsstring :=
  map (fun c => if c =? ch "'" then ch "034" else c) (str s).
Arguments json_text s%_string.

Definition foreign_token : jsstring :=
  Base64.encode (json_text "{'time':'soon','timezones':['MARS','MARS',7]}").

End Fixtures.

(** ** Notions of the proofs about the codec *)

Module Base64Parts.
Import Base64.

(** The output of [encode] in two parts, and the sextets it stands for. *)
Fixpoint body (bytes : list Z) : jsstring :=
  match bytes with
  | a :: b :: c :: rest =>
      alphabet (sextet0 a) :: alphabet (sextet1 a b)
        :: alphabet (sextet2 b c) :: alphabet (sextet3 c) :: body rest
  | [a; b] => [alphabet (sextet0 a); alphabet (sextet1 a b); alphabet (sextet2 b 0)]
  | [a] => [alphabet (sextet0 a); alphabet (sextet1 a 0)]
  | [] => []
  end.

Fixpoint padding (bytes : list Z) : jsstring :=
  match bytes with
  | _ :: _ :: _ :: rest => padding rest
  | [_; _] => [ch "="]
  | [_] => [ch "="; ch "="]
  | [] => []
  end.

Fixpoint sextets (bytes : list Z) : list Z :=
  match bytes with
  | a :: b :: c :: rest =>
      sextet0 a :: sextet1 a b :: sextet2 b c :: sextet3 c :: sextets rest
  | [a; b] => [sextet0 a; sextet1 a b; sextet2 b 0]
  | [a] => [sextet0 a; sextet1 a 0]
  | [] => []
  end.

(** The integers below [n], for checks by enumeration. *)
Definition range (n : nat) : list Z := map Z.of_nat (seq 0 n).

Definition byte (x : Z) : Prop := 0 <= x < 256.

Definition sextet (i : Z) : Prop := 0 <= i < 64.

End Base64Parts.

Module ShareText.

(** The characters of the text the component serializes for a state with
    catalog ids: printable ASCII other than the quote, the backslash,
    [>], [?], [~]. *)
Definition simple (c : Z) : bool :=
  (32 <=? c) && (c <? 126) && negb (c =? ch "034") && negb (c =? ch "\")
  && negb (c =? ch ">") && negb (c =? ch "?").

(** The text of the object [{time, timezones}] for a time string that
    needs no escape and a list of strings. *)
Definition state_text (time : jsstring) (ids : list jsstring) : jsstring :=
  ch "{" :: ch "034" :: str "time" ++ ch "034" :: ch ":" :: ch "034" :: time
    ++ ch "034" :: ch "," :: ch "034" :: str "timezones" ++ ch "034" :: ch ":"
    :: ch "[" :: JSON.join_comma (map JSON.quote ids) ++ [ch "]"; ch "}"].

Definition simple_string (s : jsstring) : Prop := Forall (fun c => simple c = true) s.

End ShareText.

Module UrlSafety.

Definition alnum (c : Z) : bool :=
  ((ch "A" <=? c) && (c <=? ch "Z")) || ((ch "a" <=? c) && (c <=? ch "z"))
  || ((ch "0" <=? c) && (c <=? ch "9")).

Definition one_of (s : jsstring) (c : Z) : bool := existsb (Z.eqb c) s.

(** RFC 3986: what a query component may hold without percent-encoding. *)
Definition unreserved (c : Z) : bool := alnum c || one_of (str "-._~") c.
Definition sub_delim (c : Z) : bool := one_of (str "!$&'()*+,;=") c.
Definition query_char (c : Z) : bool :=
  unreserved c || sub_delim c || one_of (str ":@/?") c.

(** The characters the form-urlencoded reader does not return as they
    are: the separator of pairs, the space written [+], the escape. *)
Definition form_special (c : Z) : bool := one_of (str "&+%") c.

(** A character that a query value carries as it is, from the link to
    [URLSearchParams.get]. *)
Definition url_safe (c : Z) : bool := query_char c && negb (form_special c).

(** A character of a token: a letter, a digit or the padding. *)
Definition token_char (c : Z) : bool := alnum c || (c =? ch "=").

(** ASCII bytes whose low six bits are not 62 or 63. *)
Definition clean (c : Z) : bool := (0 <=? c) && (c <? 128) && (c mod 64 <? 62).

End UrlSafety.

(** ** The rest of the component: what the render offers, a session of
       actions, the numerals of the slider *)

Module Rendering.
Import TimeZoneConverter Transitions.

(** A value that is the id of a catalog entry. *)
Definition catalog_value (v : value) : Prop :=
  exists tz, In tz timezones /\ v = VStr (id tz).

(** The values of the options the select renders from the available
    entries; reading [id] of [undefined] throws. *)
Fixpoint option_values (available : list (option timezone)) : result (list jsstring) :=
  match available with
  | [] => Ok []
  | None :: _ => Throw TypeError
  | Some tz :: rest =>
      rest' <- option_values rest ;;
      Ok (id tz :: rest')
  end.

(** The select: the placeholder option, whose value is empty, then the
    available entries. *)
Definition select_values (st : state) : result (list jsstring) :=
  values <- option_values (availableTimezones st) ;;
  Ok ([] :: values).

(** The events the rendered page can raise: a value of the select, the
    remove button of a row, a drop reported by the drag-and-drop library
    for a row of the list (outside the list its destination is [null]),
    the reverse button. *)
Definition offered (st : state) (e : event) : Prop :=
  match e with
  | Add value => exists values, select_values st = Ok values /\ In value values
  | Remove tzId => In (VStr tzId) (activeTimezones st)
  | Drag result =>
      (source_index result < length (activeTimezones st))%nat
      /\ match destination result with
         | Some d => (d < length (activeTimezones st))%nat
         | None => True
         end
  | Reverse => True
  end.

(** The states of a page that was rendered and used: from the initial
    state, an event is raised only by a page that rendered. *)
Inductive used (host : Host) (now : Z) : state -> Prop :=
| used_initial : used host now (initial_state now)
| used_step (st st' : state) (e : event) (page : list (timezone * Date.t))
    (values : list jsstring) :
    used host now st ->
    rows host (selectedTime st) (activeTimezones st) = Ok page ->
    select_values st = Ok values ->
    offered st e ->
    state_of (handle e st) = st' ->
    used host now st'.

End Rendering.

Module ListOrder.

(** The first list is the second with some elements left out, the others
    in their order. *)
Inductive subsequence : list value -> list value -> Prop :=
| sub_nil : subsequence [] []
| sub_keep (x : value) (l l' : list value) :
    subsequence l l' -> subsequence (x :: l) (x :: l')
| sub_drop (x : value) (l l' : list value) :
    subsequence l l' -> subsequence l (x :: l').

End ListOrder.

Module Session.
Import TimeZoneConverter.

(** Every handler of the component as an action of its user. *)
Inductive action : Type :=
| PickTime (newTime : selected)
| Slide (value : jsstring)
| Select (value : jsstring)
| RemoveRow (tzId : jsstring)
| DragEnd (result : drop_result)
| ReverseOrder
| ToggleDarkMode
| GetLink.

(** The page of a session: the host, the parts of [window.location] the
    component reads. *)
Record page : Type := mkPage {
  host : Host;
  origin : jsstring;
  pathname : jsstring;
  search : jsstring
}.

(** The effect depends on [isDarkMode]: it runs after the first render and
    again after every render that follows a toggle. *)
Definition mount (p : page) (now : Z) : state :=
  useEffect_body (host p) (search p) (initial_state now).

Definition toggle_and_rerun (p : page) (st : state) : state :=
  useEffect_body (host p) (search p) (state_of (toggleDarkMode st)).

Definition perform (p : page) (a : action) (st : state) : state :=
  match a with
  | PickTime newTime => state_of (handleTimeChange newTime st)
  | Slide value => state_of (handleSliderChange value st)
  | Select value => state_of (addTimezone value st)
  | RemoveRow tzId => state_of (removeTimezone tzId st)
  | DragEnd result => state_of (onDragEnd result st)
  | ReverseOrder => state_of (reverseOrder st)
  | ToggleDarkMode => toggle_and_rerun p st
  | GetLink => state_of (generateShareableLink (host p) (origin p) (pathname p) st)
  end.

Definition session (p : page) (now : Z) (actions : list action) : state :=
  fold_left (fun st a => perform p a st) actions (mount p now).

End Session.

Module Slider.

(** The decimal numeral of a natural number below [10 ^ fuel]. *)
Fixpoint digits_of (fuel : nat) (n : Z) : jsstring :=
  match fuel with
  | O => []
  | S fuel' =>
      if n <? 10 then [Date.dig n] else digits_of fuel' (n / 10) ++ [Date.dig n]
  end.

(** The value of the range input at an integer position: its numeral,
    with the sign of a negative one. *)
Definition numeral (v : Z) : jsstring :=
  if v <? 0 then ch "-" :: digits_of (S (Z.to_nat (Z.log2 (- v)))) (- v)
  else digits_of (S (Z.to_nat (Z.log2 v))) v.

(** The bounds of the input, [min] and [max]. *)
Definition slider_min : Z := -1440.
Definition slider_max : Z := 1440.



End Slider.

Module Latin1.

(** A string [btoa] accepts: code units below 256. *)
Definition latin1_string (s : jsstring) : Prop := Forall Base64Parts.byte s.

Definition all_bytes (s : jsstring) : bool :=
  forallb (fun c => (0 <=? c) && (c <? 256)) s.

End Latin1.

(** * Properties *)

(** ** Strings *)

Lemma jsstring_eqb_refl (s : jsstring) : jsstring_eqb s s = true.
Proof.
  induction s as [|c s IH]; simpl; [reflexivity|].
  now rewrite Z.eqb_refl, IH.
Qed.

Lemma jsstring_eqb_eq (a b : jsstring) : jsstring_eqb a b = true <-> a = b.
Proof.
  split; [|intros ->; apply jsstring_eqb_refl].
  revert b; induction a as [|x a IH]; intros [|y b]; simpl; try discriminate; auto.
  intros H; apply andb_true_iff in H as [Hx Hr].
  apply Z.eqb_eq in Hx; subst; f_equal; auto.
Qed.

Lemma jsstring_eqb_neq (a b : jsstring) : jsstring_eqb a b = false <-> a <> b.
Proof.
  rewrite <- jsstring_eqb_eq. destruct (jsstring_eqb a b); split; congruence.
Qed.

Lemma jsstring_eqb_sym (a b : jsstring) : jsstring_eqb a b = jsstring_eqb b a.
Proof.
  destruct (jsstring_eqb a b) eqn:E; symmetry.
  - apply jsstring_eqb_eq in E; subst; apply jsstring_eqb_refl.
  - apply jsstring_eqb_neq; apply jsstring_eqb_neq in E; congruence.
Qed.

Lemma strict_eq_string_true (v : value) (s : jsstring) :
  strict_eq_string v s = true <-> v = VStr s.
Proof.
  destruct v; simpl; try (split; [discriminate | intros H; discriminate H]).
  rewrite jsstring_eqb_eq; split; congruence.
Qed.

Lemma includes_true (arr : list value) (s : jsstring) :
  includes arr s = true <-> In (VStr s) arr.
Proof.
  unfold includes; rewrite existsb_exists; split.
  - intros (v & Hin & Hv). apply strict_eq_string_true in Hv; now subst.
  - intros Hin; exists (VStr s); split; [assumption|].
    now apply strict_eq_string_true.
Qed.

Lemma includes_false (arr : list value) (s : jsstring) :
  includes arr s = false <-> ~ In (VStr s) arr.
Proof.
  rewrite <- includes_true. destruct (includes arr s); split; congruence.
Qed.

Module ZoneList.
Import TimeZoneConverter.

(** ** Reordering the active list *)

Lemma splice_out_length (l : list value) (i : nat) :
  (i < length l)%nat -> S (length (fst (splice_out i l))) = length l.
Proof.
  intros Hi; unfold splice_out; cbn [fst].
  rewrite length_app, length_firstn, length_skipn. lia.
Qed.

Lemma splice_out_perm (l : list value) (i : nat) :
  (i < length l)%nat ->
  Permutation l (snd (splice_out i l) :: fst (splice_out i l)).
Proof.
  intros Hi; unfold splice_out; cbn [fst snd].
  rewrite <- (firstn_skipn i l) at 1.
  assert (Hs : skipn i l = nth i l VUndefined :: skipn (S i) l).
  { clear - Hi. revert i Hi; induction l as [|x l IH]; intros [|i] Hi; simpl in *;
      try lia; [reflexivity|]. apply IH; lia. }
  rewrite Hs. symmetry; apply Permutation_middle.
Qed.

Lemma splice_in_perm (l : list value) (i : nat) (x : value) :
  Permutation (x :: l) (splice_in i x l).
Proof.
  unfold splice_in. rewrite <- (firstn_skipn i l) at 1. apply Permutation_middle.
Qed.

Lemma splice_in_nth (l : list value) (i : nat) (x : value) :
  (i <= length l)%nat -> nth_error (splice_in i x l) i = Some x.
Proof.
  intros Hi; unfold splice_in.
  rewrite nth_error_app2; rewrite length_firstn; [|lia].
  replace (i - Nat.min i (length l))%nat with O by lia. reflexivity.
Qed.

Lemma splice_in_out (l : list value) (i : nat) (x : value) :
  (i <= length l)%nat -> fst (splice_out i (splice_in i x l)) = l.
Proof.
  intros Hi; unfold splice_out, splice_in; cbn [fst].
  assert (Hl : length (firstn i l) = i) by (rewrite length_firstn; lia).
  rewrite firstn_app, Hl, Nat.sub_diag, firstn_O, app_nil_r.
  rewrite <- Hl at 1. rewrite firstn_all.
  replace (S i) with (length (firstn i l) + 1)%nat by lia.
  rewrite skipn_app, Hl.
  replace (i + 1 - i)%nat with 1%nat by lia.
  rewrite (skipn_all2 (firstn i l)) by lia. simpl.
  apply firstn_skipn.
Qed.

Lemma move_splice (l : list value) (fromIndex toIndex : nat) :
  move fromIndex toIndex l
  = splice_in toIndex (snd (splice_out fromIndex l)) (fst (splice_out fromIndex l)).
Proof. unfold move. now destruct (splice_out fromIndex l). Qed.

Lemma move_perm (l : list value) (fromIndex toIndex : nat) :
  (fromIndex < length l)%nat -> Permutation l (move fromIndex toIndex l).
Proof.
  intros Hf. rewrite move_splice.
  etransitivity; [apply splice_out_perm; exact Hf | apply splice_in_perm].
Qed.

(** C8: for valid indices the move puts the element of [fromIndex] at
    [toIndex], leaves the other elements in their relative order (the list
    without position [toIndex] is the input without position [fromIndex]),
    loses and duplicates nothing (the result is a permutation of the same
    length), and moving the first of [UTC, IST, EST] to the last position
    gives [IST, EST, UTC]. *)
Theorem move_relocates (l : list value) (fromIndex toIndex : nat) :
  (fromIndex < length l)%nat -> (toIndex < length l)%nat ->
  let r := move fromIndex toIndex l in
  length r = length l
  /\ nth_error r toIndex = nth_error l fromIndex
  /\ fst (splice_out toIndex r) = fst (splice_out fromIndex l)
  /\ Permutation l r
  /\ (forall st, activeTimezones (state_of
        (onDragEnd (mkDrop fromIndex (Some toIndex)) (setActiveTimezones l st))) = r)
  /\ move 0 2 [VStr (str "UTC"); VStr (str "IST"); VStr (str "EST")]
     = [VStr (str "IST"); VStr (str "EST"); VStr (str "UTC")].
Proof.
  intros Hf Ht r.
  pose proof (splice_out_length l fromIndex Hf) as Hlen.
  assert (Hr : r = splice_in toIndex (snd (splice_out fromIndex l))
                             (fst (splice_out fromIndex l)))
    by apply move_splice.
  assert (HP : Permutation l r) by now apply move_perm.
  split; [symmetry; now apply Permutation_length|].
  split.
  { rewrite Hr, splice_in_nth by lia. unfold splice_out; cbn [snd].
    symmetry. now apply nth_error_nth'. }
  split; [rewrite Hr; apply splice_in_out; lia|].
  split; [exact HP|].
  split; [intros st; reflexivity | reflexivity].
Qed.

Lemma move_relocates_witness :
  length (move 2 0 [VStr (str "UTC"); VStr (str "IST"); VStr (str "EST")]) = 3%nat
  /\ move 2 0 [VStr (str "UTC"); VStr (str "IST"); VStr (str "EST")]
     = [VStr (str "EST"); VStr (str "UTC"); VStr (str "IST")].
Proof.
  split.
  - apply (move_relocates [VStr (str "UTC"); VStr (str "IST"); VStr (str "EST")] 2 0);
      simpl; lia.
  - reflexivity.
Defined.

(** An index past the end is not refused: [undefined] is inserted. *)
Lemma move_out_of_range :
  move 5 1 [VStr (str "UTC"); VStr (str "IST")]
  = [VStr (str "UTC"); VUndefined; VStr (str "IST")].
Proof. reflexivity. Qed.

(** Reversing twice gives the list back. *)
Lemma reverseOrder_twice (st : state) :
  activeTimezones (state_of (reverseOrder (state_of (reverseOrder st))))
  = activeTimezones st.
Proof. cbn. apply rev_involutive. Qed.

(** ** Adding and removing *)

Lemma filter_not_included (l : list value) (tzId : jsstring) :
  includes l tzId = false ->
  filter (fun v => negb (strict_eq_string v tzId)) l = l.
Proof.
  induction l as [|v l IH]; simpl; [reflexivity|].
  intros H; apply orb_false_iff in H as [Hv Hl].
  now rewrite Hv, IH.
Qed.

(** C9: when the active list has no element equal to [tzId], adding
    [tzId] and then removing it gives back the active list, element for
    element in the same order. *)
Theorem add_then_remove (st : state) (tzId : jsstring) :
  includes (activeTimezones st) tzId = false ->
  activeTimezones (state_of (removeTimezone tzId (state_of (addTimezone tzId st))))
  = activeTimezones st.
Proof.
  intros Hnot.
  assert (Hst : activeTimezones (state_of (addTimezone tzId st))
                = match tzId with
                  | [] => activeTimezones st
                  | _ => activeTimezones st ++ [VStr tzId]
                  end).
  { unfold addTimezone. destruct tzId as [|c r]; [reflexivity|].
    now destruct (filter_other (c :: r) (availableTimezones st)). }
  unfold removeTimezone; simpl. rewrite Hst.
  destruct tzId as [|c r].
  - now apply filter_not_included.
  - rewrite filter_app, filter_not_included by assumption.
    cbn [filter strict_eq_string]. rewrite jsstring_eqb_refl. apply app_nil_r.
Qed.

Lemma add_then_remove_witness :
  activeTimezones (state_of (removeTimezone (str "EST")
                     (state_of (addTimezone (str "EST") (initial_state 0)))))
  = [VStr (str "UTC"); VStr (str "IST")].
Proof.
  apply (add_then_remove (initial_state 0) (str "EST")). reflexivity.
Defined.

End ZoneList.

Module TimeArithmetic.
Import TimeZoneConverter Fixtures.

(** ** The slider *)

Lemma TimeClip_in_range (x : Z) :
  Z.abs x <= Date.maxTime -> Date.TimeClip x = Some x.
Proof.
  intros H; unfold Date.TimeClip.
  now apply Z.leb_le in H; rewrite H.
Qed.


Lemma handleSliderChange_time (st : state) (s : jsstring) (t v : Z) :
  selectedTime st = IsDate (Some t) -> ParseInt.parseInt s = Finite v ->
  handleSliderChange s st
  = Done (setSelectedTime (IsDate (Date.TimeClip (t + v * 60000)))
            (setSliderValue (Finite v) st)).
Proof.
  intros Ht Hv; unfold handleSliderChange.
  rewrite Hv, Ht. reflexivity.
Qed.




(** ** The time shown for a zone *)

Lemma truncate_sum (a b : Z) (q : Q) :
  inject_Z b == q -> truncate (inject_Z a + q) = a + b.
Proof.
  intros Hq. unfold truncate.
  assert (E : inject_Z a + q == inject_Z (a + b)).
  { rewrite <- Hq. now rewrite inject_Z_plus. }
  unfold Qeq in E. cbn [Qnum Qden inject_Z] in E.
  rewrite Z.mul_1_r in E. rewrite E.
  apply Z.quot_mul. discriminate.
Qed.

Lemma catalog_offsets (tz : timezone) :
  In tz timezones -> inject_Z (hours_ms (offset tz)) == 3600000 * offset tz.
Proof.
  intros [<-|[<-|[<-|[<-|[]]]]]; reflexivity.
Qed.

(** C2, as the code has it: the date returned for a catalog zone holds the
    instant plus the host's own offset from UTC ([getTimezoneOffset], in
    minutes) plus the zone's hours, and is invalid beyond the range of time
    values; it is the instant plus the zone's hours exactly when the host's
    offset is zero.  What the host prints for it in local time is the
    instant plus the zone's hours, as long as the host has the same offset
    at both moments. *)
Theorem getTimeInTimezone_value (host : Host) (instant : Z) (tz : timezone) :
  In tz timezones ->
  getTimeInTimezone host (Some instant) (offset tz)
  = Date.TimeClip (instant + timezoneOffset host instant * 60000 + hours_ms (offset tz))
  /\ inject_Z (hours_ms (offset tz)) == 3600000 * offset tz
  /\ (timezoneOffset host instant = 0 ->
      Z.abs (instant + hours_ms (offset tz)) <= Date.maxTime ->
      getTimeInTimezone host (Some instant) (offset tz)
      = Some (instant + hours_ms (offset tz)))
  /\ (forall shown,
        getTimeInTimezone host (Some instant) (offset tz) = Some shown ->
        timezoneOffset host shown = timezoneOffset host instant ->
        Date.LocalTime (timezoneOffset host) shown = instant + hours_ms (offset tz)).
Proof.
  intros Hin. pose proof (catalog_offsets tz Hin) as Hq.
  assert (E : getTimeInTimezone host (Some instant) (offset tz)
              = Date.TimeClip (instant + timezoneOffset host instant * 60000
                               + hours_ms (offset tz))).
  { unfold getTimeInTimezone. f_equal. now apply truncate_sum. }
  split; [exact E|]. split; [exact Hq|]. split.
  - intros H0 Hr. rewrite E, H0, Z.mul_0_l, Z.add_0_r.
    now apply TimeClip_in_range.
  - intros shown Hs Hoff. rewrite E in Hs. unfold Date.TimeClip in Hs.
    destruct (Z.abs _ <=? Date.maxTime); [|discriminate].
    injection Hs as <-. unfold Date.LocalTime. rewrite Hoff. lia.
Qed.

Lemma getTimeInTimezone_value_witness :
  getTimeInTimezone (host_at 300) (Some 1704067200000) (offset IST)
  = Some (1704067200000 + 300 * 60000 + 19800000).
Proof.
  apply (getTimeInTimezone_value (host_at 300) 1704067200000 IST).
  right; left; reflexivity.
Defined.

(** On a host in India ([getTimezoneOffset() = -330]) the date returned
    for the IST row holds the instant itself, not the instant plus five
    and a half hours. *)
Lemma getTimeInTimezone_depends_on_host :
  In IST timezones
  /\ hours_ms (offset IST) = 19800000
  /\ getTimeInTimezone (host_at (-330)) (Some 1704067200000) (offset IST)
     = Some 1704067200000
  /\ getTimeInTimezone (host_at (-330)) (Some 1704067200000) (offset IST)
     <> Some (1704067200000 + hours_ms (offset IST)).
Proof.
  split; [right; left; reflexivity|].
  split; [reflexivity|]. split; [reflexivity|]. vm_compute; discriminate.
Qed.

End TimeArithmetic.

Module ZoneInvariant.
Import TimeZoneConverter Transitions.

(** ** The invariant of the zone lists *)

Lemma Permutation_filter {A} (f : A -> bool) (l l' : list A) :
  Permutation l l' -> Permutation (filter f l) (filter f l').
Proof.
  induction 1 as [|x l l' _ IH|x y l|l l' l'' _ IH1 _ IH2]; simpl.
  - constructor.
  - destruct (f x); [now constructor | assumption].
  - destruct (f x), (f y); try reflexivity. apply perm_swap.
  - now transitivity (filter f l').
Qed.

Lemma filter_andb {A} (f g : A -> bool) (l : list A) :
  filter (fun x => f x && g x) l = filter g (filter f l).
Proof.
  induction l as [|x l IH]; simpl; [reflexivity|].
  destruct (f x); simpl; [destruct (g x)|]; now rewrite IH.
Qed.

Lemma filter_other_defined (tzId : jsstring) (l : list timezone) :
  filter_other tzId (map Some l)
  = Ok (map Some (filter (fun tz => negb (jsstring_eqb (id tz) tzId)) l)).
Proof.
  induction l as [|tz l IH]; simpl; [reflexivity|].
  rewrite IH; simpl. now destruct (jsstring_eqb (id tz) tzId).
Qed.

Lemma includes_app (a b : list value) (s : jsstring) :
  includes (a ++ b) s = includes a s || includes b s.
Proof. apply existsb_app. Qed.

Lemma includes_filter (active : list value) (s x : jsstring) :
  includes (filter (fun v => negb (strict_eq_string v s)) active) x
  = includes active x && negb (jsstring_eqb x s).
Proof.
  induction active as [|v l IH]; simpl; [reflexivity|].
  destruct (strict_eq_string v s) eqn:Hv; simpl; rewrite IH.
  - apply strict_eq_string_true in Hv; subst v; simpl.
    rewrite (jsstring_eqb_sym s x).
    destruct (jsstring_eqb x s); simpl; [now rewrite andb_false_r | reflexivity].
  - destruct (strict_eq_string v x) eqn:Hx; simpl; [|reflexivity].
    apply strict_eq_string_true in Hx; subst v; simpl in Hv.
    now rewrite Hv.
Qed.

Lemma includes_perm (l l' : list value) (s : jsstring) :
  Permutation l l' -> includes l s = includes l' s.
Proof.
  intros HP. destruct (includes l' s) eqn:E.
  - apply includes_true. apply includes_true in E.
    now apply (Permutation_in _ (Permutation_sym HP)).
  - apply includes_false. apply includes_false in E.
    intros Hin; apply E. now apply (Permutation_in _ HP).
Qed.

(** A rearrangement of the active list keeps the invariant. *)
Lemma invariant_perm (st : state) (l : list value) :
  invariant st -> Permutation (activeTimezones st) l ->
  invariant (setActiveTimezones l st).
Proof.
  intros [Hnd Hcat Hav] HP; split; cbn [setActiveTimezones activeTimezones availableTimezones].
  - now apply (Permutation_NoDup HP).
  - intros v Hv. apply Hcat. now apply (Permutation_in _ (Permutation_sym HP)).
  - rewrite Hav. unfold complement.
    rewrite (filter_ext (inactive (activeTimezones st)) (inactive l)); [reflexivity|].
    intros tz; unfold inactive. now rewrite (includes_perm _ _ _ HP).
Qed.

Lemma catalog_ids_nodup : NoDup (map id timezones).
Proof.
  repeat constructor; simpl; intuition discriminate.
Qed.

(** Removing an active id from the active list moves its entry into the
    complement. *)
Lemma complement_remove (l : list timezone) (active : list value) (tz0 : timezone) :
  NoDup (map id l) -> In tz0 l -> includes active (id tz0) = true ->
  Permutation
    (filter (inactive active) l ++ [tz0])
    (filter (inactive (filter (fun v => negb (strict_eq_string v (id tz0))) active)) l).
Proof.
  intros Hnd Hin Hact.
  assert (Hother : forall l', ~ In (id tz0) (map id l') ->
            filter (inactive (filter (fun v => negb (strict_eq_string v (id tz0))) active)) l'
            = filter (inactive active) l').
  { intros l' Hl'. apply filter_ext_in. intros tz Htz. unfold inactive.
    rewrite includes_filter.
    assert (Hne : jsstring_eqb (id tz) (id tz0) = false).
    { apply jsstring_eqb_neq. intros E. apply Hl'. rewrite <- E. now apply in_map. }
    now rewrite Hne, andb_true_r. }
  induction l as [|a l IH]; [contradiction|].
  simpl in Hnd. inversion Hnd as [|? ? Hnotin Hnd']; subst.
  assert (Ha : inactive (filter (fun v => negb (strict_eq_string v (id tz0))) active) a
               = negb (includes active (id a) && negb (jsstring_eqb (id a) (id tz0)))).
  { unfold inactive. now rewrite includes_filter. }
  cbn [filter]. rewrite Ha.
  destruct Hin as [->|Hin].
  - rewrite Hact, jsstring_eqb_refl. cbn [negb andb].
    unfold inactive at 1. rewrite Hact. cbn [negb].
    rewrite (Hother l Hnotin).
    symmetry. apply Permutation_cons_append.
  - assert (Hne : jsstring_eqb (id a) (id tz0) = false).
    { apply jsstring_eqb_neq. intros E. apply Hnotin. rewrite E. now apply in_map. }
    rewrite Hne, andb_true_r. unfold inactive at 1.
    destruct (negb (includes active (id a))); cbn [app].
    + constructor. now apply IH.
    + now apply IH.
Qed.

Lemma find_catalog (tz : timezone) :
  In tz timezones -> find (fun x => jsstring_eqb (id x) (id tz)) timezones = Some tz.
Proof.
  intros [<-|[<-|[<-|[<-|[]]]]]; reflexivity.
Qed.

Lemma initial_invariant (now : Z) : invariant (initial_state now).
Proof.
  split; cbn [initial_state activeTimezones availableTimezones].
  - repeat constructor; simpl; intuition discriminate.
  - intros v [<-|[<-|[]]].
    + exists (nth 0 timezones (mkTimezone [] [] 0)); split; [left|]; reflexivity.
    + exists (nth 1 timezones (mkTimezone [] [] 0)); split; [right; left|]; reflexivity.
  - reflexivity.
Qed.

(** Under its precondition a transition completes and keeps the
    invariant. *)
Lemma step_invariant (st : state) (e : event) :
  invariant st -> precondition e st ->
  exists st', handle e st = Done st' /\ invariant st'.
Proof.
  intros Hinv Hpre. pose proof Hinv as [Hnd Hcat Hav].
  destruct e as [tzId|tzId|[src [dst|]]|]; cbn [handle precondition] in *.
  - (* add *)
    destruct Hpre as [(tz0 & Htz0 & <-) Hnot].
    destruct (Permutation_map_inv _ _ Hav) as (l3 & Hl3 & HP3).
    unfold addTimezone. rewrite Hl3, filter_other_defined.
    assert (Hne : id tz0 <> []) by
      (destruct Htz0 as [<-|[<-|[<-|[<-|[]]]]]; discriminate).
    destruct (id tz0) as [|c r] eqn:Eid; [congruence|]. rewrite <- Eid in *.
    eexists; split; [reflexivity|].
    split; cbn [setAvailableTimezones setActiveTimezones activeTimezones availableTimezones].
    + apply NoDup_app; [assumption|repeat constructor; simpl; tauto|].
      intros a Ha [<-|[]]. contradiction.
    + intros v Hv. apply in_app_or in Hv as [Hv|[<-|[]]]; [now apply Hcat|].
      now exists tz0.
    + unfold complement. apply Permutation_map.
      rewrite (filter_ext (inactive (activeTimezones st ++ [VStr (id tz0)]))
                 (fun tz => inactive (activeTimezones st) tz
                            && negb (jsstring_eqb (id tz) (id tz0)))).
      * rewrite filter_andb. apply Permutation_filter. now symmetry.
      * intros tz; unfold inactive. rewrite includes_app. cbn [includes existsb strict_eq_string].
        rewrite orb_false_r, negb_orb. now rewrite (jsstring_eqb_sym (id tz0)).
  - (* remove *)
    destruct (Hcat _ Hpre) as (tz0 & Htz0 & Ev). injection Ev as ->.
    unfold removeTimezone. rewrite (find_catalog tz0 Htz0).
    eexists; split; [reflexivity|].
    split; cbn [setAvailableTimezones setActiveTimezones activeTimezones availableTimezones].
    + now apply NoDup_filter.
    + intros v Hv. apply filter_In in Hv as [Hv _]. now apply Hcat.
    + rewrite Hav. unfold complement.
      change [Some tz0] with (map Some [tz0]). rewrite <- map_app.
      apply Permutation_map. apply complement_remove;
        [exact catalog_ids_nodup | assumption | now apply includes_true].
  - (* a drop inside the list *)
    destruct Hpre as [Hs Hd]. cbn [destination source_index] in *.
    unfold onDragEnd; cbn [destination source_index].
    eexists; split; [reflexivity|].
    apply invariant_perm; [assumption|].
    now apply ZoneList.move_perm.
  - (* a drop outside of it *)
    exists st; split; [reflexivity | assumption].
  - (* reverse *)
    unfold reverseOrder. eexists; split; [reflexivity|].
    apply invariant_perm; [assumption | apply Permutation_rev].
Qed.

End ZoneInvariant.

Module ZoneTransitions.
Import TimeZoneConverter Transitions ZoneInvariant.

(** C6, as the code has it: along every sequence of transitions that each
    meet their precondition, starting from the initial state, the active
    list is duplicate-free, holds catalog ids only, and the available list
    is a rearrangement of the catalog entries that are not active; each
    such transition completes without an exception.  (What a call outside
    its precondition does is no part of this statement.) *)
Theorem reachable_invariant (now : Z) (st : state) :
  reachable now st ->
  invariant st
  /\ forall e, precondition e st -> exists st', handle e st = Done st' /\ invariant st'.
Proof.
  intros Hr.
  assert (Hinv : invariant st).
  { induction Hr as [|st st' e _ IH Hpre Hstep]; [apply initial_invariant|].
    destruct (step_invariant st e IH Hpre) as (st'' & Hs & Hi). congruence. }
  split; [exact Hinv|]. intros e. now apply step_invariant.
Qed.

Lemma reachable_invariant_witness :
  invariant (state_of (addTimezone (str "EST") (initial_state 0))).
Proof.
  apply (reachable_invariant 0 (state_of (addTimezone (str "EST") (initial_state 0)))).
  apply (reach_step 0 (initial_state 0) _ (Add (str "EST"))).
  - apply reach_initial.
  - split.
    + exists (nth 2 timezones (mkTimezone [] [] 0)). split; [right; right; left|]; reflexivity.
    + intros [H|[H|[]]]; discriminate H.
  - reflexivity.
Defined.

(** The handlers do not check the preconditions.  Adding an id that is
    already active completes and duplicates it, adding an id the catalog
    does not have completes and makes it active, and removing an id that
    is not active completes and duplicates its entry in the available
    list. *)
Lemma unguarded_transitions :
  (exists st', addTimezone (str "UTC") (initial_state 0) = Done st'
     /\ activeTimezones st' = [VStr (str "UTC"); VStr (str "IST"); VStr (str "UTC")]
     /\ ~ NoDup (activeTimezones st'))
  /\ (exists st', addTimezone (str "XYZ") (initial_state 0) = Done st'
     /\ In (VStr (str "XYZ")) (activeTimezones st')
     /\ ~ catalog_id (str "XYZ"))
  /\ (exists st', removeTimezone (str "EST") (initial_state 0) = Done st'
     /\ ~ NoDup (availableTimezones st')
     /\ ~ Permutation (availableTimezones st') (complement (activeTimezones st'))).
Proof.
  split; [|split]; eexists; (split; [reflexivity|]).
  - split; [reflexivity|]. intros H. inversion H as [|? ? Hn _]; subst.
    apply Hn. right; left; reflexivity.
  - split; [right; right; left; reflexivity|].
    intros (tz & [<-|[<-|[<-|[<-|[]]]]] & E); discriminate E.
  - split.
    + intros H. inversion H as [|? ? Hn _]; subst.
      apply Hn. right; left; reflexivity.
    + intros H. apply Permutation_length in H. discriminate H.
Qed.

(** The one guard: the empty value of the placeholder option adds
    nothing. *)
Lemma addTimezone_placeholder (st : state) : addTimezone [] st = Done st.
Proof. reflexivity. Qed.

End ZoneTransitions.

Module ConversionFacts.
Import Conversion.

(** ** Which values [new Date] converts *)

Lemma value_induction (P : value -> Prop) :
  P VUndefined -> P VNull -> (forall b, P (VBool b)) -> (forall n, P (VNum n)) ->
  (forall s, P (VStr s)) ->
  (forall elems, Forall P elems -> P (VArr elems)) ->
  (forall props, P (VObj props)) ->
  forall v, P v.
Proof.
  intros Hu Hn Hb Hnum Hs Ha Ho.
  fix IH 1. intros [| |b|n|s|elems|props].
  - exact Hu.
  - exact Hn.
  - apply Hb.
  - apply Hnum.
  - apply Hs.
  - apply Ha.
    exact ((fix all (l : list value) : Forall P l :=
              match l with
              | [] => Forall_nil P
              | e :: rest => Forall_cons e (IH e) (all rest)
              end) elems).
  - apply Ho.
Qed.

Lemma to_string_cons (host : Host) (e : value) (rest : list value) :
  to_string host (VArr (e :: rest))
  = (s <- match e with
          | VUndefined | VNull => Ok []
          | _ => to_string host e
          end ;;
     match rest with
     | [] => Ok s
     | _ :: _ => r <- to_string host (VArr rest) ;; Ok (s ++ ch "," :: r)
     end).
Proof. reflexivity. Qed.

(** ToString throws exactly on the values that are [unconvertible], and
    what it throws is a TypeError. *)
Lemma to_string_outcome (host : Host) (v : value) :
  (unconvertible v = true /\ to_string host v = Throw TypeError)
  \/ (unconvertible v = false /\ exists s, to_string host v = Ok s).
Proof.
  induction v as [| |b|n|s|elems IH|props] using value_induction.
  - right. split; [reflexivity | eexists; reflexivity].
  - right. split; [reflexivity | eexists; reflexivity].
  - right. split; [reflexivity | destruct b; eexists; reflexivity].
  - right. split; [reflexivity | eexists; reflexivity].
  - right. split; [reflexivity | eexists; reflexivity].
  - induction IH as [|e rest He _ IHrest].
    + right. split; [reflexivity | eexists; reflexivity].
    + rewrite to_string_cons. cbn [unconvertible existsb].
      change (existsb unconvertible rest) with (unconvertible (VArr rest)).
      destruct He as [[Ue Ee]|[Ue (se & Ee)]]; rewrite Ue; cbn [orb].
      * left. split; [reflexivity|].
        destruct e; try discriminate Ue; rewrite Ee; reflexivity.
      * assert (Eh : match e with
                     | VUndefined | VNull => Ok []
                     | _ => to_string host e
                     end = Ok (match e with VUndefined | VNull => [] | _ => se end))
          by (destruct e; try reflexivity; exact Ee).
        rewrite Eh. cbn [bind].
        destruct rest as [|e' rest'].
        { right. split; [reflexivity | eexists; reflexivity]. }
        destruct IHrest as [[Ur Er]|[Ur (sr & Er)]]; rewrite Ur, Er; cbn [bind].
        { left. split; reflexivity. }
        { right. split; [reflexivity | eexists; reflexivity]. }
  - cbn [unconvertible to_string].
    destruct (has_own (str "toString") props).
    + left. split; reflexivity.
    + right. split; [reflexivity | eexists; reflexivity].
Qed.

(** [new Date(v)] throws a TypeError on an object or array that is
    [unconvertible], and gives a date, valid or not, on every other
    value. *)
Lemma of_value_outcome (host : Host) (v : value) :
  (unconvertible v = true /\ Date.of_value host v = Throw TypeError)
  \/ (unconvertible v = false /\ exists d, Date.of_value host v = Ok d).
Proof.
  unfold Date.of_value, to_primitive.
  destruct (to_string_outcome host v) as [[U E]|[U (s & E)]].
  - left. split; [exact U|].
    destruct v; try discriminate U; rewrite E; reflexivity.
  - right. split; [exact U|].
    destruct v; try (eexists; reflexivity); rewrite E; eexists; reflexivity.
Qed.

Lemma of_value_throws (host : Host) (v : value) (e : exn) :
  Date.of_value host v = Throw e -> e = TypeError /\ unconvertible v = true.
Proof.
  destruct (of_value_outcome host v) as [[U E]|[U (d & E)]]; rewrite E.
  - intros H; injection H as <-. now split.
  - discriminate.
Qed.

Lemma unconvertible_truthy (v : value) :
  unconvertible v = true -> truthy v = true.
Proof. destruct v; try discriminate; reflexivity. Qed.

Lemma of_value_string (host : Host) (s : jsstring) :
  Date.of_value host (VStr s) = Ok (Date.parse host s).
Proof. reflexivity. Qed.

(** An array is converted through the string of its elements; an object
    with an own [toString], at any depth, is not converted. *)
Lemma of_value_examples (host : Host) :
  to_string host (VArr [VArr []; VObj []; VNull; VStr (str "a"); VBool true])
  = Ok (str ",[object Object],,a,true")
  /\ Date.of_value host (VArr [VStr (Date.iso_string 1704067200000)])
     = Ok (Some 1704067200000)
  /\ Date.of_value host (VObj [(str "valueOf", VNum (mkNumber false 5 0))])
     = Ok (Date.parse host (str "[object Object]"))
  /\ Date.of_value host (VObj [(str "toString", VNum (mkNumber false 5 0))])
     = Throw TypeError
  /\ Date.of_value host (VArr [VStr (str "a"); VArr [VObj [(str "toString", VNull)]]])
     = Throw TypeError.
Proof. repeat split; reflexivity. Qed.

End ConversionFacts.

Module Decoding.
Import TimeZoneConverter.

(** ** Decoding a token *)

Lemma atob_throws (s : jsstring) (e : exn) :
  Base64.atob s = Throw e -> e = InvalidCharacterError.
Proof.
  unfold Base64.atob.
  repeat match goal with
         | |- context [if ?c then _ else _] => destruct c
         | |- context [match ?x with Some _ => _ | None => _ end] => destruct x
         end; congruence.
Qed.

Lemma parse_throws (s : jsstring) (e : exn) :
  JSON.parse s = Throw e -> e = SyntaxError.
Proof.
  unfold JSON.parse.
  destruct (JSON.parse_value _ _) as [[v rest]|]; [|congruence].
  destruct (JSON.skip_ws rest); congruence.
Qed.

Lemma parse_value_defined (fuel : nat) (s rest : jsstring) (v : value) :
  JSON.parse_value fuel s = Some (v, rest) -> v <> VUndefined.
Proof.
  destruct fuel as [|fuel]; [discriminate|].
  cbn [JSON.parse_value]. destruct s as [|c r]; [discriminate|].
  repeat match goal with
         | |- context [if ?c then _ else _] => destruct c
         | |- context [match ?x with Some _ => _ | None => _ end] => destruct x
         | |- context [match ?x with (_, _) => _ end] => destruct x
         | |- context [match ?x with [] => _ | _ :: _ => _ end] => destruct x
         end; intros H; try discriminate H; injection H as <- _; discriminate.
Qed.

Lemma parse_defined (s : jsstring) : JSON.parse s <> Ok VUndefined.
Proof.
  unfold JSON.parse.
  destruct (JSON.parse_value _ _) as [[v rest]|] eqn:E; [|discriminate].
  apply parse_value_defined in E.
  destruct (JSON.skip_ws rest); congruence.
Qed.

(** The outcome of [decode] by the outcome of each of its steps. *)
Lemma decode_steps (host : Host) (token : jsstring) :
  decode host token
  = match Base64.atob token with
    | Throw e => Throw e
    | Ok text =>
        match JSON.parse text with
        | Throw e => Throw e
        | Ok (VObj props) =>
            if truthy (lookup (str "time") props) then
              match lookup (str "timezones") props with
              | VArr zones =>
                  match Date.of_value host (lookup (str "time") props) with
                  | Ok date => Ok (date, zones)
                  | Throw e => Throw e
                  end
              | _ => Throw invalid_state_format
              end
            else Throw invalid_state_format
        | Ok VUndefined | Ok VNull => Throw TypeError
        | Ok _ => Throw invalid_state_format
        end
    end.
Proof.
  unfold decode, bind.
  destruct (Base64.atob token) as [text|e]; [|reflexivity].
  destruct (JSON.parse text) as [[| | | | | |props]|e]; try reflexivity.
  cbn [get_prop]. destruct (truthy (lookup (str "time") props)); reflexivity.
Qed.

(** The effect by the three cases of the token. *)
Lemma useEffect_absent (host : Host) (search : jsstring) (st : state) :
  URLSearchParams.get host search (str "state") = None
  \/ URLSearchParams.get host search (str "state") = Some [] ->
  useEffect_body host search st = setIsLoading false st.
Proof.
  intros [H|H]; unfold useEffect_body; rewrite H; reflexivity.
Qed.

Lemma useEffect_accepted (host : Host) (search token : jsstring) (st : state)
    (time : Date.t) (zones : list value) :
  URLSearchParams.get host search (str "state") = Some token ->
  decode host token = Ok (time, zones) ->
  useEffect_body host search st
  = mkState (IsDate time) zones (Transitions.complement zones) (isDarkMode st)
            (shareableLink st) false (error st) (isCopied st) (sliderValue st).
Proof.
  intros Hget Hdec. unfold useEffect_body. rewrite Hget.
  destruct token as [|c r]; [discriminate Hdec|].
  rewrite Hdec. reflexivity.
Qed.

Lemma useEffect_rejected (host : Host) (search token : jsstring) (st : state) (e : exn) :
  URLSearchParams.get host search (str "state") = Some token ->
  token <> [] ->
  decode host token = Throw e ->
  useEffect_body host search st
  = mkState (selectedTime st) (activeTimezones st) (availableTimezones st)
            (isDarkMode st) (shareableLink st) false advisory (isCopied st)
            (sliderValue st).
Proof.
  intros Hget Hne Hdec. unfold useEffect_body. rewrite Hget.
  destruct token as [|c r]; [congruence|].
  rewrite Hdec. reflexivity.
Qed.

End Decoding.

Module DecodeClaims.
Import TimeZoneConverter Fixtures Decoding.

Ltac break :=
  repeat match goal with
         | H : exists _, _ |- _ => destruct H
         | H : _ /\ _ |- _ => destruct H
         | H : _ \/ _ |- _ => destruct H
         end.

Ltac contra := intros; break; subst; congruence.

Ltac one_kind :=
  let e := fresh "e" in
  let H := fresh "H" in
  intros e H; injection H as <-; auto.

(** C3, as the code has it: [decode] accepts a token exactly when it is
    forgiving-base64, its text is JSON for an object, the object's [time]
    is truthy and can be converted to a primitive, and its [timezones] is
    an array; it then yields [new Date(time)], valid or not, and the array
    as it is, whatever its elements.  It throws InvalidCharacterError when
    the token is not base64, SyntaxError when the text is not JSON,
    TypeError when the text is [null] and when [time], with [timezones] an
    array, is an object or array that cannot be converted (an object with
    an own property [toString], or an array holding one), and
    Error('Invalid state format') in the remaining cases; whichever it
    throws, the effect surfaces the one advisory message. *)
Theorem decode_outcomes (host : Host) (token : jsstring) :
  (forall time zones,
      decode host token = Ok (time, zones) <->
      exists text props,
        Base64.atob token = Ok text
        /\ JSON.parse text = Ok (VObj props)
        /\ truthy (lookup (str "time") props) = true
        /\ lookup (str "timezones") props = VArr zones
        /\ Conversion.unconvertible (lookup (str "time") props) = false
        /\ Date.of_value host (lookup (str "time") props) = Ok time)
  /\ (decode host token = Throw InvalidCharacterError <->
      Base64.atob token = Throw InvalidCharacterError)
  /\ (decode host token = Throw SyntaxError <->
      exists text, Base64.atob token = Ok text /\ JSON.parse text = Throw SyntaxError)
  /\ (decode host token = Throw TypeError <->
      exists text,
        Base64.atob token = Ok text
        /\ (JSON.parse text = Ok VNull
            \/ exists props zones,
                 JSON.parse text = Ok (VObj props)
                 /\ lookup (str "timezones") props = VArr zones
                 /\ Conversion.unconvertible (lookup (str "time") props) = true))
  /\ (decode host token = Throw invalid_state_format <->
      exists text v,
        Base64.atob token = Ok text /\ JSON.parse text = Ok v /\ v <> VNull
        /\ forall props, v = VObj props ->
             truthy (lookup (str "time") props) = false
             \/ isArray (lookup (str "timezones") props) = false)
  /\ (forall e, decode host token = Throw e ->
        e = InvalidCharacterError \/ e = SyntaxError \/ e = TypeError
        \/ e = invalid_state_format)
  /\ (forall search st e,
        URLSearchParams.get host search (str "state") = Some token ->
        token <> [] ->
        decode host token = Throw e ->
        error (useEffect_body host search st) = advisory).
Proof.
  assert (Hlast : forall search st e,
             URLSearchParams.get host search (str "state") = Some token ->
             token <> [] -> decode host token = Throw e ->
             error (useEffect_body host search st) = advisory).
  { intros search st e Hget Hne Hdec.
    now rewrite (useEffect_rejected host search token st e Hget Hne Hdec). }
  pose proof (atob_throws token) as HA.
  pose proof (fun text => parse_throws text) as HP.
  pose proof (fun text => parse_defined text) as HU.
  revert Hlast. rewrite (decode_steps host token). unfold invalid_state_format.
  destruct (Base64.atob token) as [text|ea] eqn:Eatob.
  2:{ specialize (HA ea eq_refl); subst ea. intros Hlast.
      repeat split; try exact Hlast; try contra; one_kind. }
  clear HA. specialize (HP text). specialize (HU text).
  destruct (JSON.parse text) as [v|ep] eqn:Eparse.
  2:{ specialize (HP ep eq_refl); subst ep. intros Hlast.
      repeat split; try exact Hlast; try contra; try one_kind.
      intros _. exists text; split; [reflexivity | assumption]. }
  clear HP.
  destruct v as [| |b|n|s|l|props]; try congruence.
  - (* null *)
    intros Hlast. repeat split; try exact Hlast; try contra; try one_kind.
    intros _; exists text; split; [reflexivity | left; assumption].
  - (* true, false *)
    intros Hlast. repeat split; try exact Hlast; try contra; try one_kind.
    intros _; exists text, (VBool b); repeat split; try assumption; try discriminate.
  - (* a number *)
    intros Hlast. repeat split; try exact Hlast; try contra; try one_kind.
    intros _; exists text, (VNum n); repeat split; try assumption; try discriminate.
  - (* a string *)
    intros Hlast. repeat split; try exact Hlast; try contra; try one_kind.
    intros _; exists text, (VStr s); repeat split; try assumption; try discriminate.
  - (* an array *)
    intros Hlast. repeat split; try exact Hlast; try contra; try one_kind.
    intros _; exists text, (VArr l); repeat split; try assumption; try discriminate.
  - (* an object *)
    destruct (truthy (lookup (str "time") props)) eqn:Etime.
    + destruct (lookup (str "timezones") props) as [| |b|n|s|zones0|ps] eqn:Ezones.
      6:{ (* [timezones] is an array: the date is made *)
          destruct (ConversionFacts.of_value_outcome host (lookup (str "time") props))
            as [[Uc Ec]|[Uc (d & Ec)]]; rewrite Ec.
          - intros Hlast. repeat split; try exact Hlast; try contra; try one_kind.
            + intros _. exists text. split; [reflexivity|]. right.
              exists props, zones0. repeat split; assumption.
            + intros (t & v & H1 & H2 & H3 & H4). injection H1 as <-.
              rewrite Eparse in H2; injection H2 as <-.
              destruct (H4 props eq_refl) as [H|H]; [congruence|].
              rewrite Ezones in H; discriminate H.
          - intros Hlast. repeat split; try exact Hlast; try contra; try one_kind.
            + intros H; injection H as <- <-. exists text, props.
              repeat split; auto.
            + intros (t & v & H1 & H2 & H3 & H4). injection H1 as <-.
              rewrite Eparse in H2; injection H2 as <-.
              destruct (H4 props eq_refl) as [H|H]; [congruence|].
              rewrite Ezones in H; discriminate H. }
      all: intros Hlast; repeat split; try exact Hlast; try contra; try one_kind.
      all: intros _; exists text, (VObj props); repeat split; try assumption;
        try discriminate;
        intros props' E; injection E as <-; right; rewrite Ezones; reflexivity.
    + assert (Uc : Conversion.unconvertible (lookup (str "time") props) = false).
      { destruct (Conversion.unconvertible (lookup (str "time") props)) eqn:U;
          [|reflexivity].
        apply ConversionFacts.unconvertible_truthy in U. congruence. }
      intros Hlast; repeat split; try exact Hlast; try contra; try one_kind.
      intros _; exists text, (VObj props); repeat split; try assumption; try discriminate.
      intros props' E; injection E as <-; now left.
Qed.

(** The three rejections the specification lists. *)
Lemma decode_examples (host : Host) :
  decode host [] = Throw SyntaxError
  /\ decode host (str "not-base64!!") = Throw InvalidCharacterError
  /\ decode host (Base64.encode (json_text "{'time':'2024-01-01T00:00:00.000Z'}"))
     = Throw invalid_state_format.
Proof. repeat split; reflexivity. Qed.

(** A token whose [time] is no instant and whose [timezones] holds no
    string is accepted: the date installed is invalid. *)
Lemma decode_accepts_unchecked_fields :
  decode plain_host (Base64.encode (json_text "{'time':1e300,'timezones':[1,{}]}"))
  = Ok (None, [VNum (mkNumber false 1 0); VObj []]).
Proof. vm_compute. reflexivity. Qed.

(** Two rejections of different kinds leave the same state behind. *)
Lemma rejections_indistinguishable (now : Z) :
  decode plain_host (str "not-base64!!") = Throw InvalidCharacterError
  /\ decode plain_host (str "e30=") = Throw invalid_state_format
  /\ useEffect_body plain_host (str "?state=not-base64!!") (initial_state now)
     = useEffect_body plain_host (str "?state=e30=") (initial_state now).
Proof. repeat split; reflexivity. Qed.

(** C5, as the code has it, for a token that is present in the URL.  When
    it is not empty and [decode] throws, no exception leaves the effect (it
    is a function to states), the advisory message is set and every other
    cell keeps its value, so that from the initial state the result is the
    default state, [now] and [UTC, IST], with the message: nothing is
    installed.  The empty token is taken for an absent one: no cell
    changes and no message is set.  A token on which [decode] does not
    throw is installed, with the date [new Date(time)] gave, valid or not,
    and without a message. *)
Theorem decode_failure_keeps_state (host : Host) (search token : jsstring)
    (st : state) (now : Z) :
  URLSearchParams.get host search (str "state") = Some token ->
  (forall e,
     token <> [] ->
     decode host token = Throw e ->
     useEffect_body host search st
     = mkState (selectedTime st) (activeTimezones st) (availableTimezones st)
               (isDarkMode st) (shareableLink st) false advisory (isCopied st)
               (sliderValue st)
     /\ selectedTime (useEffect_body host search (initial_state now))
        = IsDate (Some now)
     /\ activeTimezones (useEffect_body host search (initial_state now))
        = [VStr (str "UTC"); VStr (str "IST")]
     /\ availableTimezones (useEffect_body host search (initial_state now))
        = availableTimezones (initial_state now)
     /\ error (useEffect_body host search (initial_state now)) = advisory)
  /\ (token = [] -> useEffect_body host search st = setIsLoading false st)
  /\ (forall time zones,
        decode host token = Ok (time, zones) ->
        selectedTime (useEffect_body host search st) = IsDate time
        /\ activeTimezones (useEffect_body host search st) = zones
        /\ error (useEffect_body host search st) = error st).
Proof.
  intros Hget. split; [|split].
  - intros e Hne Hdec.
    split; [now apply (useEffect_rejected host search token st e)|].
    rewrite (useEffect_rejected host search token (initial_state now) e Hget Hne Hdec).
    repeat split; reflexivity.
  - intros ->. apply useEffect_absent. now right.
  - intros time zones Hdec.
    rewrite (useEffect_accepted host search token st time zones Hget Hdec).
    repeat split; reflexivity.
Qed.

Lemma decode_failure_keeps_state_witness :
  error (useEffect_body plain_host (str "?state=not-base64!!") (initial_state 42))
  = advisory
  /\ selectedTime (useEffect_body plain_host (str "?state=not-base64!!") (initial_state 42))
     = IsDate (Some 42).
Proof.
  destruct (decode_failure_keeps_state plain_host (str "?state=not-base64!!")
              (str "not-base64!!") (initial_state 42) 42) as (H & _);
    [reflexivity|].
  destruct (H InvalidCharacterError) as (_ & Ht & _ & _ & He);
    [discriminate | reflexivity |].
  split; [exact He | exact Ht].
Defined.

(** Two tokens that are present and are no valid share state, on which no
    message is set.  The empty token of [?state=], which [JSON.parse]
    would reject, is taken for an absent one.  A token whose [time] is no
    instant passes the checks: the date installed is invalid and the zone
    list is replaced. *)
Lemma invalid_tokens_not_reported :
  (URLSearchParams.get plain_host (str "?state=") (str "state") = Some []
   /\ decode plain_host [] = Throw SyntaxError
   /\ error (useEffect_body plain_host (str "?state=") (initial_state 0)) = [])
  /\ (URLSearchParams.get plain_host
        (str "?state=eyJ0aW1lIjoxZTMwMCwidGltZXpvbmVzIjpbXX0=") (str "state")
      = Some (Base64.encode (json_text "{'time':1e300,'timezones':[]}"))
      /\ selectedTime (useEffect_body plain_host
                         (str "?state=eyJ0aW1lIjoxZTMwMCwidGltZXpvbmVzIjpbXX0=")
                         (initial_state 0)) = IsDate None
      /\ activeTimezones (useEffect_body plain_host
                            (str "?state=eyJ0aW1lIjoxZTMwMCwidGltZXpvbmVzIjpbXX0=")
                            (initial_state 0)) = []
      /\ error (useEffect_body plain_host
                  (str "?state=eyJ0aW1lIjoxZTMwMCwidGltZXpvbmVzIjpbXX0=")
                  (initial_state 0)) = []).
Proof. repeat split; vm_compute; reflexivity. Qed.

(** C7, as the code has it: a token that passes the structural checks, a
    truthy [time] and an array [timezones], is accepted when its [time]
    can be converted to a primitive, and the effect then makes the decoded
    array the active list as it is; nothing looks its elements up in the
    catalog or compares them with each other.  When its [time] is an
    object or array that cannot be converted, [new Date] throws a
    TypeError: nothing is installed and the advisory message is set. *)
Theorem decode_installs_verbatim (host : Host) (token text : jsstring)
    (decodedState time : value) (zones : list value) :
  Base64.atob token = Ok text ->
  JSON.parse text = Ok decodedState ->
  get_prop decodedState (str "time") = Ok time ->
  truthy time = true ->
  get_prop decodedState (str "timezones") = Ok (VArr zones) ->
  (Conversion.unconvertible time = false ->
   exists date,
     Date.of_value host time = Ok date
     /\ decode host token = Ok (date, zones)
     /\ forall search st,
          URLSearchParams.get host search (str "state") = Some token ->
          activeTimezones (useEffect_body host search st) = zones
          /\ selectedTime (useEffect_body host search st) = IsDate date
          /\ error (useEffect_body host search st) = error st)
  /\ (Conversion.unconvertible time = true ->
      decode host token = Throw TypeError
      /\ forall search st,
           URLSearchParams.get host search (str "state") = Some token ->
           activeTimezones (useEffect_body host search st) = activeTimezones st
           /\ selectedTime (useEffect_body host search st) = selectedTime st
           /\ error (useEffect_body host search st) = advisory).
Proof.
  intros Hatob Hparse Htime Htruthy Hzones.
  assert (Hsteps : decode host token
                   = match Date.of_value host time with
                     | Ok date => Ok (date, zones)
                     | Throw e => Throw e
                     end).
  { unfold decode, bind. rewrite Hatob, Hparse, Htime, Htruthy. cbn [negb].
    now rewrite Hzones. }
  assert (Hne : token <> []).
  { intros ->. injection Hatob as <-. discriminate Hparse. }
  destruct (ConversionFacts.of_value_outcome host time) as [[U E]|[U (date & E)]];
    rewrite E in Hsteps; split; intros U'; try congruence.
  - split; [exact Hsteps|]. intros search st Hget.
    rewrite (useEffect_rejected host search token st _ Hget Hne Hsteps).
    repeat split; reflexivity.
  - exists date. split; [exact E|]. split; [exact Hsteps|].
    intros search st Hget.
    rewrite (useEffect_accepted host search token st _ _ Hget Hsteps).
    repeat split; reflexivity.
Qed.

Lemma decode_installs_verbatim_witness :
  decode plain_host foreign_token
  = Ok (None, [VStr (str "MARS"); VStr (str "MARS"); VNum (mkNumber false 7 0)]).
Proof.
  destruct (decode_installs_verbatim plain_host foreign_token
              (json_text "{'time':'soon','timezones':['MARS','MARS',7]}")
              (VObj [(str "time", VStr (str "soon"));
                     (str "timezones",
                      VArr [VStr (str "MARS"); VStr (str "MARS");
                            VNum (mkNumber false 7 0)])])
              (VStr (str "soon"))
              [VStr (str "MARS"); VStr (str "MARS"); VNum (mkNumber false 7 0)])
    as (Hok & _);
    [reflexivity | reflexivity | reflexivity | reflexivity | reflexivity |].
  destruct (Hok eq_refl) as (date & Hdate & Hdec & _).
  injection Hdate as <-. exact Hdec.
Defined.

(** A token that passes the structural checks and is not accepted: its
    [time] is an object whose own property [toString] is no function, so
    that [new Date(time)] throws inside the [try] block; the zone list of
    the token is not installed and the advisory message is set. *)
Lemma decode_rejects_unconvertible_time :
  Base64.atob (str "eyJ0aW1lIjp7InRvU3RyaW5nIjo1fSwidGltZXpvbmVzIjpbIlVUQyJdfQ==")
  = Ok (json_text "{'time':{'toString':5},'timezones':['UTC']}")
  /\ JSON.parse (json_text "{'time':{'toString':5},'timezones':['UTC']}")
     = Ok (VObj [(str "time", VObj [(str "toString", VNum (mkNumber false 5 0))]);
                 (str "timezones", VArr [VStr (str "UTC")])])
  /\ truthy (VObj [(str "toString", VNum (mkNumber false 5 0))]) = true
  /\ decode plain_host
       (str "eyJ0aW1lIjp7InRvU3RyaW5nIjo1fSwidGltZXpvbmVzIjpbIlVUQyJdfQ==")
     = Throw TypeError
  /\ activeTimezones
       (useEffect_body plain_host
          (str "?state=eyJ0aW1lIjp7InRvU3RyaW5nIjo1fSwidGltZXpvbmVzIjpbIlVUQyJdfQ==")
          (initial_state 0))
     = [VStr (str "UTC"); VStr (str "IST")]
  /\ error
       (useEffect_body plain_host
          (str "?state=eyJ0aW1lIjp7InRvU3RyaW5nIjo1fSwidGltZXpvbmVzIjpbIlVUQyJdfQ==")
          (initial_state 0))
     = advisory.
Proof. repeat split; vm_compute; reflexivity. Qed.

(** With an id the catalog does not have in the active list the render
    throws: it reads [offset] of the entry it did not find. *)
Lemma rows_unknown_id (host : Host) (date : selected) :
  rows host date [VStr (str "UTC"); VStr (str "MARS")] = Throw TypeError.
Proof. destruct date; reflexivity. Qed.

End DecodeClaims.

Module ParserFuel.
Import JSON.

(** ** The fuel of the parser *)

Lemma skip_ws_length (s : jsstring) : (length (skip_ws s) <= length s)%nat.
Proof.
  induction s as [|c s IH]; cbn [skip_ws]; [lia|].
  destruct (is_ws c); cbn [length] in *; lia.
Qed.

Lemma parse_string_length (s t r : jsstring) :
  parse_string s = Some (t, r) -> (length r < length s)%nat.
Proof.
  revert t r. induction s as [s IH] using (well_founded_induction
    (Wf_nat.well_founded_ltof _ (@length Z))). unfold Wf_nat.ltof in IH.
  intros t r. destruct s as [|c s]; cbn [parse_string]; [discriminate|].
  destruct (c =? ch "034"); [intros H; injection H as <- <-; cbn [length]; lia|].
  destruct (c =? ch "\").
  - destruct s as [|e s1]; [discriminate|].
    destruct (e =? ch "u").
    + destruct s1 as [|x [|y [|z [|w s2]]]]; try discriminate.
      destruct (hex4 x y z w); [|discriminate].
      destruct (parse_string s2) as [[t' r']|] eqn:E; [|discriminate].
      intros H; injection H as <- <-.
      apply IH in E; cbn [length] in *; lia.
    + destruct (unescape e); [|discriminate].
      destruct (parse_string s1) as [[t' r']|] eqn:E; [|discriminate].
      intros H; injection H as <- <-.
      apply IH in E; cbn [length] in *; lia.
  - destruct (c <? 32); [discriminate|].
    destruct (parse_string s) as [[t' r']|] eqn:E; [|discriminate].
    intros H; injection H as <- <-.
    apply IH in E; cbn [length] in *; lia.
Qed.

Lemma digits_acc_length (s : jsstring) (acc n : Z) :
  (length (snd (digits_acc acc n s)) <= length s)%nat.
Proof.
  revert acc n. induction s as [|c s IH]; intros acc n; cbn [digits_acc]; [cbn; lia|].
  destruct (digit c); [|cbn; lia].
  specialize (IH (acc * 10 + z) (n + 1)). cbn [length]. lia.
Qed.

Lemma parse_number_length (s r : jsstring) (n : number) :
  parse_number s = Some (n, r) -> (length r < length s)%nat.
Proof.
  unfold parse_number.
  assert (Hint : forall s1 m s2, parse_int s1 = Some (m, s2) ->
                                 (length s2 < length s1)%nat).
  { intros s1 m s2. unfold parse_int. destruct s1 as [|c r1]; [discriminate|].
    destruct (c =? ch "0"); [intros H; injection H as <- <-; cbn; lia|].
    destruct (digit c) eqn:Ed; [|discriminate].
    cbn [digits_acc]. rewrite Ed.
    pose proof (digits_acc_length r1 (0 * 10 + z) (0 + 1)) as Hl.
    destruct (digits_acc (0 * 10 + z) (0 + 1) r1) as [[m' k] rest].
    intros H; injection H as <- <-. cbn [snd length] in *. lia. }
  assert (Hfrac : forall m s2 m' e s3, parse_frac m s2 = Some (m', e, s3) ->
                                       (length s3 <= length s2)%nat).
  { intros m s2 m' e s3. unfold parse_frac. destruct s2 as [|c r2].
    - intros H; injection H as <- <- <-. lia.
    - destruct (c =? ch ".").
      + pose proof (digits_acc_length r2 m 0) as Hl.
        destruct (digits_acc m 0 r2) as [[m1 k] rest].
        destruct (k =? 0); [discriminate|].
        intros H; injection H as <- <- <-. cbn [snd length] in *. lia.
      + intros H; injection H as <- <- <-. lia. }
  assert (Hexp : forall s3 e s4, parse_exp s3 = Some (e, s4) ->
                                 (length s4 <= length s3)%nat).
  { intros s3 e s4. unfold parse_exp. destruct s3 as [|c r3].
    - intros H; injection H as <- <-. lia.
    - destruct ((c =? ch "e") || (c =? ch "E")).
      + assert (Hsign : forall sg r1,
                  match r3 with
                  | d :: r' =>
                      if d =? ch "-" then (-1, r')
                      else if d =? ch "+" then (1, r') else (1, r3)
                  | [] => (1, r3)
                  end = (sg, r1) -> (length r1 <= length r3)%nat).
        { intros sg r1. destruct r3 as [|d r'].
          - intros H; injection H as <- <-. lia.
          - destruct (d =? ch "-"); [intros H; injection H as <- <-; cbn; lia|].
            destruct (d =? ch "+"); intros H; injection H as <- <-; cbn; lia. }
        destruct (match r3 with
                  | d :: r' =>
                      if d =? ch "-" then (-1, r')
                      else if d =? ch "+" then (1, r') else (1, r3)
                  | [] => (1, r3)
                  end) as [sg r1] eqn:Es.
        pose proof (Hsign sg r1 eq_refl) as Hl1.
        pose proof (digits_acc_length r1 0 0) as Hl.
        destruct (digits_acc 0 0 r1) as [[e1 k] rest].
        destruct (k =? 0); [discriminate|].
        intros H; injection H as <- <-. cbn [snd length] in *. lia.
      + intros H; injection H as <- <-. lia. }
  destruct (match s with
            | c :: r0 => if c =? ch "-" then (true, r0) else (false, s)
            | [] => (false, s)
            end) as [sgn s1] eqn:Es.
  assert (Hs1 : (length s1 <= length s)%nat).
  { destruct s as [|c r0]; [injection Es as <- <-; lia|].
    destruct (c =? ch "-"); injection Es as <- <-; cbn; lia. }
  destruct (parse_int s1) as [[m s2]|] eqn:Ei; [|discriminate].
  destruct (parse_frac m s2) as [[[m' e1] s3]|] eqn:Ef; [|discriminate].
  destruct (parse_exp s3) as [[e2 s4]|] eqn:Ee; [|discriminate].
  intros H; injection H as <- <-.
  apply Hint in Ei. apply Hfrac in Ef. apply Hexp in Ee. lia.
Qed.

Lemma starts_with_length (p s r : jsstring) :
  p <> [] -> starts_with p s = Some r -> (length r < length s)%nat.
Proof.
  intros Hp. unfold starts_with.
  destruct (jsstring_eqb (firstn (length p) s) p) eqn:E; [|discriminate].
  intros H; injection H as <-.
  apply jsstring_eqb_eq in E.
  assert (Hl : length (firstn (length p) s) = length p) by now rewrite E.
  rewrite length_firstn in Hl. rewrite length_skipn.
  destruct p; [congruence|]. cbn [length] in *. lia.
Qed.

Ltac cases :=
  repeat match goal with
         | |- context [if ?c then _ else _] => destruct c
         end.

(** Each of the three parsers consumes at least one character. *)
Lemma parse_consumes (fuel : nat) :
  (forall s v r, parse_value fuel s = Some (v, r) -> (length r < length s)%nat)
  /\ (forall s l r, parse_elements fuel s = Some (l, r) -> (length r < length s)%nat)
  /\ (forall acc s ps r, parse_members fuel acc s = Some (ps, r) ->
                         (length r < length s)%nat).
Proof.
  induction fuel as [|f (IHv & IHe & IHm)]; [repeat split; intros; discriminate|].
  repeat split.
  - intros s v r. cbn [parse_value]. destruct s as [|c s]; [discriminate|].
    destruct (c =? ch "034").
    { destruct (parse_string s) as [[t rest]|] eqn:E; [|discriminate].
      intros H; injection H as <- <-. apply parse_string_length in E. cbn; lia. }
    destruct (c =? ch "[").
    { pose proof (skip_ws_length s) as Hs.
      destruct (skip_ws s) as [|d r'] eqn:Ews; [discriminate|].
      destruct (d =? ch "]"); [intros H; injection H as <- <-; cbn in *; lia|].
      destruct (parse_elements f (d :: r')) as [[l rest]|] eqn:E; [|discriminate].
      intros H; injection H as <- <-. apply IHe in E. cbn in *; lia. }
    destruct (c =? ch "{").
    { pose proof (skip_ws_length s) as Hs.
      destruct (skip_ws s) as [|d r'] eqn:Ews; [discriminate|].
      destruct (d =? ch "}"); [intros H; injection H as <- <-; cbn in *; lia|].
      destruct (parse_members f [] (d :: r')) as [[ps rest]|] eqn:E; [|discriminate].
      intros H; injection H as <- <-. apply IHm in E. cbn in *; lia. }
    destruct (c =? ch "t").
    { destruct (starts_with (str "true") (c :: s)) as [rest|] eqn:E; [|discriminate].
      intros H; injection H as <- <-.
      apply starts_with_length in E; [exact E | discriminate]. }
    destruct (c =? ch "f").
    { destruct (starts_with (str "false") (c :: s)) as [rest|] eqn:E; [|discriminate].
      intros H; injection H as <- <-.
      apply starts_with_length in E; [exact E | discriminate]. }
    destruct (c =? ch "n").
    { destruct (starts_with (str "null") (c :: s)) as [rest|] eqn:E; [|discriminate].
      intros H; injection H as <- <-.
      apply starts_with_length in E; [exact E | discriminate]. }
    destruct (parse_number (c :: s)) as [[n rest]|] eqn:E; [|discriminate].
    intros H; injection H as <- <-. now apply parse_number_length in E.
  - intros s l r. cbn [parse_elements].
    destruct (parse_value f s) as [[v r1]|] eqn:Ev; [|discriminate].
    apply IHv in Ev. pose proof (skip_ws_length r1) as Hs.
    destruct (skip_ws r1) as [|c r'] eqn:Ews; [discriminate|].
    destruct (c =? ch ",").
    + pose proof (skip_ws_length r') as Hs'.
      destruct (parse_elements f (skip_ws r')) as [[l' rest]|] eqn:E; [|discriminate].
      intros H; injection H as <- <-. apply IHe in E. cbn in *; lia.
    + destruct (c =? ch "]"); [|discriminate].
      intros H; injection H as <- <-. cbn in *; lia.
  - intros acc s ps r. cbn [parse_members]. destruct s as [|q r0]; [discriminate|].
    destruct (negb (q =? ch "034")); [discriminate|].
    destruct (parse_string r0) as [[k r1]|] eqn:Ek; [|discriminate].
    apply parse_string_length in Ek. pose proof (skip_ws_length r1) as Hs1.
    destruct (skip_ws r1) as [|c r2] eqn:Ews1; [discriminate|].
    destruct (negb (c =? ch ":")); [discriminate|].
    pose proof (skip_ws_length r2) as Hs2.
    destruct (parse_value f (skip_ws r2)) as [[v r3]|] eqn:Ev; [|discriminate].
    apply IHv in Ev. pose proof (skip_ws_length r3) as Hs3.
    destruct (skip_ws r3) as [|d r4] eqn:Ews3; [discriminate|].
    destruct (d =? ch ",").
    + pose proof (skip_ws_length r4) as Hs4. intros E. apply IHm in E.
      cbn in *; lia.
    + destruct (d =? ch "}"); [|discriminate].
      intros H; injection H as <- <-. cbn in *; lia.
Qed.

Lemma value_step (f : nat) (s : jsstring) :
  parse_value (S f) s
  = match s with
    | [] => None
    | c :: r =>
        if c =? ch "034" then
          match parse_string r with
          | Some (t, rest) => Some (VStr t, rest)
          | None => None
          end
        else if c =? ch "[" then
          match skip_ws r with
          | d :: r' =>
              if d =? ch "]" then Some (VArr [], r')
              else match parse_elements f (d :: r') with
                   | Some (l, rest) => Some (VArr l, rest)
                   | None => None
                   end
          | [] => None
          end
        else if c =? ch "{" then
          match skip_ws r with
          | d :: r' =>
              if d =? ch "}" then Some (VObj [], r')
              else match parse_members f [] (d :: r') with
                   | Some (ps, rest) => Some (VObj ps, rest)
                   | None => None
                   end
          | [] => None
          end
        else if c =? ch "t" then
          match starts_with (str "true") s with
          | Some rest => Some (VBool true, rest)
          | None => None
          end
        else if c =? ch "f" then
          match starts_with (str "false") s with
          | Some rest => Some (VBool false, rest)
          | None => None
          end
        else if c =? ch "n" then
          match starts_with (str "null") s with
          | Some rest => Some (VNull, rest)
          | None => None
          end
        else
          match parse_number s with
          | Some (n, rest) => Some (VNum n, rest)
          | None => None
          end
    end.
Proof. reflexivity. Qed.

Lemma elements_step (f : nat) (s : jsstring) :
  parse_elements (S f) s
  = match parse_value f s with
    | None => None
    | Some (v, r) =>
        match skip_ws r with
        | c :: r' =>
            if c =? ch "," then
              match parse_elements f (skip_ws r') with
              | Some (l, rest) => Some (v :: l, rest)
              | None => None
              end
            else if c =? ch "]" then Some ([v], r')
            else None
        | [] => None
        end
    end.
Proof. reflexivity. Qed.

Lemma members_step (f : nat) (acc : list (jsstring * value)) (s : jsstring) :
  parse_members (S f) acc s
  = match s with
    | [] => None
    | q :: r0 =>
        if negb (q =? ch "034") then None
        else
          match parse_string r0 with
          | None => None
          | Some (k, r1) =>
              match skip_ws r1 with
              | c :: r2 =>
                  if negb (c =? ch ":") then None
                  else
                    match parse_value f (skip_ws r2) with
                    | None => None
                    | Some (v, r3) =>
                        match skip_ws r3 with
                        | d :: r4 =>
                            if d =? ch ","
                            then parse_members f (set_prop k v acc) (skip_ws r4)
                            else if d =? ch "}" then Some (set_prop k v acc, r4)
                            else None
                        | [] => None
                        end
                    end
              | [] => None
              end
          end
    end.
Proof. reflexivity. Qed.

(** With fuel above twice the length of the text, one more unit of fuel
    changes no result. *)
Lemma fuel_step (fuel : nat) :
  (forall s, (2 * length s + 1 <= fuel)%nat ->
             parse_value fuel s = parse_value (S fuel) s)
  /\ (forall s, (2 * length s + 2 <= fuel)%nat ->
                parse_elements fuel s = parse_elements (S fuel) s)
  /\ (forall acc s, (2 * length s + 2 <= fuel)%nat ->
                    parse_members fuel acc s = parse_members (S fuel) acc s).
Proof.
  induction fuel as [|f (IHv & IHe & IHm)]; [repeat split; intros; lia|].
  destruct (parse_consumes f) as (Cv & Ce & Cm).
  repeat split.
  - intros s Hf. rewrite (value_step (S f)), (value_step f).
    destruct s as [|c r]; [reflexivity|].
    pose proof (skip_ws_length r) as Hs. cbn [length] in Hf.
    destruct (skip_ws r) as [|d r'] eqn:Ews; [reflexivity|]. cbn [length] in Hs.
    rewrite <- (IHe (d :: r')) by (cbn [length]; lia).
    rewrite <- (IHm [] (d :: r')) by (cbn [length]; lia).
    reflexivity.
  - intros s Hf. rewrite (elements_step (S f)), (elements_step f).
    rewrite <- (IHv s) by lia.
    destruct (parse_value f s) as [[v r]|] eqn:Ev; [|reflexivity].
    apply Cv in Ev. pose proof (skip_ws_length r) as Hs.
    destruct (skip_ws r) as [|c r'] eqn:Ews; [reflexivity|]. cbn [length] in Hs.
    pose proof (skip_ws_length r') as Hs'.
    rewrite <- (IHe (skip_ws r')) by lia. reflexivity.
  - intros acc s Hf. rewrite (members_step (S f)), (members_step f).
    destruct s as [|q r0]; [reflexivity|]. cbn [length] in Hf.
    destruct (negb (q =? ch "034")); [reflexivity|].
    destruct (parse_string r0) as [[k r1]|] eqn:Ek; [|reflexivity].
    apply parse_string_length in Ek. pose proof (skip_ws_length r1) as Hs1.
    destruct (skip_ws r1) as [|c r2] eqn:Ews1; [reflexivity|]. cbn [length] in Hs1.
    destruct (negb (c =? ch ":")); [reflexivity|].
    pose proof (skip_ws_length r2) as Hs2.
    rewrite <- (IHv (skip_ws r2)) by lia.
    destruct (parse_value f (skip_ws r2)) as [[v r3]|] eqn:Ev; [|reflexivity].
    apply Cv in Ev. pose proof (skip_ws_length r3) as Hs3.
    destruct (skip_ws r3) as [|d r4] eqn:Ews3; [reflexivity|]. cbn [length] in Hs3.
    pose proof (skip_ws_length r4) as Hs4.
    rewrite <- (IHm (set_prop k v acc) (skip_ws r4)) by lia. reflexivity.
Qed.

(** [JSON.parse] supplies enough fuel: with more of it the parser returns
    the same, so that a rejection is never for want of fuel. *)
Lemma parse_fuel_adequate (text : jsstring) (fuel : nat) :
  (2 * length text + 2 <= fuel)%nat ->
  parse_value fuel (skip_ws text) = parse_value (2 * length text + 2) (skip_ws text).
Proof.
  intros H. pose proof (skip_ws_length text) as Hs.
  induction H as [|m Hm IH]; [reflexivity|].
  rewrite <- IH. symmetry. apply fuel_step. lia.
Qed.

End ParserFuel.

Module Base64Facts.
Import Base64 Base64Parts.

(** ** Base64 *)

Lemma range_complete (n : nat) (x : Z) : 0 <= x < Z.of_nat n -> In x (range n).
Proof.
  intros Hx. unfold range. apply in_map_iff.
  exists (Z.to_nat x). split; [lia|]. apply in_seq. lia.
Qed.

Lemma forall_range (n : nat) (f : Z -> bool) :
  forallb f (range n) = true -> forall x, 0 <= x < Z.of_nat n -> f x = true.
Proof.
  intros H x Hx. rewrite forallb_forall in H. now apply H, range_complete.
Qed.

Lemma forall_range2 (n m : nat) (f : Z -> Z -> bool) :
  forallb (fun x => forallb (f x) (range m)) (range n) = true ->
  forall x y, 0 <= x < Z.of_nat n -> 0 <= y < Z.of_nat m -> f x y = true.
Proof.
  intros H x y Hx Hy.
  pose proof (forall_range n _ H x Hx) as H'. cbv beta in H'.
  now apply (forall_range m _ H').
Qed.

Lemma latin1_byte (c : Z) : latin1 c = true <-> byte c.
Proof. unfold latin1, byte. lia. Qed.

(** The sextets of three bytes give the bytes back. *)
Lemma byte0_sextets (a b : Z) : byte a -> byte b -> byte0 (sextet0 a) (sextet1 a b) = a.
Proof.
  intros Ha Hb. apply Z.eqb_eq.
  apply (forall_range2 256 256 (fun a b => byte0 (sextet0 a) (sextet1 a b) =? a));
    [vm_compute; reflexivity | exact Ha | exact Hb].
Qed.

Lemma sextet1_low (a b : Z) : byte a -> byte b -> Z.land (sextet1 a b) 15 = Z.shiftr b 4.
Proof.
  intros Ha Hb. apply Z.eqb_eq.
  apply (forall_range2 256 256 (fun a b => Z.land (sextet1 a b) 15 =? Z.shiftr b 4));
    [vm_compute; reflexivity | exact Ha | exact Hb].
Qed.

Lemma sextet2_high (b c : Z) : byte b -> byte c -> Z.shiftr (sextet2 b c) 2 = Z.land b 15.
Proof.
  intros Hb Hc. apply Z.eqb_eq.
  apply (forall_range2 256 256 (fun b c => Z.shiftr (sextet2 b c) 2 =? Z.land b 15));
    [vm_compute; reflexivity | exact Hb | exact Hc].
Qed.

Lemma nibbles (b : Z) : byte b -> Z.lor (Z.shiftl (Z.shiftr b 4) 4) (Z.land b 15) = b.
Proof.
  intros Hb. apply Z.eqb_eq.
  apply (forall_range 256 (fun b => Z.lor (Z.shiftl (Z.shiftr b 4) 4) (Z.land b 15) =? b));
    [vm_compute; reflexivity | exact Hb].
Qed.

Lemma byte1_sextets (a b c : Z) :
  byte a -> byte b -> byte c -> byte1 (sextet1 a b) (sextet2 b c) = b.
Proof.
  intros Ha Hb Hc. unfold byte1.
  rewrite sextet1_low, sextet2_high by assumption. now apply nibbles.
Qed.

Lemma byte2_sextets (b c : Z) : byte b -> byte c -> byte2 (sextet2 b c) (sextet3 c) = c.
Proof.
  intros Hb Hc. apply Z.eqb_eq.
  apply (forall_range2 256 256 (fun b c => byte2 (sextet2 b c) (sextet3 c) =? c));
    [vm_compute; reflexivity | exact Hb | exact Hc].
Qed.

Lemma sextet0_range (a : Z) : byte a -> sextet (sextet0 a).
Proof.
  intros Ha. unfold sextet.
  assert (H : ((0 <=? sextet0 a) && (sextet0 a <? 64)) = true); [|lia].
  apply (forall_range 256 (fun a => (0 <=? sextet0 a) && (sextet0 a <? 64)));
    [vm_compute; reflexivity | exact Ha].
Qed.

Lemma sextet1_range (a b : Z) : byte a -> byte b -> sextet (sextet1 a b).
Proof.
  intros Ha Hb. unfold sextet.
  assert (H : ((0 <=? sextet1 a b) && (sextet1 a b <? 64)) = true); [|lia].
  apply (forall_range2 256 256 (fun a b => (0 <=? sextet1 a b) && (sextet1 a b <? 64)));
    [vm_compute; reflexivity | exact Ha | exact Hb].
Qed.

Lemma sextet2_range (b c : Z) : byte b -> byte c -> sextet (sextet2 b c).
Proof.
  intros Hb Hc. unfold sextet.
  assert (H : ((0 <=? sextet2 b c) && (sextet2 b c <? 64)) = true); [|lia].
  apply (forall_range2 256 256 (fun b c => (0 <=? sextet2 b c) && (sextet2 b c <? 64)));
    [vm_compute; reflexivity | exact Hb | exact Hc].
Qed.

Lemma sextet3_range (c : Z) : byte c -> sextet (sextet3 c).
Proof.
  intros Hc. unfold sextet.
  assert (H : ((0 <=? sextet3 c) && (sextet3 c <? 64)) = true); [|lia].
  apply (forall_range 256 (fun c => (0 <=? sextet3 c) && (sextet3 c <? 64)));
    [vm_compute; reflexivity | exact Hc].
Qed.

Lemma byte_0 : byte 0.
Proof. unfold byte; lia. Qed.

(** A character of the alphabet reads back as its index; it is neither
    white space nor the padding character. *)
Lemma index_alphabet (i : Z) :
  sextet i ->
  index (alphabet i) = Some i
  /\ ascii_whitespace (alphabet i) = false
  /\ (alphabet i =? ch "=") = false.
Proof.
  intros Hi.
  assert (H : (match index (alphabet i) with Some j => j =? i | None => false end
               && negb (ascii_whitespace (alphabet i))
               && negb (alphabet i =? ch "=")) = true).
  { apply (forall_range 64 (fun i =>
             match index (alphabet i) with Some j => j =? i | None => false end
             && negb (ascii_whitespace (alphabet i))
             && negb (alphabet i =? ch "="))); [vm_compute; reflexivity | exact Hi]. }
  apply andb_true_iff in H as [H H3]. apply andb_true_iff in H as [H1 H2].
  destruct (index (alphabet i)) as [j|]; [|discriminate].
  apply Z.eqb_eq in H1; subst j.
  repeat split; [now apply negb_true_iff | now apply negb_true_iff].
Qed.

End Base64Facts.

Module Base64RoundTrip.
Import Base64 Base64Parts Base64Facts.

Lemma list_ind3 {A} (P : list A -> Prop) :
  P [] -> (forall a, P [a]) -> (forall a b, P [a; b]) ->
  (forall a b c l, P l -> P (a :: b :: c :: l)) ->
  forall l, P l.
Proof.
  intros H0 H1 H2 H3 l.
  assert (H : P l /\ (forall a, P (a :: l)) /\ (forall a b, P (a :: b :: l))).
  { induction l as [|x l (IH0 & IH1 & IH2)]; [auto|].
    split; [apply IH1|]. split; [intros a; apply IH2|].
    intros a b. now apply H3. }
  apply H.
Qed.

Lemma encode_body_padding (l : list Z) : encode l = body l ++ padding l.
Proof.
  induction l as [| | |a b c l IH] using list_ind3; try reflexivity.
  cbn [encode body padding app]. now rewrite IH.
Qed.

Lemma encode_length (l : list Z) : Z.of_nat (length (encode l)) mod 4 = 0.
Proof.
  induction l as [| | |a b c l IH] using list_ind3; try reflexivity.
  cbn [encode length]. rewrite !Nat2Z.inj_succ.
  replace (Z.succ (Z.succ (Z.succ (Z.succ (Z.of_nat (length (encode l))))))) 
    with (Z.of_nat (length (encode l)) + 1 * 4) by lia.
  now rewrite Z.mod_add by lia.
Qed.

Lemma body_length (l : list Z) : Z.of_nat (length (body l)) mod 4 <> 1.
Proof.
  induction l as [| | |a b c l IH] using list_ind3; try (vm_compute; discriminate).
  cbn [body length]. rewrite !Nat2Z.inj_succ.
  replace (Z.succ (Z.succ (Z.succ (Z.succ (Z.of_nat (length (body l)))))))
    with (Z.of_nat (length (body l)) + 1 * 4) by lia.
  now rewrite Z.mod_add by lia.
Qed.

Lemma remove_padding_cons (c : Z) (rest : jsstring) :
  (c =? ch "=") = false -> remove_padding (c :: rest) = c :: remove_padding rest.
Proof.
  intros Hc. destruct rest as [|d [|e r]]; cbn -[Z.eqb ch]; try rewrite Hc; reflexivity.
Qed.

Ltac sextets :=
  match goal with
  | |- sextet (sextet0 _) => apply sextet0_range
  | |- sextet (sextet1 _ _) => apply sextet1_range
  | |- sextet (sextet2 _ _) => apply sextet2_range
  | |- sextet (sextet3 _) => apply sextet3_range
  end; try assumption; try apply byte_0.

Ltac bytes_of_list H :=
  repeat match type of H with
         | Forall byte (_ :: _) =>
             let Hb := fresh "Hb" in
             apply Forall_cons_iff in H as [Hb H]
         end.

Lemma not_padding (i : Z) : sextet i -> (alphabet i =? ch "=") = false.
Proof. intros Hi. now apply index_alphabet. Qed.

Lemma not_whitespace (i : Z) : sextet i -> ascii_whitespace (alphabet i) = false.
Proof. intros Hi. now apply index_alphabet. Qed.

Lemma index_of_alphabet (i : Z) : sextet i -> index (alphabet i) = Some i.
Proof. intros Hi. now apply index_alphabet. Qed.

Lemma remove_padding_encode (l : list Z) :
  Forall byte l -> remove_padding (body l ++ padding l) = body l.
Proof.
  induction l as [|a|a b|a b c l IH] using list_ind3; intros H; bytes_of_list H.
  - reflexivity.
  - cbn [body padding app]. rewrite !remove_padding_cons by (apply not_padding; sextets).
    reflexivity.
  - cbn [body padding app]. rewrite !remove_padding_cons by (apply not_padding; sextets).
    reflexivity.
  - cbn [body padding app]. rewrite !remove_padding_cons by (apply not_padding; sextets).
    now rewrite IH.
Qed.

Lemma encode_no_whitespace (l : list Z) :
  Forall byte l -> filter (fun c => negb (ascii_whitespace c)) (encode l) = encode l.
Proof.
  induction l as [|a|a b|a b c l IH] using list_ind3; intros H; bytes_of_list H.
  - reflexivity.
  - cbn [encode filter]. rewrite !not_whitespace by sextets. reflexivity.
  - cbn [encode filter]. rewrite !not_whitespace by sextets. reflexivity.
  - cbn [encode filter]. rewrite !not_whitespace by sextets. cbn [negb].
    now rewrite IH.
Qed.

Lemma indices_body (l : list Z) : Forall byte l -> indices (body l) = Some (sextets l).
Proof.
  induction l as [|a|a b|a b c l IH] using list_ind3; intros H; bytes_of_list H.
  - reflexivity.
  - cbn [body indices]. rewrite !index_of_alphabet by sextets. reflexivity.
  - cbn [body indices]. rewrite !index_of_alphabet by sextets. reflexivity.
  - cbn [body indices]. rewrite !index_of_alphabet by sextets. now rewrite IH.
Qed.

Lemma bytes_of_sextets (l : list Z) : Forall byte l -> bytes_of (sextets l) = l.
Proof.
  induction l as [|a|a b|a b c l IH] using list_ind3; intros H; bytes_of_list H.
  - reflexivity.
  - cbn [sextets bytes_of]. now rewrite byte0_sextets by (assumption || apply byte_0).
  - cbn [sextets bytes_of].
    now rewrite byte0_sextets, byte1_sextets by (assumption || apply byte_0).
  - cbn [sextets bytes_of].
    rewrite byte0_sextets, byte1_sextets, byte2_sextets by assumption.
    now rewrite IH.
Qed.

(** [atob] undoes [btoa] on every string [btoa] accepts. *)
Lemma atob_encode (l : list Z) : Forall byte l -> atob (encode l) = Ok l.
Proof.
  intros H. unfold atob.
  rewrite encode_no_whitespace by assumption.
  rewrite encode_length. cbn [Z.eqb].
  rewrite encode_body_padding, remove_padding_encode by assumption.
  destruct (Z.of_nat (length (body l)) mod 4 =? 1) eqn:E.
  - apply Z.eqb_eq in E. now destruct (body_length l).
  - now rewrite indices_body, bytes_of_sextets.
Qed.

Lemma btoa_latin1 (s : jsstring) : Forall byte s -> btoa s = Ok (encode s).
Proof.
  intros H. unfold btoa.
  assert (E : forallb latin1 s = true).
  { apply forallb_forall. intros c Hc. apply latin1_byte.
    rewrite Forall_forall in H. now apply H. }
  now rewrite E.
Qed.

End Base64RoundTrip.

Module DateFacts.
Import Date.

(** ** The calendar *)

Ltac arith := Z.div_mod_to_equations; lia.

Lemma DayFromYear_step (y : Z) : DayFromYear (y + 1) = DayFromYear y + DaysInYear y.
Proof.
  unfold DayFromYear, DaysInYear, leap.
  destruct (y mod 4 =? 0) eqn:E4; destruct (y mod 100 =? 0) eqn:E100;
    destruct (y mod 400 =? 0) eqn:E400; cbn [andb orb negb];
    rewrite ?Z.eqb_eq, ?Z.eqb_neq in *; arith.
Qed.

Lemma DayFromYear_bounds (y : Z) :
  146097 * (y - 1970) - 800 <= 400 * DayFromYear y <= 146097 * (y - 1970) + 800.
Proof. unfold DayFromYear. arith. Qed.

Lemma YearFromDay_spec (d : Z) :
  DayFromYear (YearFromDay d) <= d < DayFromYear (YearFromDay d + 1).
Proof.
  unfold YearFromDay.
  set (y := 1970 + 400 * d / 146097).
  assert (Hy : 146097 * (y - 1970) <= 400 * d < 146097 * (y - 1970) + 146097)
    by (unfold y; arith).
  pose proof (DayFromYear_bounds (y - 1)) as B1.
  pose proof (DayFromYear_bounds (y + 1 + 1)) as B2.
  destruct (d <? DayFromYear y) eqn:E1; [|destruct (DayFromYear (y + 1) <=? d) eqn:E2].
  - replace (y - 1 + 1) with y by lia. lia.
  - lia.
  - lia.
Qed.

Lemma MonthFromDay_spec (l : bool) (diy : Z) :
  0 <= diy < (if l then 366 else 365) ->
  0 <= MonthFromDay l diy <= 11
  /\ month_start l (MonthFromDay l diy) <= diy
     < month_start l (MonthFromDay l diy + 1).
Proof.
  intros H. unfold MonthFromDay.
  destruct l;
    repeat match goal with
           | |- context [if ?a <? ?b then _ else _] => destruct (Z.ltb_spec a b)
           end; cbn; lia.
Qed.

Lemma year_range (tv : Z) :
  Z.abs tv <= maxTime -> -999999 <= YearFromTime tv <= 999999.
Proof.
  intros H. unfold YearFromTime.
  pose proof (YearFromDay_spec (Day tv)) as Hy.
  pose proof (DayFromYear_bounds (YearFromDay (Day tv))) as B1.
  pose proof (DayFromYear_bounds (YearFromDay (Day tv) + 1)) as B2.
  assert (Hd : -100000000 <= Day tv <= 100000000)
    by (unfold Day, msPerDay, maxTime in *; arith).
  lia.
Qed.

Lemma day_within_year (tv : Z) :
  0 <= DayWithinYear tv < (if InLeapYear tv then 366 else 365).
Proof.
  unfold DayWithinYear, InLeapYear, YearFromTime.
  pose proof (YearFromDay_spec (Day tv)) as Hy.
  rewrite DayFromYear_step in Hy. unfold DaysInYear in Hy.
  destruct (leap (YearFromDay (Day tv))); lia.
Qed.

(** The fields [toISOString] prints are in their calendar ranges and make
    up the time value. *)
Lemma date_fields (tv : Z) :
  0 <= MonthFromTime tv <= 11
  /\ 1 <= DateFromTime tv <= days_in_month (YearFromTime tv) (MonthFromTime tv)
  /\ MakeDay (YearFromTime tv) (MonthFromTime tv) (DateFromTime tv) = Day tv.
Proof.
  pose proof (day_within_year tv) as Hd.
  pose proof (MonthFromDay_spec _ _ Hd) as [Hm Hs].
  unfold MonthFromTime, DateFromTime, days_in_month, MakeDay.
  fold (InLeapYear tv). fold (MonthFromTime tv) in *.
  unfold DayWithinYear in *. lia.
Qed.

Lemma time_fields (tv : Z) :
  0 <= HourFromTime tv <= 23 /\ 0 <= MinFromTime tv <= 59
  /\ 0 <= SecFromTime tv <= 59 /\ 0 <= msFromTime tv <= 999
  /\ MakeTime (HourFromTime tv) (MinFromTime tv) (SecFromTime tv) (msFromTime tv)
     = TimeWithinDay tv.
Proof.
  unfold HourFromTime, MinFromTime, SecFromTime, msFromTime, MakeTime,
    TimeWithinDay, msPerDay.
  arith.
Qed.

Lemma MakeDate_Day (tv : Z) : MakeDate (Day tv) (TimeWithinDay tv) = tv.
Proof. unfold MakeDate, Day, TimeWithinDay, msPerDay. arith. Qed.

(** ** The decimal fields *)

Lemma dig_range (n : Z) : 48 <= dig n <= 57.
Proof. unfold dig. change (ch "0") with 48. arith. Qed.

Lemma digit_dig (n : Z) : JSON.digit (dig n) = Some (n mod 10).
Proof.
  pose proof (dig_range n) as H. unfold JSON.digit.
  change (ch "0") with 48. change (ch "9") with 57.
  destruct (Z.leb_spec 48 (dig n)); [|lia].
  destruct (Z.leb_spec (dig n) 57); [|lia].
  cbn [andb]. f_equal. unfold dig. change (ch "0") with 48. lia.
Qed.

Lemma num2_pad (n : Z) : 0 <= n < 100 -> num2 (dig (n / 10)) (dig n) = Some n.
Proof.
  intros H. unfold num2. rewrite !digit_dig. f_equal. arith.
Qed.

Lemma num3_pad (n : Z) :
  0 <= n < 1000 -> num3 (dig (n / 100)) (dig (n / 10)) (dig n) = Some n.
Proof.
  intros H. unfold num3, num2. rewrite !digit_dig. f_equal. arith.
Qed.

Lemma num4_pad (n : Z) :
  0 <= n < 10000 ->
  num4 (dig (n / 1000)) (dig (n / 100)) (dig (n / 10)) (dig n) = Some n.
Proof.
  intros H. unfold num4, num2. rewrite !digit_dig. f_equal. arith.
Qed.

Lemma num6_pad (n : Z) :
  0 <= n < 1000000 ->
  num6 (dig (n / 100000)) (dig (n / 10000)) (dig (n / 1000))
       (dig (n / 100)) (dig (n / 10)) (dig n) = Some n.
Proof.
  intros H. unfold num6, num3, num2. rewrite !digit_dig. f_equal. arith.
Qed.

Lemma dig_not_sign (n : Z) : ((dig n =? ch "+") || (dig n =? ch "-")) = false.
Proof.
  pose proof (dig_range n) as H.
  change (ch "+") with 43. change (ch "-") with 45.
  apply orb_false_iff; split; apply Z.eqb_neq; lia.
Qed.

Lemma parse_year_string (y : Z) (rest : jsstring) :
  -999999 <= y <= 999999 -> parse_year (year_string y ++ rest) = Some (y, rest).
Proof.
  intros Hy. unfold year_string.
  destruct (Z.leb_spec 0 y) as [H0|H0]; [destruct (Z.leb_spec y 9999) as [H1|H1]|];
    cbn [andb].
  - cbn [pad4 app]. unfold parse_year. rewrite dig_not_sign.
    now rewrite num4_pad by lia.
  - destruct (Z.ltb_spec y 0); [lia|].
    cbn [pad6 app]. unfold parse_year.
    change ((ch "+" =? ch "+") || (ch "+" =? ch "-")) with true. cbv iota.
    rewrite num6_pad by lia.
    change (ch "+" =? ch "+") with true. cbv iota.
    f_equal. f_equal. lia.
  - destruct (Z.ltb_spec y 0); [|lia].
    cbn [pad6 app]. unfold parse_year.
    change ((ch "-" =? ch "+") || (ch "-" =? ch "-")) with true. cbv iota.
    rewrite num6_pad by lia.
    change (ch "-" =? ch "+") with false. cbv iota.
    destruct (Z.eqb_spec (Z.abs y) 0); [lia|].
    f_equal. f_equal. lia.
Qed.

Lemma parse_rest_fields (mo d h mi sec ms : Z) :
  0 <= mo < 100 -> 0 <= d < 100 -> 0 <= h < 100 -> 0 <= mi < 100 ->
  0 <= sec < 100 -> 0 <= ms < 1000 ->
  parse_rest (ch "-" :: pad2 mo ++ ch "-" :: pad2 d ++ ch "T" :: pad2 h
                ++ ch ":" :: pad2 mi ++ ch ":" :: pad2 sec
                ++ ch "." :: pad3 ms ++ [ch "Z"])
  = Some (mo, d, h, mi, sec, ms).
Proof.
  intros. cbn [pad2 pad3 app]. unfold parse_rest.
  change ((ch "-" =? ch "-") && (ch "-" =? ch "-") && (ch "T" =? ch "T")
          && (ch ":" =? ch ":") && (ch ":" =? ch ":") && (ch "." =? ch ".")
          && (ch "Z" =? ch "Z")) with true. cbv iota.
  now rewrite !num2_pad, num3_pad by assumption.
Qed.

(** [Date.parse] reads back what [toISOString] prints. *)
Lemma parse_iso_string (tv : Z) :
  Z.abs tv <= maxTime -> parse_iso (iso_string tv) = Some (Some tv).
Proof.
  intros Hr.
  pose proof (year_range tv Hr) as Hy.
  pose proof (date_fields tv) as (Hm & Hd & Hday).
  pose proof (time_fields tv) as (Hh & Hmi & Hs & Hms & Htime).
  assert (Hdim : days_in_month (YearFromTime tv) (MonthFromTime tv) <= 31).
  { unfold days_in_month, month_start.
    destruct (leap (YearFromTime tv));
      repeat match goal with
             | |- context [if ?a =? ?b then _ else _] => destruct (Z.eqb_spec a b)
             end; lia. }
  unfold parse_iso, iso_string.
  rewrite parse_year_string by assumption.
  rewrite parse_rest_fields by lia.
  replace (MonthFromTime tv + 1 - 1) with (MonthFromTime tv) by lia.
  assert (E : ((1 <=? MonthFromTime tv + 1) && (MonthFromTime tv + 1 <=? 12)
               && (1 <=? DateFromTime tv)
               && (DateFromTime tv <=? days_in_month (YearFromTime tv) (MonthFromTime tv))
               && (HourFromTime tv <=? 23) && (MinFromTime tv <=? 59)
               && (SecFromTime tv <=? 59)) = true).
  { repeat (apply andb_true_iff; split); apply Z.leb_le; lia. }
  rewrite E, Hday, Htime, MakeDate_Day.
  unfold TimeClip. apply Z.leb_le in Hr. now rewrite Hr.
Qed.

Lemma parse_toISOString (host : Host) (tv : Z) :
  Z.abs tv <= maxTime -> parse host (iso_string tv) = Some tv.
Proof.
  intros Hr. unfold parse. now rewrite parse_iso_string.
Qed.

End DateFacts.

Module JSONFacts.
Import JSON ShareText.

(** ** JSON texts of share states *)

Lemma simple_range (c : Z) :
  simple c = true ->
  32 <= c < 126 /\ c <> 34 /\ c <> 92 /\ c <> 62 /\ c <> 63.
Proof.
  unfold simple. change (ch "034") with 34. change (ch "\") with 92.
  change (ch ">") with 62. change (ch "?") with 63. lia.
Qed.

Lemma escape_unit_simple (c : Z) : simple c = true -> escape_unit c = [c].
Proof.
  intros H. apply simple_range in H. unfold escape_unit, high_surrogate, low_surrogate.
  change (ch "034") with 34. change (ch "\") with 92.
  repeat match goal with
         | |- context [if ?a =? ?b then _ else _] => destruct (Z.eqb_spec a b); [lia|]
         end.
  destruct (Z.ltb_spec c 32); [lia|].
  destruct (Z.leb_spec 55296 c); [lia|].
  destruct (Z.leb_spec 56320 c); [lia|]. reflexivity.
Qed.

Lemma quote_body_simple (s : jsstring) :
  Forall (fun c => simple c = true) s -> quote_body s = s.
Proof.
  induction 1 as [|c s Hc _ IH]; [reflexivity|].
  cbn [quote_body].
  assert (Hh : high_surrogate c = false).
  { apply simple_range in Hc. unfold high_surrogate.
    destruct (Z.leb_spec 55296 c); [lia | reflexivity]. }
  now rewrite Hh, escape_unit_simple, IH.
Qed.

Lemma parse_string_simple (s rest : jsstring) :
  Forall (fun c => simple c = true) s ->
  parse_string (s ++ ch "034" :: rest) = Some (s, rest).
Proof.
  induction 1 as [|c s Hc _ IH]; [reflexivity|].
  cbn [app parse_string]. apply simple_range in Hc.
  change (ch "034") with 34 in *. change (ch "\") with 92.
  destruct (Z.eqb_spec c 34); [lia|]. destruct (Z.eqb_spec c 92); [lia|].
  destruct (Z.ltb_spec c 32); [lia|]. now rewrite IH.
Qed.

Lemma skip_ws_other (c : Z) (r : jsstring) : is_ws c = false -> skip_ws (c :: r) = c :: r.
Proof. intros H. cbn [skip_ws]. now rewrite H. Qed.

Lemma parse_value_string (f : nat) (r : jsstring) :
  parse_value (S f) (ch "034" :: r)
  = match parse_string r with
    | Some (t, rest) => Some (VStr t, rest)
    | None => None
    end.
Proof. reflexivity. Qed.

Lemma parse_members_step (f : nat) (acc : list (jsstring * value)) (r0 : jsstring) :
  parse_members (S f) acc (ch "034" :: r0)
  = match parse_string r0 with
    | None => None
    | Some (k, r1) =>
        match skip_ws r1 with
        | c :: r2 =>
            if negb (c =? ch ":") then None
            else
              match parse_value f (skip_ws r2) with
              | None => None
              | Some (v, r3) =>
                  match skip_ws r3 with
                  | d :: r4 =>
                      if d =? ch "," then parse_members f (set_prop k v acc) (skip_ws r4)
                      else if d =? ch "}" then Some (set_prop k v acc, r4)
                      else None
                  | [] => None
                  end
              end
        | [] => None
        end
    end.
Proof. reflexivity. Qed.

Lemma parse_value_object (f : nat) (r : jsstring) :
  parse_value (S f) (ch "{" :: ch "034" :: r)
  = match parse_members f [] (ch "034" :: r) with
    | Some (ps, rest) => Some (VObj ps, rest)
    | None => None
    end.
Proof. reflexivity. Qed.

Lemma parse_value_array (f : nat) (r : jsstring) :
  parse_value (S f) (ch "[" :: ch "034" :: r)
  = match parse_elements f (ch "034" :: r) with
    | Some (l, rest) => Some (VArr l, rest)
    | None => None
    end.
Proof. reflexivity. Qed.

Lemma parse_value_empty_array (f : nat) (r : jsstring) :
  parse_value (S f) (ch "[" :: ch "]" :: r) = Some (VArr [], r).
Proof. reflexivity. Qed.

Lemma parse_elements_step (f : nat) (s : jsstring) :
  parse_elements (S f) s
  = match parse_value f s with
    | None => None
    | Some (v, r) =>
        match skip_ws r with
        | c :: r' =>
            if c =? ch "," then
              match parse_elements f (skip_ws r') with
              | Some (l, rest) => Some (v :: l, rest)
              | None => None
              end
            else if c =? ch "]" then Some ([v], r')
            else None
        | [] => None
        end
    end.
Proof. reflexivity. Qed.

Lemma quote_simple (s : jsstring) (rest : jsstring) :
  simple_string s -> quote s ++ rest = ch "034" :: s ++ ch "034" :: rest.
Proof.
  intros H. unfold quote. rewrite quote_body_simple by assumption.
  cbn [app]. now rewrite <- app_assoc.
Qed.

(** The elements of an array of strings that need no escape. *)
Lemma parse_elements_strings (ids : list jsstring) :
  Forall simple_string ids -> ids <> [] ->
  forall (fuel : nat) (rest : jsstring),
    (length ids < fuel)%nat ->
    parse_elements fuel (join_comma (map quote ids) ++ ch "]" :: rest)
    = Some (map VStr ids, rest).
Proof.
  induction 1 as [|i ids Hi Hids IH]; [congruence|]. intros _ fuel rest Hf.
  destruct fuel as [|[|f]]; cbn [length] in Hf; try lia.
  rewrite parse_elements_step.
  destruct ids as [|j ids].
  - cbn [map join_comma]. rewrite quote_simple by assumption.
    rewrite parse_value_string, parse_string_simple by assumption.
    reflexivity.
  - change (join_comma (map quote (i :: j :: ids)))
      with (quote i ++ ch "," :: join_comma (map quote (j :: ids))).
    rewrite <- app_assoc, quote_simple by assumption.
    rewrite parse_value_string, parse_string_simple by assumption.
    cbn [app].
    change (skip_ws (ch "," :: ?r)) with (ch "," :: r).
    change (ch "," =? ch ",") with true. cbv iota.
    assert (Hq : exists r, join_comma (map quote (j :: ids)) ++ ch "]" :: rest
                           = ch "034" :: r).
    { apply Forall_cons_iff in Hids as [Hj _].
      destruct ids as [|k ids]; cbn [map join_comma].
      - rewrite quote_simple by assumption. eauto.
      - rewrite <- app_assoc, quote_simple by assumption. eauto. }
    destruct Hq as (r & Hr).
    assert (Hskip : skip_ws (join_comma (map quote (j :: ids)) ++ ch "]" :: rest)
                    = join_comma (map quote (j :: ids)) ++ ch "]" :: rest).
    { rewrite Hr. now apply skip_ws_other. }
    rewrite Hskip, IH; [reflexivity | discriminate | cbn [length] in *; lia].
Qed.

Lemma join_quote_head (ids : list jsstring) (rest : jsstring) :
  Forall simple_string ids -> ids <> [] ->
  exists r, join_comma (map quote ids) ++ rest = ch "034" :: r.
Proof.
  intros H Hne. destruct ids as [|i [|j ids]]; [congruence| |];
    apply Forall_cons_iff in H as [Hi _]; cbn [map join_comma].
  - rewrite quote_simple by assumption. eauto.
  - rewrite <- app_assoc, quote_simple by assumption. eauto.
Qed.

Ltac head_ws :=
  match goal with
  | |- context [skip_ws (ch ?a :: ?r)] => change (skip_ws (ch a :: r)) with (ch a :: r)
  end.

Ltac char_test :=
  match goal with
  | |- context [ch ?a =? ch ?b] =>
      let v := eval vm_compute in (ch a =? ch b) in
      change (ch a =? ch b) with v
  end.

Ltac eat :=
  head_ws; cbv beta iota; repeat (char_test; cbn [negb]; cbv beta iota).

Lemma simple_time_key : simple_string (str "time").
Proof. repeat constructor. Qed.

Lemma simple_timezones_key : simple_string (str "timezones").
Proof. repeat constructor. Qed.

Lemma parse_value_state_text (fuel : nat) (time : jsstring) (ids : list jsstring) :
  simple_string time -> Forall simple_string ids ->
  (length ids + 4 < fuel)%nat ->
  parse_value fuel (state_text time ids)
  = Some (VObj [(str "time", VStr time); (str "timezones", VArr (map VStr ids))], []).
Proof.
  intros Ht Hids Hf.
  destruct fuel as [|[|[|[|f]]]]; try lia.
  unfold state_text.
  rewrite parse_value_object, parse_members_step.
  rewrite (parse_string_simple (str "time")) by exact simple_time_key.
  eat. eat.
  rewrite parse_value_string, parse_string_simple by assumption.
  eat. eat.
  change (set_prop (str "time") (VStr time) []) with [(str "time", VStr time)].
  rewrite parse_members_step.
  rewrite (parse_string_simple (str "timezones")) by exact simple_timezones_key.
  eat. eat.
  assert (Harr : parse_value (S f)
                   (ch "[" :: join_comma (map quote ids) ++ [ch "]"; ch "}"])
                 = Some (VArr (map VStr ids), [ch "}"])).
  { destruct ids as [|i ids].
    - reflexivity.
    - destruct (join_quote_head (i :: ids) [ch "]"; ch "}"] Hids) as (r & Hr);
        [discriminate|].
      rewrite Hr, parse_value_array, <- Hr.
      change [ch "]"; ch "}"] with (ch "]" :: [ch "}"]).
      rewrite parse_elements_strings; [reflexivity | assumption | discriminate | lia]. }
  rewrite Harr. reflexivity.
Qed.

Lemma state_text_length (time : jsstring) (ids : list jsstring) :
  (length ids + 4 < 2 * length (state_text time ids) + 2)%nat.
Proof.
  assert (H : (length ids <= length (join_comma (map quote ids)))%nat).
  { induction ids as [|i [|j ids] IH]; cbn [map join_comma length] in *; [lia| |].
    - unfold quote. cbn [length]. lia.
    - rewrite length_app. cbn [length]. lia. }
  unfold state_text. simpl length. rewrite !length_app. simpl length.
  rewrite !length_app. simpl length. lia.
Qed.

Lemma parse_state_text (time : jsstring) (ids : list jsstring) :
  simple_string time -> Forall simple_string ids ->
  parse (state_text time ids)
  = Ok (VObj [(str "time", VStr time); (str "timezones", VArr (map VStr ids))]).
Proof.
  intros Ht Hids. unfold parse.
  assert (Hs : skip_ws (state_text time ids) = state_text time ids) by reflexivity.
  rewrite Hs, parse_value_state_text; [reflexivity | assumption | assumption |].
  apply state_text_length.
Qed.

Lemma serialize_state (numberToString : number -> jsstring) (time : jsstring)
    (ids : list jsstring) :
  simple_string time ->
  serialize numberToString
    (VObj [(str "time", VStr time); (str "timezones", VArr (map VStr ids))])
  = Some (state_text time ids).
Proof.
  intros Ht.
  cbn [serialize flat_map snd fst app join_comma]. rewrite map_map. cbn [serialize].
  f_equal. unfold state_text.
  change (fun x : jsstring => quote x) with quote.
  repeat (rewrite <- app_assoc; cbn [app]).
  rewrite (quote_simple time) by assumption.
  rewrite (quote_simple (str "time")) by exact simple_time_key.
  rewrite (quote_simple (str "timezones")) by exact simple_timezones_key.
  reflexivity.
Qed.

End JSONFacts.

Module TokenFacts.
Import Base64 Base64Parts Base64Facts Base64RoundTrip ShareText UrlSafety JSONFacts.

(** ** The characters of a token *)

Lemma token_char_url_safe (c : Z) : token_char c = true -> url_safe c = true.
Proof.
  unfold token_char, alnum. change (ch "A") with 65. change (ch "Z") with 90.
  change (ch "a") with 97. change (ch "z") with 122. change (ch "0") with 48.
  change (ch "9") with 57. change (ch "=") with 61.
  intros H.
  assert (Hc : 0 <= c < 128) by lia.
  assert (E : implb (token_char c) (url_safe c) = true).
  { apply (forall_range 128 (fun c => implb (token_char c) (url_safe c)));
      [vm_compute; reflexivity | exact Hc]. }
  assert (Ht : token_char c = true).
  { unfold token_char, alnum. change (ch "A") with 65. change (ch "Z") with 90.
    change (ch "a") with 97. change (ch "z") with 122. change (ch "0") with 48.
    change (ch "9") with 57. change (ch "=") with 61. exact H. }
  now rewrite Ht in E.
Qed.

Lemma clean_range (c : Z) : clean c = true -> 0 <= c < 128.
Proof. unfold clean. lia. Qed.

Lemma clean_byte (c : Z) : clean c = true -> byte c.
Proof. intros H. apply clean_range in H. unfold byte. lia. Qed.

Lemma simple_clean (c : Z) : simple c = true -> clean c = true.
Proof.
  intros H. pose proof (simple_range c H) as Hr.
  assert (E : implb (simple c) (clean c) = true).
  { apply (forall_range 128 (fun c => implb (simple c) (clean c)));
      [vm_compute; reflexivity | lia]. }
  now rewrite H in E.
Qed.

Lemma clean_sextet0 (a : Z) : clean a = true -> alnum (alphabet (sextet0 a)) = true.
Proof.
  intros H. pose proof (clean_range a H) as Hr.
  assert (E : implb (clean a) (alnum (alphabet (sextet0 a))) = true).
  { apply (forall_range 128 (fun a => implb (clean a) (alnum (alphabet (sextet0 a)))));
      [vm_compute; reflexivity | lia]. }
  now rewrite H in E.
Qed.

Lemma clean_sextet1 (a b : Z) :
  clean a = true -> (clean b = true \/ b = 0) -> alnum (alphabet (sextet1 a b)) = true.
Proof.
  intros Ha Hb. pose proof (clean_range a Ha) as Hr.
  assert (Hb' : 0 <= b < 128) by (destruct Hb as [Hb| ->]; [now apply clean_range | lia]).
  apply (forall_range2 128 128 (fun a b => alnum (alphabet (sextet1 a b))));
    [vm_compute; reflexivity | lia | lia].
Qed.

Lemma clean_sextet2 (b c : Z) :
  clean b = true -> (clean c = true \/ c = 0) -> alnum (alphabet (sextet2 b c)) = true.
Proof.
  intros Hb Hc. pose proof (clean_range b Hb) as Hr.
  assert (Hc' : 0 <= c < 128) by (destruct Hc as [Hc| ->]; [now apply clean_range | lia]).
  apply (forall_range2 128 128 (fun b c => alnum (alphabet (sextet2 b c))));
    [vm_compute; reflexivity | lia | lia].
Qed.

Lemma clean_sextet3 (c : Z) : clean c = true -> alnum (alphabet (sextet3 c)) = true.
Proof.
  intros H. pose proof (clean_range c H) as Hr.
  assert (E : implb (clean c) (alnum (alphabet (sextet3 c))) = true).
  { apply (forall_range 128 (fun c => implb (clean c) (alnum (alphabet (sextet3 c)))));
      [vm_compute; reflexivity | lia]. }
  now rewrite H in E.
Qed.

Lemma alnum_token_char (c : Z) : alnum c = true -> token_char c = true.
Proof. intros H. unfold token_char. now rewrite H. Qed.

(** The base64 of clean bytes has letters, digits and padding only. *)
Lemma encode_clean (l : list Z) :
  Forall (fun c => clean c = true) l ->
  Forall (fun c => token_char c = true) (encode l).
Proof.
  induction l as [|a|a b|a b c l IH] using list_ind3; intros H;
    repeat match type of H with
           | Forall _ (_ :: _) =>
               let Hc := fresh "Hc" in apply Forall_cons_iff in H as [Hc H]
           end; cbn [encode].
  - constructor.
  - repeat constructor; apply alnum_token_char;
      [now apply clean_sextet0 | apply clean_sextet1; auto].
  - repeat constructor; try apply alnum_token_char;
      [now apply clean_sextet0 | apply clean_sextet1; auto
      | apply clean_sextet2; auto].
  - repeat apply Forall_cons; try apply alnum_token_char;
      [now apply clean_sextet0 | apply clean_sextet1; auto
      | apply clean_sextet2; auto | now apply clean_sextet3 | now apply IH].
Qed.

End TokenFacts.

Module UrlFacts.
Import URLSearchParams UrlSafety.

(** ** Reading the token back from the link *)

Lemma url_safe_facts (c : Z) :
  url_safe c = true -> 0 <= c < 128 /\ c <> 38 /\ c <> 43 /\ c <> 37.
Proof.
  unfold url_safe, query_char, unreserved, sub_delim, form_special, alnum, one_of.
  change (str "-._~") with [45; 46; 95; 126].
  change (str "!$&'()*+,;=") with [33; 36; 38; 39; 40; 41; 42; 43; 44; 59; 61].
  change (str ":@/?") with [58; 64; 47; 63].
  change (str "&+%") with [38; 43; 37].
  change (ch "A") with 65. change (ch "Z") with 90.
  change (ch "a") with 97. change (ch "z") with 122. change (ch "0") with 48.
  change (ch "9") with 57.
  cbn [existsb]. lia.
Qed.

Lemma split_on_absent (sep : Z) (s : jsstring) :
  Forall (fun c => c <> sep) s -> split_on sep s = [s].
Proof.
  induction 1 as [|c s Hc _ IH]; [reflexivity|].
  cbn [split_on]. destruct (Z.eqb_spec c sep); [contradiction|]. now rewrite IH.
Qed.

Lemma percent_decode_plain (s : jsstring) :
  Forall (fun c => c <> 37) s -> percent_decode s = s.
Proof.
  induction 1 as [|c s Hc _ IH]; [reflexivity|].
  cbn [percent_decode]. change (ch "%") with 37.
  destruct (Z.eqb_spec c 37); [contradiction|]. now rewrite IH.
Qed.

Lemma decode_safe (host : Host) (s : jsstring) :
  Forall (fun c => url_safe c = true) s -> decode host s = s.
Proof.
  intros H. unfold decode.
  assert (Hmap : map plus_to_space s = s).
  { rewrite <- (map_id s) at 2. apply map_ext_in. intros c Hc.
    rewrite Forall_forall in H. apply H, url_safe_facts in Hc.
    unfold plus_to_space. change (ch "+") with 43.
    destruct (Z.eqb_spec c 43); [lia | reflexivity]. }
  rewrite Hmap, percent_decode_plain.
  - assert (E : forallb (fun b => (0 <=? b) && (b <? 128)) s = true).
    { apply forallb_forall. intros c Hc.
      rewrite Forall_forall in H. apply H, url_safe_facts in Hc. lia. }
    now rewrite E.
  - eapply Forall_impl; [|exact H]. intros c Hc. apply url_safe_facts in Hc. lia.
Qed.

(** A token of safe characters, put after [?state=], is what
    [get('state')] returns. *)
Lemma get_state (host : Host) (token : jsstring) :
  Forall (fun c => url_safe c = true) token ->
  get host (str "?state=" ++ token) (str "state") = Some token.
Proof.
  intros H. unfold get, parse.
  change (str "?state=" ++ token) with (ch "?" :: str "state=" ++ token).
  cbv beta iota zeta.
  change (ch "?" =? ch "?") with true. cbv iota.
  rewrite split_on_absent.
  - change (filter _ [str "state=" ++ token]) with [str "state=" ++ token].
    cbn [map].
    change (name_value (str "state=" ++ token)) with (str "state", token).
    cbv iota beta.
    change (decode host (str "state")) with (str "state").
    rewrite decode_safe by assumption. reflexivity.
  - change (ch "&") with 38. apply Forall_app; split.
    + repeat constructor; discriminate.
    + eapply Forall_impl; [|exact H]. intros c Hc. apply url_safe_facts in Hc. lia.
Qed.

End UrlFacts.

Module ShareLink.
Import TimeZoneConverter ShareText UrlSafety.
Import Base64Parts Base64Facts Base64RoundTrip JSONFacts TokenFacts UrlFacts DateFacts.

(** ** The link of a share state *)

Lemma catalog_id_simple (s : jsstring) : Transitions.catalog_id s -> simple_string s.
Proof.
  intros (tz & [<-|[<-|[<-|[<-|[]]]]] & <-); repeat constructor.
Qed.

Lemma simple_dig (n : Z) : simple (Date.dig n) = true.
Proof.
  pose proof (dig_range n) as H. unfold simple.
  change (ch "034") with 34. change (ch "\") with 92.
  change (ch ">") with 62. change (ch "?") with 63. lia.
Qed.

Lemma iso_string_simple (tv : Z) : simple_string (Date.iso_string tv).
Proof.
  unfold simple_string, Date.iso_string, Date.year_string, Date.pad2, Date.pad3.
  destruct ((0 <=? Date.YearFromTime tv) && (Date.YearFromTime tv <=? 9999));
    [|destruct (Date.YearFromTime tv <? 0)];
    unfold Date.pad4, Date.pad6;
    repeat first [ apply Forall_nil
                 | apply Forall_cons; [first [apply simple_dig | reflexivity]|]
                 | apply Forall_app; split ].
Qed.

Lemma iso_string_nonempty (tv : Z) : exists c r, Date.iso_string tv = c :: r.
Proof.
  unfold Date.iso_string, Date.year_string.
  destruct ((0 <=? Date.YearFromTime tv) && (Date.YearFromTime tv <=? 9999));
    cbn [Date.pad4 app]; eauto.
Qed.

Lemma quote_clean (s : jsstring) :
  simple_string s -> Forall (fun c => clean c = true) (JSON.quote s).
Proof.
  intros H. unfold JSON.quote. rewrite quote_body_simple by assumption.
  constructor; [reflexivity|]. apply Forall_app; split.
  - eapply Forall_impl; [|exact H]. exact simple_clean.
  - repeat constructor.
Qed.

Lemma join_comma_clean (ids : list jsstring) :
  Forall simple_string ids ->
  Forall (fun c => clean c = true) (JSON.join_comma (map JSON.quote ids)).
Proof.
  induction 1 as [|i ids Hi Hids IH]; [constructor|].
  cbn [map JSON.join_comma]. destruct ids as [|j ids].
  - now apply quote_clean.
  - apply Forall_app; split; [now apply quote_clean|].
    constructor; [reflexivity | exact IH].
Qed.

Lemma state_text_clean (time : jsstring) (ids : list jsstring) :
  simple_string time -> Forall simple_string ids ->
  Forall (fun c => clean c = true) (state_text time ids).
Proof.
  intros Ht Hids. unfold state_text.
  repeat first [ apply Forall_nil
               | apply Forall_cons; [reflexivity|]
               | apply Forall_app; split ];
    try (repeat constructor; fail).
  - eapply Forall_impl; [|exact Ht]. exact simple_clean.
  - now apply join_comma_clean.
Qed.

Lemma state_text_bytes (time : jsstring) (ids : list jsstring) :
  simple_string time -> Forall simple_string ids ->
  Forall byte (state_text time ids).
Proof.
  intros Ht Hids. eapply Forall_impl; [|now apply state_text_clean].
  exact clean_byte.
Qed.

(** The token of a state whose ids need no escape. *)
Lemma encode_state (host : Host) (st : state) (tv : Z) (ids : list jsstring) :
  selectedTime st = IsDate (Some tv) -> activeTimezones st = map VStr ids ->
  Forall simple_string ids ->
  encode host st = Ok (Base64.encode (state_text (Date.iso_string tv) ids)).
Proof.
  intros Ht Hz Hids. unfold encode. rewrite Ht, Hz.
  cbn [receiver Date.toISOString bind].
  rewrite serialize_state by apply iso_string_simple.
  apply btoa_latin1, state_text_bytes; [apply iso_string_simple | assumption].
Qed.

Lemma decode_state (host : Host) (tv : Z) (ids : list jsstring) :
  Z.abs tv <= Date.maxTime -> Forall simple_string ids ->
  decode host (Base64.encode (state_text (Date.iso_string tv) ids))
  = Ok (Some tv, map VStr ids).
Proof.
  intros Hr Hids. unfold decode.
  rewrite atob_encode
    by (apply state_text_bytes; [apply iso_string_simple | assumption]).
  cbn [bind].
  rewrite parse_state_text by (apply iso_string_simple || assumption).
  cbn [bind get_prop].
  change (lookup (str "time") [(str "time", ?a); (str "timezones", ?b)]) with a.
  change (lookup (str "timezones") [(str "time", ?a); (str "timezones", ?b)]) with b.
  destruct (iso_string_nonempty tv) as (c & r & E).
  assert (Htruthy : truthy (VStr (Date.iso_string tv)) = true) by now rewrite E.
  rewrite Htruthy. cbn [negb bind].
  rewrite ConversionFacts.of_value_string. cbn [bind].
  now rewrite parse_toISOString.
Qed.

Lemma token_url_safe (tv : Z) (ids : list jsstring) :
  Forall simple_string ids ->
  Forall (fun c => token_char c = true)
         (Base64.encode (state_text (Date.iso_string tv) ids)).
Proof.
  intros Hids. apply encode_clean, state_text_clean;
    [apply iso_string_simple | assumption].
Qed.

End ShareLink.

Module ShareClaims.
Import TimeZoneConverter Fixtures ShareText UrlSafety.
Import JSONFacts TokenFacts UrlFacts ShareLink.

(** C1: for a share state with a valid instant and a duplicate-free list
    of catalog ids, [encode] yields a token, [decode] of that token yields
    the instant, to the millisecond, and the list, element for element;
    the effect, given the link of that token, installs both and sets no
    error. *)
Theorem decode_encode_roundtrip (host : Host) (st : state) (tv : Z)
    (ids : list jsstring) :
  selectedTime st = IsDate (Some tv) ->
  Z.abs tv <= Date.maxTime ->
  activeTimezones st = map VStr ids ->
  Forall Transitions.catalog_id ids ->
  NoDup ids ->
  exists token,
    encode host st = Ok token
    /\ decode host token = Ok (Some tv, activeTimezones st)
    /\ forall st0,
         selectedTime (useEffect_body host (str "?state=" ++ token) st0)
         = IsDate (Some tv)
         /\ activeTimezones (useEffect_body host (str "?state=" ++ token) st0)
            = activeTimezones st
         /\ error (useEffect_body host (str "?state=" ++ token) st0) = error st0.
Proof.
  intros Ht Hr Hz Hcat _.
  assert (Hids : Forall simple_string ids)
    by (eapply Forall_impl; [|exact Hcat]; exact catalog_id_simple).
  exists (Base64.encode (state_text (Date.iso_string tv) ids)).
  pose proof (decode_state host tv ids Hr Hids) as Hdec.
  split; [now apply encode_state|]. rewrite Hz. split; [exact Hdec|].
  intros st0.
  assert (Hget : URLSearchParams.get host
                   (str "?state=" ++ Base64.encode (state_text (Date.iso_string tv) ids))
                   (str "state")
                 = Some (Base64.encode (state_text (Date.iso_string tv) ids))).
  { apply get_state. eapply Forall_impl; [|now apply token_url_safe].
    exact token_char_url_safe. }
  rewrite (Decoding.useEffect_accepted host _ _ st0 _ _ Hget Hdec).
  repeat split; reflexivity.
Qed.

Lemma decode_encode_roundtrip_witness :
  exists token,
    encode plain_host (initial_state 1704067200123) = Ok token
    /\ decode plain_host token
       = Ok (Some 1704067200123, [VStr (str "UTC"); VStr (str "IST")]).
Proof.
  destruct (decode_encode_roundtrip plain_host
              (initial_state 1704067200123) 1704067200123 [str "UTC"; str "IST"])
    as (token & Henc & Hdec & _).
  - reflexivity.
  - vm_compute; discriminate.
  - reflexivity.
  - repeat constructor.
    + exists (nth 0 timezones (mkTimezone [] [] 0)); split; [left|]; reflexivity.
    + exists (nth 1 timezones (mkTimezone [] [] 0)); split; [right; left|]; reflexivity.
  - repeat constructor; simpl; intuition discriminate.
  - exists token. split; assumption.
Defined.

(** C4: the token of a share state, a valid instant with ids of the
    catalog, depends on the instant and the zone order only, whatever the
    other cells and the host are, and is made of letters, digits and [=]:
    each is a character that a query value carries as it is, and
    [URLSearchParams.get] returns the token from the link unchanged. *)
Theorem encode_deterministic_url_safe (host : Host) (st : state) (tv : Z)
    (ids : list jsstring) :
  selectedTime st = IsDate (Some tv) ->
  activeTimezones st = map VStr ids ->
  Forall Transitions.catalog_id ids ->
  exists token,
    encode host st = Ok token
    /\ (forall host' st',
          selectedTime st' = selectedTime st ->
          activeTimezones st' = activeTimezones st ->
          encode host' st' = Ok token)
    /\ Forall (fun c => token_char c = true) token
    /\ Forall (fun c => url_safe c = true) token
    /\ URLSearchParams.get host (str "?state=" ++ token) (str "state") = Some token.
Proof.
  intros Ht Hz Hcat.
  assert (Hids : Forall simple_string ids)
    by (eapply Forall_impl; [|exact Hcat]; exact catalog_id_simple).
  exists (Base64.encode (state_text (Date.iso_string tv) ids)).
  pose proof (token_url_safe tv ids Hids) as Htok.
  assert (Hsafe : Forall (fun c => url_safe c = true)
                    (Base64.encode (state_text (Date.iso_string tv) ids)))
    by (eapply Forall_impl; [|exact Htok]; exact token_char_url_safe).
  split; [now apply encode_state|]. split.
  { intros host' st' Ht' Hz'. apply encode_state; [congruence | congruence | assumption]. }
  split; [exact Htok|]. split; [exact Hsafe|]. now apply get_state.
Qed.

Lemma encode_deterministic_url_safe_witness :
  exists token,
    encode plain_host (initial_state 1704067200000) = Ok token
    /\ token = str "eyJ0aW1lIjoiMjAyNC0wMS0wMVQwMDowMDowMC4wMDBaIiwidGltZXpvbmVzIjpbIlVUQyIsIklTVCJdfQ=="
    /\ Forall (fun c => url_safe c = true) token.
Proof.
  destruct (encode_deterministic_url_safe plain_host
              (initial_state 1704067200000) 1704067200000 [str "UTC"; str "IST"])
    as (token & Henc & _ & _ & Hsafe & _).
  - reflexivity.
  - reflexivity.
  - repeat constructor.
    + exists (nth 0 timezones (mkTimezone [] [] 0)); split; [left|]; reflexivity.
    + exists (nth 1 timezones (mkTimezone [] [] 0)); split; [right; left|]; reflexivity.
  - exists token. split; [exact Henc|]. split; [|exact Hsafe].
    vm_compute in Henc. injection Henc as <-. reflexivity.
Defined.

(** The ids are taken from the catalog above.  In a state whose list
    holds another string, which the select never offers and with which the
    page does not render, the token can hold [+]; the reader of the link
    turns it into a space, and the token read back is rejected. *)
Lemma encode_not_url_safe :
  encode plain_host (setActiveTimezones [VStr (str "?>")] (initial_state 0))
  = Ok (str "eyJ0aW1lIjoiMTk3MC0wMS0wMVQwMDowMDowMC4wMDBaIiwidGltZXpvbmVzIjpbIj8+Il19")
  /\ url_safe (ch "+") = false
  /\ URLSearchParams.get plain_host
       (str "?state=eyJ0aW1lIjoiMTk3MC0wMS0wMVQwMDowMDowMC4wMDBaIiwidGltZXpvbmVzIjpbIj8+Il19")
       (str "state")
     = Some (str "eyJ0aW1lIjoiMTk3MC0wMS0wMVQwMDowMDowMC4wMDBaIiwidGltZXpvbmVzIjpbIj8 Il19")
  /\ error (useEffect_body plain_host
              (str "?state=eyJ0aW1lIjoiMTk3MC0wMS0wMVQwMDowMDowMC4wMDBaIiwidGltZXpvbmVzIjpbIj8+Il19")
              (initial_state 0)) = advisory.
Proof. repeat split; vm_compute; reflexivity. Qed.

(** An invalid date, a cleared date and an id beyond Latin-1 make [encode]
    throw. *)
Lemma encode_throws :
  encode plain_host (setSelectedTime (IsDate None) (initial_state 0)) = Throw RangeError
  /\ encode plain_host (setSelectedTime IsNull (initial_state 0)) = Throw TypeError
  /\ encode plain_host (setActiveTimezones [VStr [26085]] (initial_state 0))
     = Throw InvalidCharacterError.
Proof. repeat split; reflexivity. Qed.

End ShareClaims.

Module SliderFacts.
Import TimeZoneConverter Fixtures Slider.

(** ** More on the slider and the picker *)

Lemma slide_valid (st : state) (s : jsstring) (t v : Z) :
  selectedTime st = IsDate (Some t) -> ParseInt.parseInt s = Finite v ->
  Z.abs (t + v * 60000) <= Date.maxTime ->
  selectedTime (state_of (handleSliderChange s st)) = IsDate (Some (t + v * 60000))
  /\ sliderValue (state_of (handleSliderChange s st)) = Finite v.
Proof.
  intros Ht Hv Hr.
  rewrite (TimeArithmetic.handleSliderChange_time st s t v Ht Hv).
  cbn [state_of setSelectedTime selectedTime sliderValue setSliderValue].
  split; [f_equal; now apply TimeArithmetic.TimeClip_in_range | reflexivity].
Qed.

(** X1: the slider does not remember where it started.  After an event of
    value [v], bringing the slider back to 0 leaves the time shifted by
    [v] minutes while the slider shows 0; the event of the opposite value
    is what brings the time back. *)
Theorem slider_back_to_zero (st : state) (s s' : jsstring) (t v : Z) :
  selectedTime st = IsDate (Some t) ->
  Z.abs t <= Date.maxTime ->
  Z.abs (t + v * 60000) <= Date.maxTime ->
  ParseInt.parseInt s = Finite v ->
  ParseInt.parseInt s' = Finite (- v) ->
  let moved := state_of (handleSliderChange s st) in
  let back := state_of (handleSliderChange (str "0") moved) in
  let undone := state_of (handleSliderChange s' moved) in
  selectedTime back = IsDate (Some (t + v * 60000))
  /\ sliderValue back = Finite 0
  /\ selectedTime undone = IsDate (Some t)
  /\ sliderValue undone = Finite (- v).
Proof.
  intros Ht Hr Hr' Hs Hs' moved back undone.
  destruct (slide_valid st s t v Ht Hs Hr') as [Em _].
  fold moved in Em.
  destruct (slide_valid moved (str "0") (t + v * 60000) 0 Em eq_refl) as [E1 E2];
    [lia|].
  destruct (slide_valid moved s' (t + v * 60000) (- v) Em Hs') as [E3 E4]; [lia|].
  unfold back, undone. rewrite E1, E2, E3, E4.
  repeat split; do 2 f_equal; lia.
Qed.

Lemma slider_back_to_zero_witness :
  selectedTime (state_of (handleSliderChange (str "0")
                  (state_of (handleSliderChange (str "90") (initial_state 1000)))))
  = IsDate (Some (1000 + 90 * 60000)).
Proof.
  apply (slider_back_to_zero (initial_state 1000) (str "90") (str "-90") 1000 90);
    try reflexivity; vm_compute; discriminate.
Defined.

(** X2: picking a time sets the slider to 0 and makes the picked time the
    base of the next slider event, whatever the slider did before; the
    zone lists are not touched. *)
Theorem pick_then_slide (st : state) (picked v : Z) (s : jsstring) :
  ParseInt.parseInt s = Finite v ->
  Z.abs (picked + v * 60000) <= Date.maxTime ->
  let chosen := state_of (handleTimeChange (IsDate (Some picked)) st) in
  sliderValue chosen = Finite 0
  /\ selectedTime chosen = IsDate (Some picked)
  /\ activeTimezones chosen = activeTimezones st
  /\ availableTimezones chosen = availableTimezones st
  /\ selectedTime (state_of (handleSliderChange s chosen))
     = IsDate (Some (picked + v * 60000))
  /\ sliderValue (state_of (handleSliderChange s chosen)) = Finite v.
Proof.
  intros Hs Hr chosen.
  assert (Ec : selectedTime chosen = IsDate (Some picked)) by reflexivity.
  destruct (slide_valid chosen s picked v Ec Hs Hr) as [E1 E2].
  repeat split; assumption.
Qed.

Lemma pick_then_slide_witness :
  selectedTime (state_of (handleSliderChange (str "-30")
     (state_of (handleTimeChange (IsDate (Some 5000000))
        (state_of (handleSliderChange (str "700") (initial_state 0)))))))
  = IsDate (Some (5000000 + -30 * 60000)).
Proof.
  apply (pick_then_slide (state_of (handleSliderChange (str "700") (initial_state 0)))
           5000000 (-30) (str "-30")); [reflexivity | vm_compute; discriminate].
Defined.




(** From [2^53] on the Number read is the nearest double, and an infinity
    for a numeral of 309 digits that starts with 2. *)
Lemma parseInt_doubles :
  ParseInt.parseInt (str "9007199254740993") = Finite 9007199254740992
  /\ ParseInt.parseInt (str "-9007199254740995") = Finite (-9007199254740996)
  /\ ParseInt.parseInt (ch "2" :: repeat (ch "0") 308) = Infinite false
  /\ ParseInt.parseInt (str "12px") = Finite 12
  /\ ParseInt.parseInt (str "px") = NaN.
Proof. repeat split; vm_compute; reflexivity. Qed.

(** The positions of the slider, by enumeration. *)
Lemma numeral_read_back (v : Z) :
  slider_min <= v <= slider_max -> ParseInt.parseInt (numeral v) = Finite v.
Proof.
  intros Hv. unfold slider_min, slider_max in Hv.
  assert (E : match ParseInt.parseInt (numeral ((v + 1440) - 1440)) with
              | Finite w => w =? (v + 1440) - 1440
              | _ => false
              end = true).
  { apply (Base64Facts.forall_range 2881
             (fun i => match ParseInt.parseInt (numeral (i - 1440)) with
                       | Finite w => w =? i - 1440
                       | _ => false
                       end)); [vm_compute; reflexivity | lia]. }
  replace (v + 1440 - 1440) with v in E by lia.
  destruct (ParseInt.parseInt (numeral v)) as [|w|]; try discriminate.
  apply Z.eqb_eq in E. now subst.
Qed.

(** X4: every position of the slider, an integer from -1440 to 1440 given
    as its numeral, is read as itself: the event sets the slider value to
    the position and moves a date that stays in range by that many
    minutes. *)
Theorem slider_positions (st : state) (t v : Z) :
  slider_min <= v <= slider_max ->
  selectedTime st = IsDate (Some t) ->
  Z.abs (t + v * 60000) <= Date.maxTime ->
  sliderValue (state_of (handleSliderChange (numeral v) st)) = Finite v
  /\ selectedTime (state_of (handleSliderChange (numeral v) st))
     = IsDate (Some (t + v * 60000)).
Proof.
  intros Hv Ht Hr.
  destruct (slide_valid st (numeral v) t v Ht (numeral_read_back v Hv) Hr) as [E1 E2].
  split; assumption.
Qed.

Lemma slider_positions_witness :
  sliderValue (state_of (handleSliderChange (numeral (-1440)) (initial_state 0)))
  = Finite (-1440).
Proof.
  apply (slider_positions (initial_state 0) 0 (-1440));
    [vm_compute; split; discriminate | reflexivity | vm_compute; discriminate].
Defined.

(** ** The times of two zones *)

Lemma shown_time (host : Host) (instant : Z) (tz : timezone) (shown : Z) :
  In tz timezones ->
  getTimeInTimezone host (Some instant) (offset tz) = Some shown ->
  shown = instant + timezoneOffset host instant * 60000 + hours_ms (offset tz).
Proof.
  intros Hin. unfold getTimeInTimezone.
  rewrite (TimeArithmetic.truncate_sum _ (hours_ms (offset tz)))
    by now apply TimeArithmetic.catalog_offsets.
  unfold Date.TimeClip. destruct (Z.abs _ <=? Date.maxTime); [|discriminate].
  intros H; injection H as <-. reflexivity.
Qed.

(** X5: whatever the host's own zone is, the dates shown for two catalog
    zones differ by the difference of the zones' hours. *)
Theorem zone_difference (host : Host) (instant : Z) (tz1 tz2 : timezone)
    (shown1 shown2 : Z) :
  In tz1 timezones -> In tz2 timezones ->
  getTimeInTimezone host (Some instant) (offset tz1) = Some shown1 ->
  getTimeInTimezone host (Some instant) (offset tz2) = Some shown2 ->
  shown1 - shown2 = hours_ms (offset tz1) - hours_ms (offset tz2).
Proof.
  intros H1 H2 E1 E2.
  apply (shown_time host instant tz1 shown1 H1) in E1.
  apply (shown_time host instant tz2 shown2 H2) in E2. lia.
Qed.

Lemma zone_difference_witness :
  (1704067200000 + 300 * 60000 + 19800000) - (1704067200000 + 300 * 60000 + 0)
  = hours_ms (offset IST) - hours_ms (offset (nth 0 timezones IST)).
Proof.
  apply (zone_difference (host_at 300) 1704067200000 IST (nth 0 timezones IST));
    [right; left; reflexivity | left; reflexivity | reflexivity | reflexivity].
Defined.

End SliderFacts.

Module ZoneListFacts.
Import TimeZoneConverter Transitions Rendering ListOrder.

(** ** More on the zone lists *)

Lemma splice_out_in (l : list value) (i : nat) :
  (i < length l)%nat ->
  splice_in i (snd (splice_out i l)) (fst (splice_out i l)) = l.
Proof.
  intros Hi. unfold splice_in, splice_out; cbn [fst snd].
  assert (Hl : length (firstn i l) = i) by (rewrite length_firstn; lia).
  rewrite firstn_app, Hl, Nat.sub_diag, firstn_O, app_nil_r.
  rewrite <- Hl at 1. rewrite firstn_all.
  rewrite skipn_app, Hl, Nat.sub_diag. cbn [skipn].
  rewrite (skipn_all2 (firstn i l)) by lia. cbn [app].
  rewrite <- (firstn_skipn i l) at 4. f_equal.
  clear Hl. revert i Hi. induction l as [|x l IH]; intros [|i] Hi; cbn in *; try lia.
  - reflexivity.
  - apply IH. lia.
Qed.

(** X6: a move is undone by the move back: for valid indices, moving
    from [i] to [j] and then from [j] to [i] gives the list as it was, and
    a drop on the position the row came from changes nothing. *)
Theorem move_back (l : list value) (i j : nat) :
  (i < length l)%nat -> (j < length l)%nat ->
  move j i (move i j l) = l /\ move i i l = l.
Proof.
  intros Hi Hj.
  assert (Hlen : S (length (fst (splice_out i l))) = length l)
    by now apply ZoneList.splice_out_length.
  split.
  - rewrite (ZoneList.move_splice (move i j l) j i).
    rewrite (ZoneList.move_splice l i j).
    rewrite ZoneList.splice_in_out by lia.
    assert (E : snd (splice_out j (splice_in j (snd (splice_out i l))
                                     (fst (splice_out i l))))
                = snd (splice_out i l)).
    { unfold splice_out at 1. cbn [snd].
      apply nth_error_nth. apply ZoneList.splice_in_nth. lia. }
    rewrite E. now apply splice_out_in.
  - rewrite ZoneList.move_splice. now apply splice_out_in.
Qed.

Lemma move_back_witness :
  move 2 0 (move 0 2 [VStr (str "UTC"); VStr (str "IST"); VStr (str "EST")])
  = [VStr (str "UTC"); VStr (str "IST"); VStr (str "EST")].
Proof.
  apply (move_back [VStr (str "UTC"); VStr (str "IST"); VStr (str "EST")] 0 2);
    simpl; lia.
Defined.

(** X7: reversing turns the order around, the element of position [i]
    coming to position [n - 1 - i] of a list of the same length, and
    touches no other cell; reversing twice gives the state back. *)
Theorem reverse_positions (st : state) (i : nat) :
  (i < length (activeTimezones st))%nat ->
  let reversed := state_of (reverseOrder st) in
  nth_error (activeTimezones reversed) i
  = nth_error (activeTimezones st) (length (activeTimezones st) - 1 - i)
  /\ length (activeTimezones reversed) = length (activeTimezones st)
  /\ selectedTime reversed = selectedTime st
  /\ availableTimezones reversed = availableTimezones st
  /\ isDarkMode reversed = isDarkMode st
  /\ shareableLink reversed = shareableLink st
  /\ isLoading reversed = isLoading st
  /\ error reversed = error st
  /\ isCopied reversed = isCopied st
  /\ sliderValue reversed = sliderValue st
  /\ state_of (reverseOrder reversed) = st.
Proof.
  intros Hi reversed. split; [|split].
  - cbn [reversed reverseOrder state_of setActiveTimezones activeTimezones].
    rewrite (nth_error_nth' (rev (activeTimezones st)) VUndefined)
      by (rewrite length_rev; lia).
    rewrite rev_nth by lia.
    replace (length (activeTimezones st) - S i)%nat
      with (length (activeTimezones st) - 1 - i)%nat by lia.
    symmetry. apply nth_error_nth'. lia.
  - cbn [reversed reverseOrder state_of setActiveTimezones activeTimezones].
    apply length_rev.
  - repeat (split; [reflexivity|]).
    unfold reversed. destruct st. cbn. now rewrite rev_involutive.
Qed.

Lemma reverse_positions_witness :
  nth_error (activeTimezones (state_of (reverseOrder (initial_state 0)))) 0
  = Some (VStr (str "IST")).
Proof.
  apply (reverse_positions (initial_state 0) 0). simpl; lia.
Defined.

Lemma filter_twice {A} (f : A -> bool) (l : list A) : filter f (filter f l) = filter f l.
Proof.
  induction l as [|x l IH]; [reflexivity|]. cbn [filter].
  destruct (f x) eqn:E; [|exact IH]. cbn [filter]. now rewrite E, IH.
Qed.

Lemma filter_subsequence (f : value -> bool) (l : list value) :
  subsequence (filter f l) l.
Proof.
  induction l as [|x l IH]; [constructor|]. cbn [filter].
  destruct (f x); now constructor.
Qed.

Lemma filter_largest (tzId : jsstring) (l active : list value) :
  subsequence l active -> ~ In (VStr tzId) l ->
  subsequence l (filter (fun v => negb (strict_eq_string v tzId)) active).
Proof.
  induction 1 as [|x l active _ IH|x l active _ IH]; intros Hnot.
  - constructor.
  - cbn [filter].
    destruct (strict_eq_string x tzId) eqn:E.
    + apply strict_eq_string_true in E. subst x. destruct Hnot. now left.
    + cbn [negb]. constructor. apply IH. intros Hin. apply Hnot. now right.
  - cbn [filter]. destruct (negb (strict_eq_string x tzId)).
    + constructor. now apply IH.
    + now apply IH.
Qed.

(** X8: the remove button removes every occurrence of its id, and nothing
    else, from the active list.  What is left holds no occurrence of the
    id, is the list before with elements left out and the others in their
    order, and holds, in that sense, every list before without the id:
    all the other elements stay, as often as they occurred.  Pressing the
    button for the same id again leaves the active list as it is; the
    available list grows by one element each time, wanted or not. *)
Theorem remove_all_occurrences (st : state) (tzId : jsstring) :
  let removed := state_of (removeTimezone tzId st) in
  ~ In (VStr tzId) (activeTimezones removed)
  /\ subsequence (activeTimezones removed) (activeTimezones st)
  /\ (forall l,
        subsequence l (activeTimezones st) -> ~ In (VStr tzId) l ->
        subsequence l (activeTimezones removed))
  /\ (forall v, v <> VStr tzId ->
                (In v (activeTimezones removed) <-> In v (activeTimezones st)))
  /\ activeTimezones (state_of (removeTimezone tzId removed)) = activeTimezones removed
  /\ length (availableTimezones removed) = S (length (availableTimezones st))
  /\ length (availableTimezones (state_of (removeTimezone tzId removed)))
     = S (S (length (availableTimezones st))).
Proof.
  intros removed.
  assert (Ea : activeTimezones removed
               = filter (fun v => negb (strict_eq_string v tzId)) (activeTimezones st))
    by reflexivity.
  split; [|split; [|split; [|split; [|split; [|split]]]]].
  - rewrite Ea. intros H. apply filter_In in H as [_ H].
    cbn in H. now rewrite jsstring_eqb_refl in H.
  - rewrite Ea. apply filter_subsequence.
  - intros l Hl Hnot. rewrite Ea. now apply filter_largest.
  - intros v Hv. rewrite Ea, filter_In. split; [tauto|].
    intros H. split; [exact H|]. apply negb_true_iff.
    destruct (strict_eq_string v tzId) eqn:E; [|reflexivity].
    apply strict_eq_string_true in E. contradiction.
  - cbn [removeTimezone state_of setAvailableTimezones setActiveTimezones activeTimezones].
    apply filter_twice.
  - cbn [removed removeTimezone state_of setAvailableTimezones availableTimezones
           setActiveTimezones].
    rewrite length_app. cbn [length]. lia.
  - cbn [removed removeTimezone state_of setAvailableTimezones availableTimezones
           setActiveTimezones].
    rewrite !length_app. cbn [length]. lia.
Qed.

Lemma filter_other_undefined (tzId : jsstring) (l : list (option timezone)) :
  filter_other tzId (l ++ [None]) = Throw TypeError.
Proof.
  induction l as [|[tz|] l IH]; cbn [app filter_other]; [reflexivity| |reflexivity].
  now rewrite IH.
Qed.

Lemma option_values_undefined (l : list (option timezone)) :
  option_values (l ++ [None]) = Throw TypeError.
Proof.
  induction l as [|[tz|] l IH]; cbn [app option_values]; [reflexivity| |reflexivity].
  now rewrite IH.
Qed.

Lemma find_not_catalog (tzId : jsstring) :
  ~ catalog_id tzId ->
  find (fun tz => jsstring_eqb (id tz) tzId) timezones = None.
Proof.
  intros H. destruct (find _ timezones) as [tz|] eqn:E; [|reflexivity].
  apply find_some in E as [Hin Heq]. apply jsstring_eqb_eq in Heq.
  destruct H. now exists tz.
Qed.

(** X9: removing an id that the catalog does not have puts [undefined]
    into the available list.  From then on the select cannot be rendered,
    and an add throws a TypeError after it has appended its id to the
    active list: the available list is left as it was. *)
Theorem remove_unknown_then_add (st : state) (tzId value : jsstring) :
  ~ catalog_id tzId -> value <> [] ->
  let removed := state_of (removeTimezone tzId st) in
  availableTimezones removed = availableTimezones st ++ [None]
  /\ select_values removed = Throw TypeError
  /\ exists st',
       addTimezone value removed = Threw TypeError st'
       /\ activeTimezones st' = activeTimezones removed ++ [VStr value]
       /\ availableTimezones st' = availableTimezones removed.
Proof.
  intros Hcat Hv removed.
  assert (Ea : availableTimezones removed = availableTimezones st ++ [None]).
  { cbn [removed removeTimezone state_of setAvailableTimezones availableTimezones].
    now rewrite find_not_catalog. }
  split; [exact Ea|]. split.
  { unfold select_values. now rewrite Ea, option_values_undefined. }
  unfold addTimezone. destruct value as [|c r]; [congruence|].
  rewrite Ea, filter_other_undefined.
  eexists; split; [reflexivity|]. split; [reflexivity|].
  cbn [setActiveTimezones availableTimezones]. now rewrite Ea.
Qed.

Lemma remove_unknown_then_add_witness :
  exists st',
    addTimezone (str "EST") (state_of (removeTimezone (str "XYZ") (initial_state 0)))
    = Threw TypeError st'
    /\ activeTimezones st'
       = activeTimezones (state_of (removeTimezone (str "XYZ") (initial_state 0)))
           ++ [VStr (str "EST")]
    /\ availableTimezones st'
       = availableTimezones (state_of (removeTimezone (str "XYZ") (initial_state 0))).
Proof.
  apply (remove_unknown_then_add (initial_state 0) (str "XYZ") (str "EST")).
  - intros (tz & [<-|[<-|[<-|[<-|[]]]]] & E); discriminate E.
  - discriminate.
Defined.

End ZoneListFacts.

Module RenderFacts.
Import TimeZoneConverter Transitions Rendering.

(** ** What the page renders *)

Lemma find_row (v : value) :
  (catalog_value v ->
   exists tz, find (fun tz => strict_eq_string v (id tz)) timezones = Some tz
              /\ In tz timezones /\ v = VStr (id tz))
  /\ (~ catalog_value v ->
      find (fun tz => strict_eq_string v (id tz)) timezones = None).
Proof.
  split.
  - intros (tz & Hin & ->).
    destruct (find (fun tz0 => strict_eq_string (VStr (id tz)) (id tz0)) timezones)
      as [tz'|] eqn:E.
    + apply find_some in E as [Hin' Heq]. exists tz'. repeat split; [assumption|].
      apply strict_eq_string_true in Heq. exact Heq.
    + exfalso. apply (find_none _ _ E) in Hin. cbn in Hin.
      now rewrite jsstring_eqb_refl in Hin.
  - intros H. destruct (find _ timezones) as [tz|] eqn:E; [|reflexivity].
    apply find_some in E as [Hin Heq]. apply strict_eq_string_true in Heq.
    destruct H. now exists tz.
Qed.

(** X10: the rows render exactly when every element of the active list is
    the id of a catalog entry and, unless the list is empty, the selected
    time is a Date: there is then one row per element, in order, with the
    entry of that id and the time [getTimeInTimezone] gives for its
    offset.  With any other element in the list, a string that is no
    catalog id or a value that is no string, and with a cleared date and a
    list that is not empty, rendering throws a TypeError. *)
Theorem rows_render (host : Host) (date : selected) (active : list value) :
  (forall d,
     date = IsDate d -> Forall catalog_value active ->
     exists page,
       rows host date active = Ok page
       /\ map (fun row => VStr (id (fst row))) page = active
       /\ Forall (fun row => In (fst row) timezones
                             /\ snd row = getTimeInTimezone host d (offset (fst row)))
                 page)
  /\ (~ Forall catalog_value active \/ (date = IsNull /\ active <> []) ->
      rows host date active = Throw TypeError)
  /\ (active = [] -> rows host date active = Ok []).
Proof.
  split; [|split].
  - intros d ->. induction 1 as [|v active Hv _ (page & Ep & Em & Hp)].
    + exists []. repeat split; constructor.
    + destruct (proj1 (find_row v) Hv) as (tz & Ef & Hin & ->).
      exists ((tz, getTimeInTimezone host d (offset tz)) :: page).
      cbn [rows]. rewrite Ef, Ep. cbn [receiver bind map fst].
      split; [reflexivity|]. split; [now rewrite Em|].
      constructor; [split; [assumption | reflexivity] | assumption].
  - induction active as [|v active IH]; intros H.
    + destruct H as [H|[_ H]]; [destruct H; constructor | congruence].
    + cbn [rows].
      destruct (find (fun tz => strict_eq_string v (id tz)) timezones) as [tz|] eqn:Ef;
        [|reflexivity].
      assert (Hv : catalog_value v).
      { apply find_some in Ef as [Hin Heq]. apply strict_eq_string_true in Heq.
        now exists tz. }
      destruct date as [d|]; [|reflexivity].
      cbn [receiver bind]. rewrite IH; [reflexivity|].
      left. intros Hrest. destruct H as [H|[H _]]; [|discriminate H].
      apply H. now constructor.
  - intros ->. reflexivity.
Qed.

Lemma rows_render_witness :
  rows (Fixtures.host_at 0) (IsDate (Some 0)) [VStr (str "MARS")] = Throw TypeError.
Proof.
  apply (rows_render (Fixtures.host_at 0) (IsDate (Some 0)) [VStr (str "MARS")]).
  left. intros H.
  apply Forall_cons_iff in H as [(tz & [<-|[<-|[<-|[<-|[]]]]] & E) _];
    discriminate E.
Defined.

Lemma rows_defined (host : Host) (d : Date.t) (active : list value) :
  Forall catalog_value active -> exists page, rows host (IsDate d) active = Ok page.
Proof.
  induction 1 as [|v active Hv _ (page & Ep)]; [now exists []|].
  destruct (proj1 (find_row v) Hv) as (tz & Ef & _).
  cbn [rows]. rewrite Ef, Ep. cbn [receiver bind]. eauto.
Qed.

Lemma option_values_defined (l : list timezone) :
  option_values (map Some l) = Ok (map id l).
Proof.
  induction l as [|tz l IH]; [reflexivity|]. cbn [map option_values]. now rewrite IH.
Qed.

(** Under the invariant the page renders when the selected time is a
    Date, and what the select offers are the ids that can be added. *)
Lemma invariant_renders (host : Host) (st : state) (d : Date.t) :
  invariant st -> selectedTime st = IsDate d ->
  (exists page, rows host (selectedTime st) (activeTimezones st) = Ok page)
  /\ exists values,
       select_values st = Ok values
       /\ forall value, In value values ->
            value = [] \/ (catalog_id value /\ ~ In (VStr value) (activeTimezones st)).
Proof.
  intros [Hnd Hcat Hav] Hd. split.
  - rewrite Hd. apply rows_defined. apply Forall_forall. exact Hcat.
  - destruct (Permutation_map_inv _ _ Hav) as (l & El & HP).
    unfold select_values. rewrite El, option_values_defined. cbn [bind].
    eexists; split; [reflexivity|].
    intros value [<-|Hin]; [now left|]. right.
    apply in_map_iff in Hin as (tz & <- & Hin).
    apply (Permutation_in _ (Permutation_sym HP)) in Hin.
    apply filter_In in Hin as [Hin Hinact].
    split; [now exists tz|].
    unfold inactive in Hinact. apply negb_true_iff in Hinact.
    now apply includes_false.
Qed.

(** The events of the list leave the selected time as it is. *)
Lemma handle_keeps_time (e : event) (st : state) :
  selectedTime (state_of (handle e st)) = selectedTime st.
Proof.
  destruct e as [tzId|tzId|result|]; cbn [handle].
  - unfold addTimezone. destruct tzId as [|c r]; [reflexivity|].
    now destruct (filter_other (c :: r) (availableTimezones st)).
  - reflexivity.
  - unfold onDragEnd. now destruct (destination result).
  - reflexivity.
Qed.

Lemma offered_step (host : Host) (st : state) (e : event) (d : Date.t) :
  invariant st -> selectedTime st = IsDate d -> offered st e ->
  exists st', handle e st = Done st' /\ invariant st'.
Proof.
  intros Hinv Hd Hoff. destruct e as [value|tzId|result|].
  - destruct Hoff as (values & Ev & Hin).
    destruct (invariant_renders host st d Hinv Hd) as (_ & values' & Ev' & Hvalues).
    rewrite Ev in Ev'. injection Ev' as <-.
    destruct (Hvalues value Hin) as [->|Hpre].
    + exists st. split; [reflexivity | assumption].
    + now apply ZoneInvariant.step_invariant.
  - now apply ZoneInvariant.step_invariant.
  - now apply ZoneInvariant.step_invariant.
  - now apply ZoneInvariant.step_invariant.
Qed.

(** X11: a page that has rendered keeps rendering.  In every state
    reached from the initial state through events the rendered page
    offers (a value of the select, a remove button, a drop on a row, the
    reverse button), the list invariant holds, the rows and the select
    render without an exception, and every event offered there completes
    without one. *)
Theorem used_page_renders (host : Host) (now : Z) (st : state) :
  used host now st ->
  invariant st
  /\ (exists page, rows host (selectedTime st) (activeTimezones st) = Ok page)
  /\ (exists values, select_values st = Ok values)
  /\ forall e, offered st e -> exists st', handle e st = Done st' /\ invariant st'.
Proof.
  intros Hused.
  assert (Hinv : invariant st /\ selectedTime st = IsDate (Some now)).
  { induction Hused as [|st st' e page values _ [IH IHd] _ _ Hoff Hstep];
      [split; [apply ZoneInvariant.initial_invariant | reflexivity]|].
    destruct (offered_step host st e _ IH IHd Hoff) as (st'' & Hs & Hi).
    rewrite <- Hstep, handle_keeps_time. split; [|exact IHd].
    rewrite Hs. exact Hi. }
  destruct Hinv as [Hinv Hd].
  destruct (invariant_renders host st _ Hinv Hd) as (Hrows & values & Ev & _).
  split; [exact Hinv|]. split; [exact Hrows|]. split; [now exists values|].
  intros e. now apply (offered_step host st e (Some now)).
Qed.

Lemma used_page_renders_witness :
  invariant (state_of (addTimezone (str "PST") (initial_state 0))).
Proof.
  apply (used_page_renders (Fixtures.host_at 0) 0
           (state_of (addTimezone (str "PST") (initial_state 0)))).
  eapply (used_step _ _ (initial_state 0) _ (Add (str "PST"))).
  - apply used_initial.
  - reflexivity.
  - reflexivity.
  - eexists. split; [reflexivity|]. right; right; left; reflexivity.
  - reflexivity.
Defined.

End RenderFacts.

Module EffectFacts.
Import TimeZoneConverter Transitions Fixtures Session.

(** ** The effect, run again *)

Lemma effect_cases (host : Host) (search : jsstring) (st : state) :
  (exists token time zones,
      URLSearchParams.get host search (str "state") = Some token
      /\ decode host token = Ok (time, zones)
      /\ useEffect_body host search st
         = mkState (IsDate time) zones (complement zones) (isDarkMode st)
                   (shareableLink st) false (error st) (isCopied st) (sliderValue st))
  \/ (exists token e,
      URLSearchParams.get host search (str "state") = Some token
      /\ token <> [] /\ decode host token = Throw e
      /\ useEffect_body host search st
         = mkState (selectedTime st) (activeTimezones st) (availableTimezones st)
                   (isDarkMode st) (shareableLink st) false advisory (isCopied st)
                   (sliderValue st))
  \/ ((URLSearchParams.get host search (str "state") = None
       \/ URLSearchParams.get host search (str "state") = Some [])
      /\ useEffect_body host search st = setIsLoading false st).
Proof.
  destruct (URLSearchParams.get host search (str "state")) as [[|c r]|] eqn:Eget.
  - right; right. split; [now right|]. apply Decoding.useEffect_absent. now right.
  - destruct (decode host (c :: r)) as [[time zones]|e] eqn:Edec.
    + left. exists (c :: r), time, zones.
      split; [reflexivity|]. split; [exact Edec|].
      now apply (Decoding.useEffect_accepted host search (c :: r)).
    + right; left. exists (c :: r), e.
      split; [reflexivity|]. split; [discriminate|]. split; [exact Edec|].
      apply (Decoding.useEffect_rejected host search (c :: r) st e);
        [assumption | discriminate | assumption].
  - right; right. split; [now left|]. apply Decoding.useEffect_absent. now left.
Qed.

(** X12: running the effect again with the same URL changes nothing, and
    no run of it clears the error message: after any run the message is
    the one before or the advisory. *)
Theorem effect_idempotent (host : Host) (search : jsstring) (st : state) :
  useEffect_body host search (useEffect_body host search st)
  = useEffect_body host search st
  /\ (error (useEffect_body host search st) = error st
      \/ error (useEffect_body host search st) = advisory)
  /\ isLoading (useEffect_body host search st) = false.
Proof.
  destruct (effect_cases host search st)
    as [(token & time & zones & Hget & Hdec & E)
       |[(token & e & Hget & Hne & Hdec & E)|(Hget & E)]].
  - rewrite E.
    rewrite (Decoding.useEffect_accepted host search token _ time zones Hget Hdec).
    repeat split; auto.
  - rewrite E.
    rewrite (Decoding.useEffect_rejected host search token _ e Hget Hne Hdec).
    repeat split; auto.
  - rewrite E, (Decoding.useEffect_absent host search _ Hget).
    destruct st; repeat split; auto.
Qed.

(** X13: the effect runs again after a toggle of the theme, and reads the
    URL again.  With a link that decodes, the toggle puts the link's time
    and zones back over whatever the user has set since; with no token,
    or a rejected one, it keeps the user's time and zones.  In both cases
    a second toggle gives the state of before the first, as the effect
    left it. *)
Theorem toggle_rereads_link (p : page) (st : state) :
  isDarkMode (toggle_and_rerun p st) = negb (isDarkMode st)
  /\ (forall token time zones,
        URLSearchParams.get (host p) (search p) (str "state") = Some token ->
        decode (host p) token = Ok (time, zones) ->
        selectedTime (toggle_and_rerun p st) = IsDate time
        /\ activeTimezones (toggle_and_rerun p st) = zones
        /\ availableTimezones (toggle_and_rerun p st) = complement zones)
  /\ ((forall token time zones,
         URLSearchParams.get (host p) (search p) (str "state") = Some token ->
         decode (host p) token <> Ok (time, zones)) ->
      selectedTime (toggle_and_rerun p st) = selectedTime st
      /\ activeTimezones (toggle_and_rerun p st) = activeTimezones st
      /\ availableTimezones (toggle_and_rerun p st) = availableTimezones st)
  /\ toggle_and_rerun p (toggle_and_rerun p (useEffect_body (host p) (search p) st))
     = useEffect_body (host p) (search p) st.
Proof.
  unfold toggle_and_rerun.
  split; [|split; [|split]].
  - destruct (effect_cases (host p) (search p) (state_of (toggleDarkMode st)))
      as [(token & time & zones & _ & _ & E)
         |[(token & e & _ & _ & _ & E)|(_ & E)]]; now rewrite E.
  - intros token time zones Hget Hdec.
    rewrite (Decoding.useEffect_accepted _ _ token _ time zones Hget Hdec).
    repeat split.
  - intros Hno.
    destruct (effect_cases (host p) (search p) (state_of (toggleDarkMode st)))
      as [(token & time & zones & Hget & Hdec & E)
         |[(token & e & _ & _ & _ & E)|(_ & E)]]; [|now rewrite E|now rewrite E].
    now destruct (Hno token time zones Hget).
  - destruct (effect_cases (host p) (search p) st)
      as [(token & time & zones & Hget & Hdec & E)
         |[(token & e & Hget & Hne & Hdec & E)|(Hget & E)]]; rewrite E.
    + cbn [toggleDarkMode state_of].
      rewrite !(Decoding.useEffect_accepted _ _ token _ time zones Hget Hdec).
      cbn. now rewrite negb_involutive.
    + cbn [toggleDarkMode state_of].
      rewrite !(Decoding.useEffect_rejected _ _ token _ e Hget Hne Hdec).
      cbn. now rewrite negb_involutive.
    + cbn [toggleDarkMode state_of].
      rewrite !(Decoding.useEffect_absent _ _ _ Hget).
      destruct st. cbn. now rewrite negb_involutive.
Qed.

Lemma toggle_rereads_link_witness :
  selectedTime
    (toggle_and_rerun
       (mkPage plain_host (str "https://example.org") (str "/")
          (str "?state=eyJ0aW1lIjoiMjAyNC0wMS0wMVQwMDowMDowMC4wMDBaIiwidGltZXpvbmVzIjpbIlVUQyIsIklTVCJdfQ=="))
       (state_of (removeTimezone (str "IST") (initial_state 0))))
  = IsDate (Some 1704067200000)
  /\ activeTimezones
       (toggle_and_rerun
          (mkPage plain_host (str "https://example.org") (str "/")
             (str "?state=eyJ0aW1lIjoiMjAyNC0wMS0wMVQwMDowMDowMC4wMDBaIiwidGltZXpvbmVzIjpbIlVUQyIsIklTVCJdfQ=="))
          (state_of (removeTimezone (str "IST") (initial_state 0))))
     = [VStr (str "UTC"); VStr (str "IST")].
Proof.
  destruct (toggle_rereads_link
              (mkPage plain_host (str "https://example.org") (str "/")
                 (str "?state=eyJ0aW1lIjoiMjAyNC0wMS0wMVQwMDowMDowMC4wMDBaIiwidGltZXpvbmVzIjpbIlVUQyIsIklTVCJdfQ=="))
              (state_of (removeTimezone (str "IST") (initial_state 0))))
    as (_ & Hlink & _).
  destruct (Hlink
              (str "eyJ0aW1lIjoiMjAyNC0wMS0wMVQwMDowMDowMC4wMDBaIiwidGltZXpvbmVzIjpbIlVUQyIsIklTVCJdfQ==")
              (Some 1704067200000) [VStr (str "UTC"); VStr (str "IST")])
    as (Ht & Hz & _).
  - vm_compute; reflexivity.
  - vm_compute; reflexivity.
  - split; assumption.
Defined.

(** The message of a session is the one the first run of the effect
    left. *)
Lemma perform_error (p : page) (now : Z) (a : action) (st : state) :
  error st = error (mount p now) -> isLoading st = false ->
  error (perform p a st) = error (mount p now) /\ isLoading (perform p a st) = false.
Proof.
  intros He Hl. destruct a as [newTime|v|v|tzId|result| | |]; cbn [perform].
  - split; [exact He | exact Hl].
  - unfold handleSliderChange.
    destruct (receiver (selectedTime st)); split; assumption.
  - unfold addTimezone. destruct v as [|c r]; [split; assumption|].
    destruct (filter_other (c :: r) (availableTimezones st)); split; assumption.
  - split; [exact He | exact Hl].
  - unfold onDragEnd. destruct (destination result); split; assumption.
  - split; [exact He | exact Hl].
  - unfold toggle_and_rerun, mount in *.
    destruct (effect_cases (host p) (search p) (state_of (toggleDarkMode st)))
      as [(token & time & zones & Hget & Hdec & E)
         |[(token & e & Hget & Hne & Hdec & E)|(Hget & E)]]; rewrite E.
    + rewrite (Decoding.useEffect_accepted _ _ token (initial_state now) time zones
                 Hget Hdec) in *.
      split; [exact He | reflexivity].
    + rewrite (Decoding.useEffect_rejected _ _ token (initial_state now) e
                 Hget Hne Hdec) in *.
      split; reflexivity.
    + rewrite (Decoding.useEffect_absent _ _ (initial_state now) Hget) in *.
      split; [exact He | reflexivity].
  - unfold generateShareableLink.
    destruct (encode (host p) st); split; assumption.
Qed.

(** X14: whatever the user does, the error message of the page is the one
    the first run of the effect left: the advisory when the link was
    rejected, none otherwise.  No handler sets or clears it, and the page
    never goes back to loading. *)
Theorem error_of_session (p : page) (now : Z) (actions : list action) :
  error (session p now actions) = error (mount p now)
  /\ (error (session p now actions) = [] \/ error (session p now actions) = advisory)
  /\ isLoading (session p now actions) = false.
Proof.
  assert (Hm : (error (mount p now) = [] \/ error (mount p now) = advisory)
               /\ isLoading (mount p now) = false).
  { unfold mount.
    destruct (effect_cases (host p) (search p) (initial_state now))
      as [(token & time & zones & _ & _ & E)
         |[(token & e & _ & _ & _ & E)|(_ & E)]]; rewrite E; split; auto. }
  assert (H : forall st,
             error st = error (mount p now) -> isLoading st = false ->
             error (fold_left (fun st a => perform p a st) actions st)
             = error (mount p now)
             /\ isLoading (fold_left (fun st a => perform p a st) actions st) = false).
  { induction actions as [|a actions IH]; intros st He Hl; [split; assumption|].
    cbn [fold_left]. destruct (perform_error p now a st He Hl) as [He' Hl'].
    now apply IH. }
  destruct (H (mount p now) eq_refl (proj2 Hm)) as [He Hl].
  unfold session. rewrite He. split; [reflexivity|]. split; [exact (proj1 Hm) | exact Hl].
Qed.

End EffectFacts.

Module CodecFacts.
Import Base64 Base64Parts Base64Facts Base64RoundTrip.

(** ** The two transforms of the codec on their own *)

Lemma body_no_whitespace (l : list Z) :
  Forall byte l -> filter (fun c => negb (ascii_whitespace c)) (body l) = body l.
Proof.
  induction l as [|a|a b|a b c l IH] using list_ind3; intros H; bytes_of_list H.
  - reflexivity.
  - cbn [body filter]. rewrite !not_whitespace by sextets. reflexivity.
  - cbn [body filter]. rewrite !not_whitespace by sextets. reflexivity.
  - cbn [body filter]. rewrite !not_whitespace by sextets. cbn [negb].
    now rewrite IH.
Qed.

Lemma body_no_padding (l : list Z) : Forall byte l -> remove_padding (body l) = body l.
Proof.
  induction l as [|a|a b|a b c l IH] using list_ind3; intros H; bytes_of_list H.
  - reflexivity.
  - cbn [body]. rewrite !remove_padding_cons by (apply not_padding; sextets).
    reflexivity.
  - cbn [body]. rewrite !remove_padding_cons by (apply not_padding; sextets).
    reflexivity.
  - cbn [body]. rewrite !remove_padding_cons by (apply not_padding; sextets).
    now rewrite IH.
Qed.

(** X15: [atob] gives back every string [btoa] accepts, the strings of
    code units up to 255, also when the padding of the token was lost on
    the way; on any other string [btoa] throws. *)
Theorem base64_round_trip (s : jsstring) :
  (Forall byte s ->
   btoa s = Ok (encode s)
   /\ atob (encode s) = Ok s
   /\ encode s = body s ++ padding s
   /\ atob (body s) = Ok s)
  /\ (~ Forall byte s -> btoa s = Throw InvalidCharacterError).
Proof.
  split.
  - intros H. split; [now apply btoa_latin1|]. split; [now apply atob_encode|].
    split; [apply encode_body_padding|].
    unfold atob. rewrite body_no_whitespace by assumption.
    assert (E : (if Z.of_nat (length (body s)) mod 4 =? 0
                 then remove_padding (body s) else body s) = body s)
      by (destruct (_ =? 0); [now apply body_no_padding | reflexivity]).
    rewrite E.
    destruct (Z.of_nat (length (body s)) mod 4 =? 1) eqn:E1.
    + apply Z.eqb_eq in E1. now destruct (body_length s).
    + now rewrite indices_body, bytes_of_sextets.
  - intros H. unfold btoa.
    destruct (forallb latin1 s) eqn:E; [|reflexivity].
    destruct H. apply Forall_forall. intros c Hc.
    rewrite forallb_forall in E. now apply latin1_byte, E.
Qed.

Lemma base64_round_trip_witness :
  atob (body (str "{}")) = Ok (str "{}") /\ body (str "{}") = str "e30".
Proof.
  split; [|reflexivity].
  apply (base64_round_trip (str "{}")). repeat constructor; discriminate.
Defined.

Lemma DayFromYear_mono (y y' : Z) :
  y <= y' -> Date.DayFromYear y <= Date.DayFromYear y'.
Proof. intros H. unfold Date.DayFromYear. DateFacts.arith. Qed.

(** The instants of the years 0 to 9999: from the first millisecond of the
    year 0 to the last of the year 9999. *)
Lemma four_digit_years (tv : Z) :
  0 <= Date.YearFromTime tv <= 9999 <-> -62167219200000 <= tv <= 253402300799999.
Proof.
  unfold Date.YearFromTime.
  pose proof (DateFacts.YearFromDay_spec (Date.Day tv)) as Hy.
  set (y := Date.YearFromDay (Date.Day tv)) in *.
  assert (E0 : Date.DayFromYear 0 = -719528) by reflexivity.
  assert (E1 : Date.DayFromYear 10000 = 2932897) by reflexivity.
  assert (Hd : Date.Day tv * 86400000 <= tv < Date.Day tv * 86400000 + 86400000)
    by (unfold Date.Day, Date.msPerDay; DateFacts.arith).
  split.
  - intros [H0 H1].
    pose proof (DayFromYear_mono 0 y H0) as M0.
    pose proof (DayFromYear_mono (y + 1) 10000 ltac:(lia)) as M1. lia.
  - intros [H0 H1].
    destruct (Z.lt_ge_cases y 0) as [Hn|Hn].
    { pose proof (DayFromYear_mono (y + 1) 0 ltac:(lia)) as M. lia. }
    destruct (Z.le_gt_cases y 9999) as [Hm|Hm]; [lia|].
    pose proof (DayFromYear_mono 10000 y ltac:(lia)) as M. lia.
Qed.

Lemma iso_string_length (tv : Z) :
  length (Date.iso_string tv)
  = if (-62167219200000 <=? tv) && (tv <=? 253402300799999) then 24%nat else 27%nat.
Proof.
  pose proof (four_digit_years tv) as Hy.
  assert (E : ((0 <=? Date.YearFromTime tv) && (Date.YearFromTime tv <=? 9999))
              = ((-62167219200000 <=? tv) && (tv <=? 253402300799999))).
  { destruct ((-62167219200000 <=? tv) && (tv <=? 253402300799999)) eqn:B.
    - apply andb_true_iff in B as [B0 B1]. apply Z.leb_le in B0, B1.
      apply andb_true_iff. rewrite !Z.leb_le. apply Hy. lia.
    - apply andb_false_iff. apply andb_false_iff in B. rewrite !Z.leb_gt in *. lia. }
  rewrite <- E. unfold Date.iso_string, Date.year_string.
  destruct ((0 <=? Date.YearFromTime tv) && (Date.YearFromTime tv <=? 9999));
    rewrite length_app; reflexivity.
Qed.

(** X16: the string [toISOString] prints for a valid date reads back, as
    the argument of [new Date], as the same time value on every host.  It
    has 24 characters for an instant of the years 0 to 9999, which are the
    time values from -62167219200000 to 253402300799999, and 27 characters
    for any other; two valid dates with the same string are the same. *)
Theorem iso_round_trip (host : Host) (tv tv' : Z) :
  Z.abs tv <= Date.maxTime -> Z.abs tv' <= Date.maxTime ->
  Date.toISOString (Some tv) = Ok (Date.iso_string tv)
  /\ Date.of_value host (VStr (Date.iso_string tv)) = Ok (Some tv)
  /\ (0 <= Date.YearFromTime tv <= 9999
      <-> -62167219200000 <= tv <= 253402300799999)
  /\ length (Date.iso_string tv)
     = (if (-62167219200000 <=? tv) && (tv <=? 253402300799999)
        then 24%nat else 27%nat)
  /\ (Date.iso_string tv = Date.iso_string tv' -> tv = tv').
Proof.
  intros Hr Hr'. split; [reflexivity|].
  split.
  { rewrite ConversionFacts.of_value_string. f_equal.
    now apply DateFacts.parse_toISOString. }
  split; [apply four_digit_years|].
  split; [apply iso_string_length|].
  intros E.
  pose proof (DateFacts.parse_toISOString host tv Hr) as P.
  rewrite E, (DateFacts.parse_toISOString host tv' Hr') in P. congruence.
Qed.

Lemma iso_round_trip_witness :
  Date.of_value Fixtures.plain_host (VStr (Date.iso_string (- 62198755200001)))
  = Ok (Some (- 62198755200001))
  /\ length (Date.iso_string (- 62198755200001)) = 27%nat.
Proof.
  destruct (iso_round_trip Fixtures.plain_host (- 62198755200001) 0)
    as (_ & Hread & _ & Hlen & _);
    [vm_compute; discriminate | vm_compute; discriminate |].
  split; [exact Hread | exact Hlen].
Defined.

End CodecFacts.

Module EscapeFacts.
Import JSON ShareText Base64Parts JSONFacts Latin1.

(** ** Strings that need escapes *)

Lemma below_32 (c : Z) : 0 <= c < 32 -> In c (range 32).
Proof. intros H. apply Base64Facts.range_complete. lia. Qed.

Lemma all_bytes_sound (s : jsstring) : all_bytes s = true -> Forall byte s.
Proof.
  unfold all_bytes. rewrite forallb_forall. intros H. apply Forall_forall.
  intros c Hc. apply H in Hc. unfold byte. lia.
Qed.

(** An escaped code unit reads back as the unit. *)
Lemma parse_escape_unit (c : Z) (tail : jsstring) :
  byte c ->
  high_surrogate c = false
  /\ Forall byte (escape_unit c)
  /\ parse_string (escape_unit c ++ tail)
     = match parse_string tail with
       | Some (t, rest) => Some (c :: t, rest)
       | None => None
       end.
Proof.
  intros Hc. unfold byte in Hc.
  destruct (Z.ltb_spec c 32) as [Hlow|Hhigh].
  - assert (Hin : In c (range 32)) by (apply below_32; lia).
    cbv [range seq map Z.of_nat Pos.of_succ_nat Pos.succ] in Hin.
    repeat (destruct Hin as [<-|Hin];
            [split; [reflexivity|]; split;
             [now apply all_bytes_sound | reflexivity]|]).
    contradiction.
  - destruct (Z.eq_dec c 34) as [->|H34];
      [split; [reflexivity|]; split;
       [now apply all_bytes_sound | reflexivity]|].
    destruct (Z.eq_dec c 92) as [->|H92];
      [split; [reflexivity|]; split;
       [now apply all_bytes_sound | reflexivity]|].
    assert (Hh : high_surrogate c = false).
    { unfold high_surrogate. destruct (Z.leb_spec 55296 c); [lia | reflexivity]. }
    assert (E : escape_unit c = [c]).
    { unfold escape_unit, low_surrogate. rewrite Hh.
      change (ch "034") with 34. change (ch "\") with 92.
      repeat match goal with
             | |- context [if ?a =? ?b then _ else _] =>
                 destruct (Z.eqb_spec a b); [lia|]
             end.
      destruct (Z.ltb_spec c 32); [lia|].
      destruct (Z.leb_spec 56320 c); [lia|]. reflexivity. }
    split; [exact Hh|]. rewrite E. split; [constructor; [exact Hc | constructor]|].
    cbn [app parse_string]. change (ch "034") with 34. change (ch "\") with 92.
    destruct (Z.eqb_spec c 34); [lia|]. destruct (Z.eqb_spec c 92); [lia|].
    destruct (Z.ltb_spec c 32); [lia|]. reflexivity.
Qed.

Lemma quote_body_cons (c : Z) (s : jsstring) :
  byte c -> quote_body (c :: s) = escape_unit c ++ quote_body s.
Proof.
  intros Hc. cbn [quote_body].
  destruct (parse_escape_unit c [] Hc) as (Hh & _). now rewrite Hh.
Qed.

Lemma quote_body_bytes (s : jsstring) : latin1_string s -> Forall byte (quote_body s).
Proof.
  induction 1 as [|c s Hc _ IH]; [constructor|].
  rewrite quote_body_cons by assumption. apply Forall_app; split; [|exact IH].
  now apply (parse_escape_unit c []).
Qed.

Lemma parse_quote_body (s rest : jsstring) :
  latin1_string s -> parse_string (quote_body s ++ ch "034" :: rest) = Some (s, rest).
Proof.
  induction 1 as [|c s Hc _ IH]; [reflexivity|].
  rewrite quote_body_cons, <- app_assoc by assumption.
  destruct (parse_escape_unit c (quote_body s ++ ch "034" :: rest) Hc) as (_ & _ & E).
  now rewrite E, IH.
Qed.

Lemma quote_app (s rest : jsstring) :
  quote s ++ rest = ch "034" :: quote_body s ++ ch "034" :: rest.
Proof. unfold quote. cbn [app]. now rewrite <- app_assoc. Qed.

Lemma join_quote_first (ids : list jsstring) (rest : jsstring) :
  ids <> [] -> exists r, join_comma (map quote ids) ++ rest = ch "034" :: r.
Proof.
  intros Hne. destruct ids as [|i [|j ids]]; [congruence| |]; cbn [map join_comma].
  - rewrite quote_app. eauto.
  - rewrite <- app_assoc, quote_app. eauto.
Qed.

Lemma parse_elements_latin1 (ids : list jsstring) :
  Forall latin1_string ids -> ids <> [] ->
  forall (fuel : nat) (rest : jsstring),
    (length ids < fuel)%nat ->
    parse_elements fuel (join_comma (map quote ids) ++ ch "]" :: rest)
    = Some (map VStr ids, rest).
Proof.
  induction 1 as [|i ids Hi Hids IH]; [congruence|]. intros _ fuel rest Hf.
  destruct fuel as [|[|f]]; cbn [length] in Hf; try lia.
  rewrite parse_elements_step.
  destruct ids as [|j ids].
  - cbn [map join_comma]. rewrite quote_app.
    rewrite parse_value_string, parse_quote_body by assumption.
    reflexivity.
  - change (join_comma (map quote (i :: j :: ids)))
      with (quote i ++ ch "," :: join_comma (map quote (j :: ids))).
    rewrite <- app_assoc, quote_app.
    rewrite parse_value_string, parse_quote_body by assumption.
    cbn [app].
    change (skip_ws (ch "," :: ?r)) with (ch "," :: r).
    change (ch "," =? ch ",") with true. cbv iota.
    destruct (join_quote_first (j :: ids) (ch "]" :: rest)) as (r & Hr);
      [discriminate|].
    assert (Hskip : skip_ws (join_comma (map quote (j :: ids)) ++ ch "]" :: rest)
                    = join_comma (map quote (j :: ids)) ++ ch "]" :: rest).
    { rewrite Hr. now apply skip_ws_other. }
    rewrite Hskip, IH; [reflexivity | discriminate | cbn [length] in *; lia].
Qed.

Lemma parse_state_text_latin1 (time : jsstring) (ids : list jsstring) :
  simple_string time -> Forall latin1_string ids ->
  parse (state_text time ids)
  = Ok (VObj [(str "time", VStr time); (str "timezones", VArr (map VStr ids))]).
Proof.
  intros Ht Hids. unfold parse.
  assert (Hs : skip_ws (state_text time ids) = state_text time ids) by reflexivity.
  rewrite Hs.
  pose proof (state_text_length time ids) as Hf.
  destruct (2 * length (state_text time ids) + 2)%nat as [|[|[|[|f]]]]; try lia.
  unfold state_text.
  rewrite parse_value_object, parse_members_step.
  rewrite (parse_string_simple (str "time")) by exact simple_time_key.
  eat. eat.
  rewrite parse_value_string, parse_string_simple by assumption.
  eat. eat.
  change (set_prop (str "time") (VStr time) []) with [(str "time", VStr time)].
  rewrite parse_members_step.
  rewrite (parse_string_simple (str "timezones")) by exact simple_timezones_key.
  eat. eat.
  assert (Harr : parse_value (S f)
                   (ch "[" :: join_comma (map quote ids) ++ [ch "]"; ch "}"])
                 = Some (VArr (map VStr ids), [ch "}"])).
  { destruct ids as [|i ids].
    - reflexivity.
    - destruct (join_quote_first (i :: ids) [ch "]"; ch "}"]) as (r & Hr);
        [discriminate|].
      rewrite Hr, parse_value_array, <- Hr.
      change [ch "]"; ch "}"] with (ch "]" :: [ch "}"]).
      rewrite parse_elements_latin1; [reflexivity | assumption | discriminate | lia]. }
  rewrite Harr. reflexivity.
Qed.

Lemma state_text_latin1 (time : jsstring) (ids : list jsstring) :
  simple_string time -> Forall latin1_string ids -> Forall byte (state_text time ids).
Proof.
  intros Ht Hids. unfold state_text.
  assert (Hq : forall s, latin1_string s -> Forall byte (quote s)).
  { intros s Hs. unfold quote. constructor; [unfold byte; cbv; split; congruence|].
    apply Forall_app; split; [now apply quote_body_bytes|].
    now apply all_bytes_sound. }
  assert (Hj : Forall byte (join_comma (map quote ids))).
  { induction Hids as [|i ids Hi Hids IH]; [constructor|].
    cbn [map join_comma]. destruct ids as [|j ids]; [now apply Hq|].
    apply Forall_app; split; [now apply Hq|].
    constructor; [unfold byte; cbv; split; congruence | exact IH]. }
  repeat first [ apply Forall_nil
               | apply Forall_cons; [unfold byte; cbv; split; congruence|]
               | apply Forall_app; split ];
    try (now apply all_bytes_sound).
  - eapply Forall_impl; [|exact Ht]. intros c Hc.
    apply TokenFacts.clean_byte. now apply TokenFacts.simple_clean.
  - exact Hj.
Qed.

End EscapeFacts.

Module LinkFacts.
Import TimeZoneConverter Transitions Fixtures ShareText UrlSafety Rendering Latin1.
Import Base64Parts Base64RoundTrip JSONFacts DateFacts ShareLink EscapeFacts.

(** ** The codec beyond the catalog *)

(** X17: the codec loses nothing of a list of Latin-1 strings, whatever
    they are: ids the catalog does not have, repeated ids, ids with
    quotation marks, backslashes or control characters all come back,
    element for element, with the instant, and on any other host. *)
Theorem codec_round_trip (host host' : Host) (st : state) (tv : Z)
    (ids : list jsstring) :
  selectedTime st = IsDate (Some tv) ->
  Z.abs tv <= Date.maxTime ->
  activeTimezones st = map VStr ids ->
  Forall latin1_string ids ->
  exists token,
    encode host st = Ok token
    /\ decode host' token = Ok (Some tv, activeTimezones st).
Proof.
  intros Ht Hr Hz Hids.
  pose proof (iso_string_simple tv) as Hsimple.
  pose proof (state_text_latin1 _ _ Hsimple Hids) as Hbytes.
  exists (Base64.encode (state_text (Date.iso_string tv) ids)). split.
  - unfold encode. rewrite Ht, Hz. cbn [receiver Date.toISOString bind].
    rewrite serialize_state by exact Hsimple.
    now apply btoa_latin1.
  - unfold decode. rewrite atob_encode by exact Hbytes. cbn [bind].
    rewrite parse_state_text_latin1 by assumption.
    cbn [bind get_prop].
    change (lookup (str "time") [(str "time", ?a); (str "timezones", ?b)]) with a.
    change (lookup (str "timezones") [(str "time", ?a); (str "timezones", ?b)]) with b.
    destruct (iso_string_nonempty tv) as (c & r & E).
    assert (Htruthy : truthy (VStr (Date.iso_string tv)) = true) by now rewrite E.
    rewrite Htruthy. cbn [negb bind].
    rewrite ConversionFacts.of_value_string. cbn [bind].
    now rewrite parse_toISOString, Hz.
Qed.

Lemma codec_round_trip_witness :
  exists token,
    encode plain_host
      (setActiveTimezones [VStr [ch "a"; ch "034"; ch "\"; 10; 233]; VStr [];
                           VStr (str "UTC"); VStr (str "UTC")]
         (initial_state 1704067200123)) = Ok token
    /\ decode (host_at 330) token
       = Ok (Some 1704067200123,
             [VStr [ch "a"; ch "034"; ch "\"; 10; 233]; VStr [];
              VStr (str "UTC"); VStr (str "UTC")]).
Proof.
  destruct (codec_round_trip plain_host (host_at 330)
              (setActiveTimezones [VStr [ch "a"; ch "034"; ch "\"; 10; 233]; VStr [];
                                   VStr (str "UTC"); VStr (str "UTC")]
                 (initial_state 1704067200123))
              1704067200123
              [[ch "a"; ch "034"; ch "\"; 10; 233]; []; str "UTC"; str "UTC"])
    as (token & Henc & Hdec).
  - reflexivity.
  - vm_compute; discriminate.
  - reflexivity.
  - repeat (apply Forall_cons; [now apply all_bytes_sound|]). constructor.
  - exists token. split; assumption.
Defined.

(** ** From the link button to the page that opens the link *)

Lemma catalog_values_ids (active : list value) :
  Forall catalog_value active ->
  exists ids, active = map VStr ids /\ Forall catalog_id ids.
Proof.
  induction 1 as [|v active (tz & Hin & ->) _ (ids & -> & Hids)].
  - now exists [].
  - exists (id tz :: ids). split; [reflexivity|].
    constructor; [|exact Hids]. now exists tz.
Qed.

(** X18: for a state with a valid date whose active ids are distinct
    catalog ids, the link button sets the link to origin, path and
    [?state=] followed by a token and changes nothing else; a page whose
    query is [?state=] and that token, on any host and from any state,
    comes to show the sender's instant and list, with the available
    entries recomputed: the invariant holds there and its rows render. *)
Theorem link_opens (host host' : Host) (origin pathname : jsstring)
    (st st0 : state) (tv : Z) :
  selectedTime st = IsDate (Some tv) ->
  Z.abs tv <= Date.maxTime ->
  NoDup (activeTimezones st) ->
  Forall catalog_value (activeTimezones st) ->
  exists token,
    generateShareableLink host origin pathname st
    = Done (setShareableLink (origin ++ pathname ++ str "?state=" ++ token) st)
    /\ let st' := useEffect_body host' (str "?state=" ++ token) st0 in
       selectedTime st' = IsDate (Some tv)
       /\ activeTimezones st' = activeTimezones st
       /\ isLoading st' = false
       /\ error st' = error st0
       /\ invariant st'
       /\ exists page, rows host' (selectedTime st') (activeTimezones st') = Ok page.
Proof.
  intros Ht Hr Hnd Hcat.
  destruct (catalog_values_ids _ Hcat) as (ids & Hz & Hids).
  assert (Hsimple : Forall simple_string ids)
    by (eapply Forall_impl; [|exact Hids]; exact catalog_id_simple).
  exists (Base64.encode (state_text (Date.iso_string tv) ids)).
  split.
  { unfold generateShareableLink. now rewrite (encode_state host st tv ids). }
  assert (Hget : URLSearchParams.get host'
                   (str "?state=" ++ Base64.encode (state_text (Date.iso_string tv) ids))
                   (str "state")
                 = Some (Base64.encode (state_text (Date.iso_string tv) ids))).
  { apply UrlFacts.get_state. eapply Forall_impl; [|now apply token_url_safe].
    exact TokenFacts.token_char_url_safe. }
  cbv zeta.
  rewrite (Decoding.useEffect_accepted host' _ _ st0 _ _ Hget
             (decode_state host' tv ids Hr Hsimple)).
  cbn [selectedTime activeTimezones availableTimezones isLoading error].
  rewrite <- Hz.
  split; [reflexivity|]. split; [reflexivity|]. split; [reflexivity|].
  split; [reflexivity|]. split.
  - split; cbn [activeTimezones availableTimezones].
    + exact Hnd.
    + intros v Hv. rewrite Forall_forall in Hcat. exact (Hcat v Hv).
    + apply Permutation_refl.
  - now apply RenderFacts.rows_defined.
Qed.

Lemma link_opens_witness :
  exists token,
    generateShareableLink plain_host (str "https://example.org") (str "/")
      (initial_state 1704067200123)
    = Done (setShareableLink (str "https://example.org" ++ str "/" ++ str "?state=" ++ token)
              (initial_state 1704067200123))
    /\ invariant (useEffect_body (host_at 330) (str "?state=" ++ token) (initial_state 0)).
Proof.
  destruct (link_opens plain_host (host_at 330) (str "https://example.org") (str "/")
              (initial_state 1704067200123) (initial_state 0) 1704067200123)
    as (token & Hlink & _ & _ & _ & _ & Hinv & _).
  - reflexivity.
  - vm_compute; discriminate.
  - repeat constructor; simpl; intuition discriminate.
  - repeat constructor.
    + exists (nth 0 timezones (mkTimezone [] [] 0)); split; [left|]; reflexivity.
    + exists (nth 1 timezones (mkTimezone [] [] 0)); split; [right; left|]; reflexivity.
  - exists token. split; assumption.
Defined.

End LinkFacts.

Module RemoveThenAdd.
Import TimeZoneConverter Transitions.

(** ** Removing a zone and adding it again *)

Lemma filter_all {A} (f : A -> bool) (l : list A) :
  (forall x, In x l -> f x = true) -> filter f l = l.
Proof.
  induction l as [|x l IH]; intros H; [reflexivity|]. cbn [filter].
  rewrite (H x (or_introl eq_refl)). f_equal. apply IH.
  intros y Hy. apply H. now right.
Qed.

(** X19: under the list invariant, removing an active zone and adding it
    again completes without an exception, brings the available list back
    to what it was, element for element, and moves the zone to the end of
    the active list, the other zones keeping their order. *)
Theorem remove_then_add (st : state) (tzId : jsstring) :
  invariant st -> In (VStr tzId) (activeTimezones st) ->
  exists st',
    addTimezone tzId (state_of (removeTimezone tzId st)) = Done st'
    /\ availableTimezones st' = availableTimezones st
    /\ activeTimezones st'
       = filter (fun v => negb (strict_eq_string v tzId)) (activeTimezones st)
         ++ [VStr tzId]
    /\ selectedTime st' = selectedTime st
    /\ invariant st'.
Proof.
  intros Hinv Hin.
  pose proof Hinv as [Hnd Hcat Hav].
  destruct (Hcat _ Hin) as (tz0 & Hin0 & E0). injection E0 as ->.
  destruct (Permutation_map_inv _ _ Hav) as (l & El & HP).
  assert (Hl : forall tz, In tz l -> negb (jsstring_eqb (id tz) (id tz0)) = true).
  { intros tz Htz. apply (Permutation_in _ (Permutation_sym HP)) in Htz.
    apply filter_In in Htz as [_ Hinact].
    unfold inactive in Hinact. apply negb_true_iff in Hinact.
    apply negb_true_iff. destruct (jsstring_eqb (id tz) (id tz0)) eqn:E; [|reflexivity].
    apply jsstring_eqb_eq in E. rewrite E in Hinact.
    apply includes_false in Hinact. contradiction. }
  assert (Hne : id tz0 <> []) by (destruct Hin0 as [<-|[<-|[<-|[<-|[]]]]]; discriminate).
  destruct (ZoneInvariant.step_invariant st (Remove (id tz0)) Hinv Hin)
    as (st1 & E1 & Hinv1).
  cbn [handle] in E1. rewrite E1. cbn [state_of].
  assert (Est1 : activeTimezones st1
                 = filter (fun v => negb (strict_eq_string v (id tz0)))
                     (activeTimezones st)
                 /\ availableTimezones st1 = availableTimezones st ++ [Some tz0]
                 /\ selectedTime st1 = selectedTime st).
  { assert (Es : st1 = state_of (removeTimezone (id tz0) st))
      by (rewrite E1; reflexivity).
    rewrite Es.
    cbn [removeTimezone state_of setAvailableTimezones setActiveTimezones
           availableTimezones activeTimezones selectedTime].
    now rewrite ZoneInvariant.find_catalog. }
  destruct Est1 as (Eact & Eav & Etime).
  assert (Ea : filter_other (id tz0) (availableTimezones st1)
               = Ok (availableTimezones st)).
  { rewrite Eav, El.
    change [Some tz0] with (map Some [tz0]). rewrite <- map_app.
    rewrite ZoneInvariant.filter_other_defined, filter_app.
    rewrite (filter_all _ l Hl). cbn [filter].
    rewrite jsstring_eqb_refl. cbn [negb]. now rewrite app_nil_r. }
  assert (Hpre : precondition (Add (id tz0)) st1).
  { split; [now exists tz0|]. rewrite Eact.
    intros H. apply filter_In in H as [_ H]. cbn in H.
    now rewrite jsstring_eqb_refl in H. }
  destruct (ZoneInvariant.step_invariant st1 (Add (id tz0)) Hinv1 Hpre)
    as (st2 & E2 & Hinv2).
  cbn [handle] in E2. exists st2. split; [exact E2|].
  unfold addTimezone in E2. destruct (id tz0) as [|c r] eqn:Eid; [congruence|].
  rewrite Ea in E2.
  assert (Es : st2 = setAvailableTimezones (availableTimezones st)
                       (setActiveTimezones (activeTimezones st1 ++ [VStr (c :: r)]) st1))
    by congruence.
  rewrite Es at 1 2 3.
  cbn [setAvailableTimezones setActiveTimezones availableTimezones activeTimezones
         selectedTime].
  rewrite Eact, Etime.
  split; [reflexivity|]. split; [reflexivity|]. split; [reflexivity | exact Hinv2].
Qed.

Lemma remove_then_add_witness :
  exists st',
    addTimezone (str "UTC") (state_of (removeTimezone (str "UTC") (initial_state 0)))
    = Done st'
    /\ availableTimezones st' = availableTimezones (initial_state 0)
    /\ activeTimezones st' = [VStr (str "IST"); VStr (str "UTC")].
Proof.
  destruct (remove_then_add (initial_state 0) (str "UTC"))
    as (st' & Hdone & Hav & Hact & _).
  - apply ZoneInvariant.initial_invariant.
  - left; reflexivity.
  - exists st'. split; [exact Hdone|]. split; [exact Hav|]. exact Hact.
Defined.

End RemoveThenAdd.
